(** * stockfish-components: the schedule grid and the rich-text editor

    A shallow embedding of [src/components/TimeTable.tsx] and
    [src/components/TextEditor.tsx].

    Conventions of the embedding.
    - A JavaScript string is the list of its UTF-16 code units.
    - A JavaScript number is an extended rational: a finite value, one of
      the two infinities, or NaN.  Arithmetic is exact: IEEE-754 rounding
      and the sign of zero are not represented.  Every value the schedule
      grid computes from two-digit time fields is an integer below 10^4
      before the single division, so nothing is lost before that point.
    - What the JavaScript runtime provides ([Number], case conversion) is
      an interface, [Runtime], of which a reference instance is given.
    - A method of the host document changes the host only.  The events
      that a call dispatches ([input] after [execCommand], [focus]) and
      the handlers the component has registered for them are not
      represented: a command is the sequence of calls it makes itself. *)

From Stdlib Require Import String Ascii ZArith NArith QArith Qminmax List Bool Lia.
From Stdlib Require Import Permutation.
Import ListNotations.

Local Open Scope Z_scope.

(** ** Strings *)

Definition jsstring := list N.

Definition js (s : string) : jsstring :=
  List.map N_of_ascii (list_ascii_of_string s).

Definition jsstring_eqb (a b : jsstring) : bool :=
  if list_eq_dec N.eq_dec a b then true else false.

(** [a < b] on strings: code-unit-wise lexicographic order, a proper prefix
    being smaller (ECMAScript IsLessThan on two strings). *)
Fixpoint str_ltb (a b : jsstring) : bool :=
  match a, b with
  | _, [] => false
  | [], _ :: _ => true
  | x :: a', y :: b' =>
      if N.ltb x y then true
      else if N.ltb y x then false
      else str_ltb a' b'
  end.

Definition str_gtb (a b : jsstring) : bool := str_ltb b a.
Definition str_leb (a b : jsstring) : bool := negb (str_ltb b a).
Definition str_geb (a b : jsstring) : bool := negb (str_ltb a b).

(** [s.startsWith(p)] *)
Fixpoint startsWith (s p : jsstring) : bool :=
  match p, s with
  | [], _ => true
  | _ :: _, [] => false
  | y :: p', x :: s' => N.eqb x y && startsWith s' p'
  end.

(** [s.split(sep)] for a separator of one code unit: [split_go] carries the
    field being read, in reverse. *)
Fixpoint split_go (sep : N) (cur : jsstring) (s : jsstring) : list jsstring :=
  match s with
  | [] => [rev cur]
  | c :: s' =>
      if N.eqb c sep then rev cur :: split_go sep [] s'
      else split_go sep (c :: cur) s'
  end.

Definition split (sep : N) (s : jsstring) : list jsstring := split_go sep [] s.

Definition colon : N := 58%N.

(** ** Numbers *)

Inductive num : Type :=
| NaN
| NegInf
| Fin (q : Q)
| PosInf.

Definition Qsign (q : Q) : comparison := (q ?= 0)%Q.

Definition nneg (a : num) : num :=
  match a with
  | NaN => NaN
  | NegInf => PosInf
  | PosInf => NegInf
  | Fin x => Fin (- x)%Q
  end.

Definition nadd (a b : num) : num :=
  match a, b with
  | NaN, _ | _, NaN => NaN
  | Fin x, Fin y => Fin (x + y)%Q
  | PosInf, NegInf | NegInf, PosInf => NaN
  | PosInf, _ | _, PosInf => PosInf
  | NegInf, _ | _, NegInf => NegInf
  end.

Definition nsub (a b : num) : num := nadd a (nneg b).

Definition inf_of (c : comparison) : num :=
  match c with
  | Gt => PosInf
  | Lt => NegInf
  | Eq => NaN
  end.

Definition nmul (a b : num) : num :=
  match a, b with
  | NaN, _ | _, NaN => NaN
  | Fin x, Fin y => Fin (x * y)%Q
  | PosInf, Fin y | Fin y, PosInf => inf_of (Qsign y)
  | NegInf, Fin y | Fin y, NegInf => inf_of (CompOpp (Qsign y))
  | PosInf, PosInf | NegInf, NegInf => PosInf
  | PosInf, NegInf | NegInf, PosInf => NegInf
  end.

(** Division; a zero divisor counts as +0. *)
Definition ndiv (a b : num) : num :=
  match a, b with
  | NaN, _ | _, NaN => NaN
  | Fin x, Fin y =>
      match Qsign y with
      | Eq => inf_of (Qsign x)
      | _ => Fin (x / y)%Q
      end
  | Fin _, (PosInf | NegInf) => Fin 0
  | PosInf, Fin y =>
      match Qsign y with Lt => NegInf | _ => PosInf end
  | NegInf, Fin y =>
      match Qsign y with Lt => PosInf | _ => NegInf end
  | (PosInf | NegInf), (PosInf | NegInf) => NaN
  end.

(** [a < b]: false as soon as one side is NaN. *)
Definition nltb (a b : num) : bool :=
  match a, b with
  | NaN, _ | _, NaN => false
  | Fin x, Fin y => negb (Qle_bool y x)
  | NegInf, NegInf => false
  | NegInf, _ => true
  | _, NegInf => false
  | PosInf, _ => false
  | _, PosInf => true
  end.

Definition nleb (a b : num) : bool :=
  match a, b with
  | NaN, _ | _, NaN => false
  | Fin x, Fin y => Qle_bool x y
  | NegInf, _ => true
  | _, PosInf => true
  | _, NegInf => false
  | PosInf, _ => false
  end.

Definition ngeb (a b : num) : bool := nleb b a.
Definition ngtb (a b : num) : bool := nltb b a.

(** [Math.max(a, b)] *)
Definition Math_max (a b : num) : num :=
  match a, b with
  | NaN, _ | _, NaN => NaN
  | _, _ => if nleb a b then b else a
  end.

Definition of_Z (z : Z) : num := Fin (inject_Z z).

(** Equality of numbers as values. *)
Definition num_eq (a b : num) : Prop :=
  match a, b with
  | NaN, NaN | NegInf, NegInf | PosInf, PosInf => True
  | Fin x, Fin y => (x == y)%Q
  | _, _ => False
  end.

(** ** The runtime *)

Definition is_digit (c : N) : bool := (N.leb 48 c && N.leb c 57)%N.

Definition digit_val (c : N) : Z := Z.of_N c - 48.

(** Value of a string of decimal digits. *)
Definition decimal (s : jsstring) : Z :=
  fold_left (fun acc c => 10 * acc + digit_val c) s 0.

Definition is_ascii (c : N) : bool := N.ltb c 128.

Definition upper_ascii (c : N) : N :=
  if (N.leb 97 c && N.leb c 122)%N then (c - 32)%N else c.

Definition lower_ascii (c : N) : N :=
  if (N.leb 65 c && N.leb c 90)%N then (c + 32)%N else c.

(** [Number(s)] is fixed on the strings made of one to fifteen decimal
    digits, whose value a double holds exactly; the case conversions are
    fixed on ASCII strings.  Nothing is assumed elsewhere. *)
Class Runtime : Type := {
  Number : jsstring -> num;
  toUpperCase : jsstring -> jsstring;
  toLowerCase : jsstring -> jsstring;
  Number_digits : forall s,
    s <> [] -> (length s <= 15)%nat -> forallb is_digit s = true ->
    Number s = of_Z (decimal s);
  toUpperCase_ascii : forall s,
    forallb is_ascii s = true -> toUpperCase s = List.map upper_ascii s;
  toLowerCase_ascii : forall s,
    forallb is_ascii s = true -> toLowerCase s = List.map lower_ascii s
}.

(** The reference runtime: digit strings are numbers, every other string is
    read as NaN, and only ASCII letters change case. *)
Definition Number_ref (s : jsstring) : num :=
  match s with
  | [] => NaN
  | _ => if forallb is_digit s && Nat.leb (length s) 15
         then of_Z (decimal s) else NaN
  end.

#[export] Instance refRuntime : Runtime.
Proof.
  refine {| Number := Number_ref;
            toUpperCase := List.map upper_ascii;
            toLowerCase := List.map lower_ascii |}.
  - intros s Hne Hlen Hd. unfold Number_ref.
    destruct s as [|c s]; [congruence|].
    rewrite Hd. apply Nat.leb_le in Hlen. rewrite Hlen. reflexivity.
  - reflexivity.
  - reflexivity.
Defined.

(** ** The schedule grid: data *)

Record Schedule : Type := {
  id : Z;
  day : jsstring;
  startTime : jsstring;
  endTime : jsstring;
  courseName : jsstring;
  classroomName : jsstring;
  color : option jsstring;
  description : option jsstring
}.

Record DayDef : Type := {
  day_id : Z;
  name : jsstring;
  fullName : option jsstring
}.

(** The properties of the component that the layout reads; an absent
    optional property is [None] and takes the default of the source. *)
Record TimeTableProps : Type := {
  scheduleData : list Schedule;
  customDays : option (list DayDef);
  prop_startTime : option jsstring;
  prop_endTime : option jsstring;
  prop_compact : option bool
}.

Definition mkDay (i : Z) (n f : string) : DayDef :=
  {| day_id := i; name := js n; fullName := Some (js f) |}.

Definition defaultDays : list DayDef :=
  [ mkDay 1 "Sat" "Saturday"; mkDay 2 "Sun" "Sunday"; mkDay 3 "Mon" "Monday";
    mkDay 4 "Tue" "Tuesday"; mkDay 5 "Wed" "Wednesday";
    mkDay 6 "Thu" "Thursday"; mkDay 7 "Fri" "Friday" ].

Definition days (p : TimeTableProps) : list DayDef :=
  match customDays p with Some ds => ds | None => defaultDays end.

Definition window_start (p : TimeTableProps) : jsstring :=
  match prop_startTime p with Some s => s | None => js "07:00" end.

Definition window_end (p : TimeTableProps) : jsstring :=
  match prop_endTime p with Some s => s | None => js "16:00" end.

Definition compact (p : TimeTableProps) : bool :=
  match prop_compact p with Some b => b | None => false end.

(** One positioned event of a day column: the inline [top] and [height]
    percentages and the overlap list computed for it. *)
Record EventBox : Type := {
  box_event : Schedule;
  box_top : num;
  box_height : num;
  box_overlaps : list Schedule
}.

(** [const [a, b] = xs]: the element at index [i], [undefined] when the
    array is shorter.  Each use below is arithmetic, where [undefined]
    converts to NaN. *)
Definition item (xs : list num) (i : nat) : num := nth i xs NaN.

(** ** The schedule grid: functions *)

Section TimeTable.

Context {R : Runtime}.

Definition isTimeInRange (time startTime endTime : jsstring) : bool :=
  let t := List.map Number (split colon time) in
  let hours := item t 0 in
  let minutes := item t 1 in
  let timeInMinutes := nadd (nmul hours (of_Z 60)) minutes in
  let s := List.map Number (split colon startTime) in
  let startHour := item s 0 in
  let startMin := item s 1 in
  let e := List.map Number (split colon endTime) in
  let endHour := item e 0 in
  let endMin := item e 1 in
  let startInMinutes := nadd (nmul startHour (of_Z 60)) startMin in
  let endInMinutes := nadd (nmul endHour (of_Z 60)) endMin in
  ngeb timeInMinutes startInMinutes && nleb timeInMinutes endInMinutes.

Definition timeToPosition (time startTime endTime : jsstring) : num :=
  let t := List.map Number (split colon time) in
  let hour := item t 0 in
  let minute := item t 1 in
  let totalMinutes := nadd (nmul hour (of_Z 60)) minute in
  let s := List.map Number (split colon startTime) in
  let startHour := item s 0 in
  let startMin := item s 1 in
  let startOfDay := nadd (nmul startHour (of_Z 60)) startMin in
  let e := List.map Number (split colon endTime) in
  let endHour := item e 0 in
  let endMin := item e 1 in
  let endOfDay := nadd (nmul endHour (of_Z 60)) endMin in
  let totalDayMinutes := nsub endOfDay startOfDay in
  let minutesSinceStartOfDay := nsub totalMinutes startOfDay in
  nmul (ndiv minutesSinceStartOfDay totalDayMinutes) (of_Z 100).

Definition calculateHeight
  (startTime endTime dayStartTime dayEndTime : jsstring) : num :=
  let s := List.map Number (split colon startTime) in
  let startHour := item s 0 in
  let startMinute := item s 1 in
  let e := List.map Number (split colon endTime) in
  let endHour := item e 0 in
  let endMinute := item e 1 in
  let startInMinutes := nadd (nmul startHour (of_Z 60)) startMinute in
  let endInMinutes := nadd (nmul endHour (of_Z 60)) endMinute in
  let durationInMinutes := nsub endInMinutes startInMinutes in
  let ds := List.map Number (split colon dayStartTime) in
  let dayStartHour := item ds 0 in
  let dayStartMin := item ds 1 in
  let de := List.map Number (split colon dayEndTime) in
  let dayEndHour := item de 0 in
  let dayEndMin := item de 1 in
  let totalDayMinutes :=
    nsub (nadd (nmul dayEndHour (of_Z 60)) dayEndMin)
         (nadd (nmul dayStartHour (of_Z 60)) dayStartMin) in
  nmul (ndiv durationInMinutes totalDayMinutes) (of_Z 100).

(** The comparisons are those of the source: on the time strings. *)
Definition overlaps (currentEvent event : Schedule) : bool :=
  negb (Z.eqb (id event) (id currentEvent)) &&
  ((str_geb (startTime event) (startTime currentEvent) &&
    str_ltb (startTime event) (endTime currentEvent)) ||
   (str_gtb (endTime event) (startTime currentEvent) &&
    str_leb (endTime event) (endTime currentEvent)) ||
   (str_leb (startTime event) (startTime currentEvent) &&
    str_geb (endTime event) (endTime currentEvent))).

Definition findOverlappingEvents
  (currentEvent : Schedule) (dayEvents : list Schedule) : list Schedule :=
  List.filter (overlaps currentEvent) dayEvents.

Definition isEventVisible (p : TimeTableProps) (event : Schedule) : bool :=
  isTimeInRange (startTime event) (window_start p) (window_end p) &&
  isTimeInRange (endTime event) (window_start p) (window_end p).

(** The events of one day column: [day.name] is a prefix of [event.day],
    both in upper case. *)
Definition dayEvents (p : TimeTableProps) (d : DayDef) : list Schedule :=
  List.filter
    (fun event => startsWith (toUpperCase (day event)) (toUpperCase (name d)))
    (scheduleData p).

Definition min_height (p : TimeTableProps) : num :=
  if compact p then of_Z 8 else of_Z 10.

(** The body of [dayEvents.filter(isEventVisible).map(...)] as far as the
    position, the height and the overlap list go. *)
Definition renderEvent
  (p : TimeTableProps) (evs : list Schedule) (event : Schedule) : EventBox :=
  let top := timeToPosition (startTime event) (window_start p) (window_end p) in
  let height :=
    calculateHeight (startTime event) (endTime event)
                    (window_start p) (window_end p) in
  let overlappingEvents :=
    findOverlappingEvents event (List.filter (isEventVisible p) evs) in
  {| box_event := event;
     box_top := top;
     box_height := Math_max height (min_height p);
     box_overlaps := overlappingEvents |}.

Definition renderDay (p : TimeTableProps) (d : DayDef) : list EventBox :=
  let evs := dayEvents p d in
  List.map (renderEvent p evs) (List.filter (isEventVisible p) evs).

Definition render (p : TimeTableProps) : list (DayDef * list EventBox) :=
  List.map (fun d => (d, renderDay p d)) (days p).

End TimeTable.

(** ** The schedule grid: the time slots and the grid lines *)

Definition defaultTimeSlots : list jsstring :=
  [ js "07:00"; js "08:00"; js "09:00"; js "10:00"; js "11:00";
    js "12:00"; js "13:00"; js "14:00"; js "15:00"; js "16:00" ].

(** [customTimeSlots || defaultTimeSlots] *)
Definition timeSlots (customTimeSlots : option (list jsstring)) : list jsstring :=
  match customTimeSlots with Some ts => ts | None => defaultTimeSlots end.

(** The inline [top] of the grid line [idx]:
    [(idx * 100) / (timeSlots.length - 1)]. *)
Definition gridLineTop (timeSlots : list jsstring) (idx : nat) : num :=
  ndiv (nmul (of_Z (Z.of_nat idx)) (of_Z 100))
       (nsub (of_Z (Z.of_nat (List.length timeSlots))) (of_Z 1)).

(** [timeSlots.map((_, idx) => ...)]: one line for each slot. *)
Definition gridLines (timeSlots : list jsstring) : list num :=
  List.map (gridLineTop timeSlots) (seq 0 (List.length timeSlots)).

(** ** Time strings, as the specification reads them *)

(** The two-digit field [a b]. *)
Definition two_digits (a b : N) : option Z :=
  if is_digit a && is_digit b then Some (10 * digit_val a + digit_val b)
  else None.

(** Hours, minutes and seconds of "HH:MM" or "HH:MM:SS"; the seconds of
    "HH:MM" are 0. *)
Definition time_fields (s : jsstring) : option (Z * Z * Z) :=
  match s with
  | [h1; h2; c1; m1; m2] =>
      match two_digits h1 h2, two_digits m1 m2 with
      | Some h, Some m => if N.eqb c1 colon then Some (h, m, 0) else None
      | _, _ => None
      end
  | [h1; h2; c1; m1; m2; c2; s1; s2] =>
      match two_digits h1 h2, two_digits m1 m2, two_digits s1 s2 with
      | Some h, Some m, Some sec =>
          if N.eqb c1 colon && N.eqb c2 colon then Some (h, m, sec) else None
      | _, _, _ => None
      end
  | _ => None
  end.

(** Well-formed "HH:MM[:SS]": two-digit fields, minutes and seconds below 60. *)
Definition wf_time (s : jsstring) : bool :=
  match time_fields s with
  | Some (_, m, sec) => (m <? 60) && (sec <? 60)
  | None => false
  end.

(** Well-formed "HH:MM", without seconds. *)
Definition wf_hhmm (s : jsstring) : bool :=
  wf_time s && Nat.eqb (List.length s) 5.

(** Minutes since midnight, seconds ignored. *)
Definition minutes_of (s : jsstring) : Z :=
  match time_fields s with
  | Some (h, m, _) => h * 60 + m
  | None => 0
  end.

(** The three-way interval test of the specification on minute values:
    O.start in [E.start, E.end), or O.end in (E.start, E.end], or O covers E. *)
Definition minute_overlap (E O : Schedule) : bool :=
  let es := minutes_of (startTime E) in
  let ee := minutes_of (endTime E) in
  let os := minutes_of (startTime O) in
  let oe := minutes_of (endTime O) in
  ((es <=? os) && (os <? ee)) || ((es <? oe) && (oe <=? ee)) ||
  ((os <=? es) && (ee <=? oe)).

Definition mkEvent (i : Z) (d s e : string) : Schedule :=
  {| id := i; day := js d; startTime := js s; endTime := js e;
     courseName := js "Course"; classroomName := js "Room";
     color := None; description := None |}.

Definition mkProps (evs : list Schedule) (s e : string) (c : bool)
  : TimeTableProps :=
  {| scheduleData := evs; customDays := None;
     prop_startTime := Some (js s); prop_endTime := Some (js e);
     prop_compact := Some c |}.

(** An event starts before it ends: as the source compares times, on the
    strings, or on the minute values of well-formed times. *)
Definition start_before_end (ev : Schedule) : Prop :=
  str_ltb (startTime ev) (endTime ev) = true \/
  (wf_time (startTime ev) = true /\ wf_time (endTime ev) = true /\
   minutes_of (startTime ev) < minutes_of (endTime ev)).

(** The example of the specification: two Saturday events in the default
    window. *)
Definition ex_e1 : Schedule := mkEvent 1 "Saturday" "08:00" "09:00".
Definition ex_e2 : Schedule := mkEvent 2 "Sat" "08:30" "09:30".
Definition ex_props : TimeTableProps := mkProps [ex_e1; ex_e2] "07:00" "16:00" false.
Definition ex_sat : DayDef := mkDay 1 "Sat" "Saturday".
Definition ex_box1 : EventBox :=
  renderEvent (R := refRuntime) ex_props (dayEvents ex_props ex_sat) ex_e1.

(** Two events inside one minute, with seconds. *)
Definition ex_s1 : Schedule := mkEvent 1 "Sat" "08:00:30" "09:00:00".
Definition ex_s2 : Schedule := mkEvent 2 "Sat" "08:00:10" "08:00:20".
Definition ex_props_s : TimeTableProps := mkProps [ex_s1; ex_s2] "07:00" "16:00" false.

(** An event of no length in a window of no length. *)
Definition ex_instant : Schedule := mkEvent 1 "Sat" "08:00" "08:00".
Definition ex_props_zero : TimeTableProps :=
  mkProps [ex_instant] "08:00" "08:00" false.
Definition ex_box_zero : EventBox :=
  renderEvent (R := refRuntime) ex_props_zero
    (dayEvents ex_props_zero ex_sat) ex_instant.

(** A custom day whose name is a prefix of "Sat". *)
Definition ex_s_day : DayDef := mkDay 8 "S" "S".

(** ** The editor: strings *)

(** WhiteSpace and LineTerminator code units, which [trim] removes. *)
Definition is_js_space (c : N) : bool :=
  ((N.leb 9 c && N.leb c 13) || N.eqb c 32 || N.eqb c 160 || N.eqb c 5760 ||
   (N.leb 8192 c && N.leb c 8202) || N.eqb c 8232 || N.eqb c 8233 ||
   N.eqb c 8239 || N.eqb c 8287 || N.eqb c 12288 || N.eqb c 65279)%N.

Fixpoint drop_space (s : jsstring) : jsstring :=
  match s with
  | c :: s' => if is_js_space c then drop_space s' else s
  | [] => []
  end.

Definition trim (s : jsstring) : jsstring :=
  rev (drop_space (rev (drop_space s))).

(** A code unit of the ranges U+0600-U+06FF and U+0750-U+077F. *)
Definition is_arabic (c : N) : bool :=
  ((N.leb 1536 c && N.leb c 1791) || (N.leb 1872 c && N.leb c 1919))%N.

(** The test of the pattern with the two ranges U+0600-U+06FF and
    U+0750-U+077F: without the [u] flag the class is tried on each code
    unit. *)
Definition arabicRegex_test (s : jsstring) : bool := existsb is_arabic s.

Definition dq : jsstring := [34%N].

(** ** The editor: the host document *)

(** The result of a step: a value, an exception (both with the state
    reached), or no answer, when a loop of the model runs out of fuel or a
    host instance does not cover the case. *)
Inductive outcome (S E A : Type) : Type :=
| Val (a : A) (s : S)
| Exc (e : E) (s : S)
| Undef.

Arguments Val {S E A} a s.
Arguments Exc {S E A} e s.
Arguments Undef {S E A}.

(** What the editor asks of the document, the selection and the ranges.
    The properties read are functions of the state of the host; the
    methods called may change it and may throw. *)
Class Host (node range world exn : Type) : Type := {
  node_eqb : node -> node -> bool;
  (* window.getSelection(): [None] for null, else the ranges it holds *)
  getSelection : world -> option (list range);
  anchorNode : world -> option node;
  anchorOffset : world -> nat;
  commonAncestorContainer : world -> range -> node;
  collapsed : world -> range -> bool;
  contains : world -> node -> node -> bool;
  (* the parent, its parent, and so on *)
  ancestors : world -> node -> list node;
  childNodes : world -> node -> list node;
  isElement : world -> node -> bool;
  tagName : world -> node -> jsstring;
  style_textAlign : world -> node -> jsstring;
  innerHTML : world -> node -> jsstring;
  textContent : world -> node -> jsstring;
  focus : node -> world -> outcome world exn unit;
  createElement : jsstring -> world -> outcome world exn node;
  createRange : world -> outcome world exn range;
  set_innerHTML : node -> jsstring -> world -> outcome world exn unit;
  set_style : node -> jsstring -> jsstring -> world -> outcome world exn unit;
  insertAdjacentHTML_beforeend : node -> jsstring -> world -> outcome world exn unit;
  appendChild : node -> node -> world -> outcome world exn unit;
  insertBefore : node -> node -> node -> world -> outcome world exn unit;
  removeChild : node -> node -> world -> outcome world exn unit;
  extractContents : range -> world -> outcome world exn node;
  deleteContents : range -> world -> outcome world exn unit;
  insertNode : range -> option node -> world -> outcome world exn unit;
  selectNodeContents : range -> option node -> world -> outcome world exn unit;
  setStart : range -> option node -> nat -> world -> outcome world exn unit;
  setStartAfter : range -> option node -> world -> outcome world exn unit;
  collapse : range -> bool -> world -> outcome world exn unit;
  removeAllRanges : world -> outcome world exn unit;
  addRange : range -> world -> outcome world exn unit;
  execCommand : jsstring -> option jsstring -> world -> outcome world exn bool
}.

(** ** The editor: component state *)

Inductive direction : Type := ltr | rtl.
Inductive alignment : Type := align_left | align_right.

Record FormattingState : Type := {
  bold : bool;
  italic : bool;
  underline : bool;
  strikeThrough : bool;
  alignLeft : bool;
  alignCenter : bool;
  alignRight : bool;
  orderedList : bool;
  unorderedList : bool
}.

Definition noFormatting : FormattingState :=
  {| bold := false; italic := false; underline := false;
     strikeThrough := false; alignLeft := false; alignCenter := false;
     alignRight := false; orderedList := false; unorderedList := false |}.

(** The properties of the component that the commands read. *)
Record TextEditorProps : Type := {
  disabled : bool;
  linkUrlHandler : option (jsstring -> jsstring);
  imageUrlHandler : option (jsstring -> jsstring)
}.

(** The state a command runs in: the host, the reference to the editable
    element, the state variables of the component, the two inline style
    properties that [handleChange] writes on the editable element, the
    values passed to [onChange] so far, and the console. *)
Record Editor (node world : Type) : Type := {
  host : world;
  editorRef : option node;
  showLinkDropdown : bool;
  showImageDropdown : bool;
  linkUrl : jsstring;
  linkText : jsstring;
  imageUrl : jsstring;
  imageAlt : jsstring;
  textDirection : direction;
  editorIsEmpty : bool;
  formattingState : FormattingState;
  surface_direction : option direction;
  surface_textAlign : option alignment;
  emitted : list jsstring;
  console : list jsstring
}.

Arguments host {node world} _.
Arguments editorRef {node world} _.
Arguments showLinkDropdown {node world} _.
Arguments showImageDropdown {node world} _.
Arguments linkUrl {node world} _.
Arguments linkText {node world} _.
Arguments imageUrl {node world} _.
Arguments imageAlt {node world} _.
Arguments textDirection {node world} _.
Arguments editorIsEmpty {node world} _.
Arguments formattingState {node world} _.
Arguments surface_direction {node world} _.
Arguments surface_textAlign {node world} _.
Arguments emitted {node world} _.
Arguments console {node world} _.

Section EditorState.

Context {node world : Type}.

Definition with_host (s : Editor node world) (w : world) : Editor node world :=
  {| host := w; editorRef := editorRef s;
     showLinkDropdown := showLinkDropdown s;
     showImageDropdown := showImageDropdown s;
     linkUrl := linkUrl s; linkText := linkText s;
     imageUrl := imageUrl s; imageAlt := imageAlt s;
     textDirection := textDirection s; editorIsEmpty := editorIsEmpty s;
     formattingState := formattingState s;
     surface_direction := surface_direction s;
     surface_textAlign := surface_textAlign s;
     emitted := emitted s; console := console s |}.

Definition with_direction (s : Editor node world) (d : direction) (a : alignment)
  : Editor node world :=
  {| host := host s; editorRef := editorRef s;
     showLinkDropdown := showLinkDropdown s;
     showImageDropdown := showImageDropdown s;
     linkUrl := linkUrl s; linkText := linkText s;
     imageUrl := imageUrl s; imageAlt := imageAlt s;
     textDirection := d; editorIsEmpty := editorIsEmpty s;
     formattingState := formattingState s;
     surface_direction := Some d;
     surface_textAlign := Some a;
     emitted := emitted s; console := console s |}.

Definition with_change (s : Editor node world) (content : jsstring) (empty : bool)
  : Editor node world :=
  {| host := host s; editorRef := editorRef s;
     showLinkDropdown := showLinkDropdown s;
     showImageDropdown := showImageDropdown s;
     linkUrl := linkUrl s; linkText := linkText s;
     imageUrl := imageUrl s; imageAlt := imageAlt s;
     textDirection := textDirection s; editorIsEmpty := empty;
     formattingState := formattingState s;
     surface_direction := surface_direction s;
     surface_textAlign := surface_textAlign s;
     emitted := emitted s ++ [content]; console := console s |}.

Definition with_formatting (s : Editor node world) (f : FormattingState)
  : Editor node world :=
  {| host := host s; editorRef := editorRef s;
     showLinkDropdown := showLinkDropdown s;
     showImageDropdown := showImageDropdown s;
     linkUrl := linkUrl s; linkText := linkText s;
     imageUrl := imageUrl s; imageAlt := imageAlt s;
     textDirection := textDirection s; editorIsEmpty := editorIsEmpty s;
     formattingState := f;
     surface_direction := surface_direction s;
     surface_textAlign := surface_textAlign s;
     emitted := emitted s; console := console s |}.

(** [setShowLinkDropdown(false); setLinkUrl(""); setLinkText("")] *)
Definition close_link_form (s : Editor node world) : Editor node world :=
  {| host := host s; editorRef := editorRef s;
     showLinkDropdown := false;
     showImageDropdown := showImageDropdown s;
     linkUrl := []; linkText := [];
     imageUrl := imageUrl s; imageAlt := imageAlt s;
     textDirection := textDirection s; editorIsEmpty := editorIsEmpty s;
     formattingState := formattingState s;
     surface_direction := surface_direction s;
     surface_textAlign := surface_textAlign s;
     emitted := emitted s; console := console s |}.

(** [setShowImageDropdown(false); setImageUrl(""); setImageAlt("")] *)
Definition close_image_form (s : Editor node world) : Editor node world :=
  {| host := host s; editorRef := editorRef s;
     showLinkDropdown := showLinkDropdown s;
     showImageDropdown := false;
     linkUrl := linkUrl s; linkText := linkText s;
     imageUrl := []; imageAlt := [];
     textDirection := textDirection s; editorIsEmpty := editorIsEmpty s;
     formattingState := formattingState s;
     surface_direction := surface_direction s;
     surface_textAlign := surface_textAlign s;
     emitted := emitted s; console := console s |}.

(** [setEditorIsEmpty(empty)] *)
Definition with_empty (s : Editor node world) (empty : bool) : Editor node world :=
  {| host := host s; editorRef := editorRef s;
     showLinkDropdown := showLinkDropdown s;
     showImageDropdown := showImageDropdown s;
     linkUrl := linkUrl s; linkText := linkText s;
     imageUrl := imageUrl s; imageAlt := imageAlt s;
     textDirection := textDirection s; editorIsEmpty := empty;
     formattingState := formattingState s;
     surface_direction := surface_direction s;
     surface_textAlign := surface_textAlign s;
     emitted := emitted s; console := console s |}.

End EditorState.

(** ** The editor: commands *)

Declare Scope cmd_scope.
Delimit Scope cmd_scope with cmd.

Section TextEditor.

Context {R : Runtime}.
Context {node range world exn : Type} {H : Host node range world exn}.

Definition state : Type := Editor node world.

(** A command: a function of the state that answers an [outcome]. *)
Definition M (A : Type) : Type := state -> outcome state exn A.

Definition ret {A : Type} (a : A) : M A := fun s => Val a s.

Definition bind {A B : Type} (m : M A) (k : A -> M B) : M B :=
  fun s =>
    match m s with
    | Val a s' => k a s'
    | Exc e s' => Exc e s'
    | Undef => Undef
    end.

Definition undef {A : Type} : M A := fun _ => Undef.

(** [try { body } catch { handler }] *)
Definition try_catch {A : Type} (body handler : M A) : M A :=
  fun s =>
    match body s with
    | Exc _ s' => handler s'
    | r => r
    end.

(** A property of the host, read. *)
Definition read {A : Type} (f : world -> A) : M A := fun s => Val (f (host s)) s.

(** A method of the host, called. *)
Definition call {A : Type} (f : world -> outcome world exn A) : M A :=
  fun s =>
    match f (host s) with
    | Val a w => Val a (with_host s w)
    | Exc e w => Exc e (with_host s w)
    | Undef => Undef
    end.

Definition get : M state := fun s => Val s s.

Definition update (f : state -> state) : M unit := fun s => Val tt (f s).

Notation "x <- m ;; k" := (bind m (fun x => k))
  (at level 61, m at next level, right associativity) : cmd_scope.
Notation "m ;; k" := (bind m (fun _ => k))
  (at level 61, right associativity) : cmd_scope.

Local Open Scope cmd_scope.

Definition parentNode (w : world) (n : node) : option node := hd_error (ancestors w n).

Definition parentElement (w : world) (n : node) : option node :=
  match parentNode w n with
  | Some p => if isElement w p then Some p else None
  | None => None
  end.

Definition firstChild (w : world) (n : node) : option node := hd_error (childNodes w n).

(** [x?.m()] on the selection: nothing happens when it is null. *)
Definition on_selection (sel : option (list range)) (m : M unit) : M unit :=
  match sel with
  | Some _ => m
  | None => ret tt
  end.

Definition handleChange : M unit :=
  s <- get ;;
  match editorRef s with
  | Some editor =>
      text <- read (fun w => textContent w editor) ;;
      content <- read (fun w => innerHTML w editor) ;;
      (if arabicRegex_test text
       then update (fun s => with_direction s rtl align_right)
       else update (fun s => with_direction s ltr align_left)) ;;
      update (fun s => with_change s content (jsstring_eqb (trim text) []))
  | None => ret tt
  end.

(** One round of the loop of [updateFormattingState] on [currentNode]. *)
Definition mark (w : world) (currentNode : node) (f : FormattingState)
  : FormattingState :=
  if isElement w currentNode then
    let tag := toLowerCase (tagName w currentNode) in
    let tag_is t := jsstring_eqb tag t in
    let aligned v := jsstring_eqb (style_textAlign w currentNode) v in
    {| bold := bold f || tag_is (js "strong") || tag_is (js "b");
       italic := italic f || tag_is (js "em") || tag_is (js "i");
       underline := underline f || tag_is (js "u");
       strikeThrough := strikeThrough f || tag_is (js "s") || tag_is (js "strike");
       alignLeft := alignLeft f || aligned (js "left");
       alignCenter := alignCenter f || aligned (js "center");
       alignRight := alignRight f || aligned (js "right");
       orderedList := orderedList f || tag_is (js "ol");
       unorderedList := unorderedList f || tag_is (js "ul") |}
  else f.

(** The loop over [currentNode], then its parent, and so on, up to the
    editable element, which is not visited. *)
Fixpoint walk (w : world) (editor : node) (chain : list node) (f : FormattingState)
  : FormattingState :=
  match chain with
  | [] => f
  | currentNode :: rest =>
      if node_eqb currentNode editor then f
      else walk w editor rest (mark w currentNode f)
  end.

Definition updateFormattingState : M unit :=
  s <- get ;;
  match editorRef s with
  | Some editor =>
      selection <- read getSelection ;;
      match selection with
      | Some (_ :: _) =>
          anchor <- read anchorNode ;;
          w <- read (fun w => w) ;;
          let f :=
            match anchor with
            | Some a => walk w editor (a :: ancestors w a) noFormatting
            | None => noFormatting
            end in
          update (fun s => with_formatting s f)
      | _ => ret tt
      end
  | None => ret tt
  end.

(** [while (parentElement.firstChild) parent.insertBefore(parentElement.firstChild, parentElement)] *)
Fixpoint move_children (fuel : nat) (parentElement parent : node) : M unit :=
  child <- read (fun w => firstChild w parentElement) ;;
  match child with
  | None => ret tt
  | Some c =>
      match fuel with
      | O => undef
      | S fuel' =>
          call (insertBefore parent c parentElement) ;;
          move_children fuel' parentElement parent
      end
  end.

Definition zwsp : jsstring := js "&#8203;".

Definition wrapSelectionWithTag (tag : jsstring) : M unit :=
  s <- get ;;
  match editorRef s with
  | None => ret tt
  | Some editor =>
      selection <- read getSelection ;;
      match selection with
      | Some (range :: _) =>
          container <- read (fun w => commonAncestorContainer w range) ;;
          inside <- read (fun w => contains w editor container) ;;
          if inside then
            parentElement_ <- read (fun w => parentElement w container) ;;
            matches <- read (fun w =>
              match parentElement_ with
              | Some pe =>
                  jsstring_eqb (toLowerCase (tagName w pe)) (toLowerCase tag)
              | None => false
              end) ;;
            (match parentElement_, matches with
             | Some pe, true =>
                 parent <- read (fun w => parentNode w pe) ;;
                 match parent with
                 | Some parent =>
                     n <- read (fun w => List.length (childNodes w pe)) ;;
                     move_children n pe parent ;;
                     call (removeChild parent pe)
                 | None => ret tt
                 end
             | _, _ =>
                 isCollapsed <- read (fun w => collapsed w range) ;;
                 if negb isCollapsed then
                   newNode <- call (createElement tag) ;;
                   contents <- call (extractContents range) ;;
                   call (appendChild newNode contents) ;;
                   call (insertNode range (Some newNode)) ;;
                   call removeAllRanges ;;
                   newRange <- call createRange ;;
                   call (selectNodeContents newRange (Some newNode)) ;;
                   call (addRange newRange)
                 else
                   newNode <- call (createElement tag) ;;
                   call (set_innerHTML newNode zwsp) ;;
                   call (insertNode range (Some newNode)) ;;
                   newRange <- call createRange ;;
                   call (selectNodeContents newRange (Some newNode)) ;;
                   call (collapse newRange true) ;;
                   call removeAllRanges ;;
                   call (addRange newRange)
             end) ;;
            handleChange ;;
            updateFormattingState
          else ret tt
      | _ =>
          call (focus editor) ;;
          newNode <- call (createElement tag) ;;
          call (set_innerHTML newNode zwsp) ;;
          call (appendChild editor newNode) ;;
          newRange <- call createRange ;;
          newSelection <- read getSelection ;;
          call (selectNodeContents newRange (Some newNode)) ;;
          call (collapse newRange true) ;;
          on_selection newSelection (call removeAllRanges) ;;
          on_selection newSelection (call (addRange newRange)) ;;
          handleChange ;;
          updateFormattingState
      end
  end.

Definition toggleBold : M unit := wrapSelectionWithTag (js "strong").
Definition toggleItalic : M unit := wrapSelectionWithTag (js "em").
Definition toggleUnderline : M unit := wrapSelectionWithTag (js "u").
Definition toggleStrikethrough : M unit := wrapSelectionWithTag (js "s").

(** The block the source repeats wherever an empty document is given
    something to act on: the content is replaced and its first child
    selected, collapsed to its start when [toStart] is set. *)
Definition seed (editor : node) (html : jsstring) (toStart : bool) : M unit :=
  call (set_innerHTML editor html) ;;
  range_ <- call createRange ;;
  selection <- read getSelection ;;
  first <- read (fun w => firstChild w editor) ;;
  call (selectNodeContents range_ first) ;;
  (if toStart then call (collapse range_ true) else ret tt) ;;
  on_selection selection (call removeAllRanges) ;;
  on_selection selection (call (addRange range_)).

Definition isList (command : jsstring) : bool :=
  jsstring_eqb command (js "insertOrderedList") ||
  jsstring_eqb command (js "insertUnorderedList").

Definition applyFormat (p : TextEditorProps) (command : jsstring) (value : option jsstring)
  : M unit :=
  if disabled p then ret tt else
  s <- get ;;
  match editorRef s with
  | None => ret tt
  | Some editor =>
      call (focus editor) ;;
      html <- read (fun w => innerHTML w editor) ;;
      (if startsWith command (js "justify") && jsstring_eqb (trim html) []
       then seed editor (js "<div><br></div>") true
       else ret tt) ;;
      html' <- read (fun w => innerHTML w editor) ;;
      (if isList command && jsstring_eqb (trim html') []
       then seed editor (js "<div>List item</div>") false
       else ret tt) ;;
      call (execCommand command value) ;;
      handleChange ;;
      updateFormattingState
  end.

Definition capitalize (s : jsstring) : jsstring :=
  toUpperCase (firstn 1 s) ++ skipn 1 s.

Definition applyAlignment (p : TextEditorProps) (alignment : jsstring) : M unit :=
  applyFormat p (js "justify" ++ capitalize alignment) None.

Definition toggleList (p : TextEditorProps) (listType : jsstring) : M unit :=
  applyFormat p listType None.

(** [useCallback(() => applyFormat("undo"), [])], and the same for redo:
    the callback of the first render is kept, so [first] is the properties
    of that render, not the current ones. *)
Definition undo (first : TextEditorProps) : M unit :=
  applyFormat first (js "undo") None.
Definition redo (first : TextEditorProps) : M unit :=
  applyFormat first (js "redo") None.

Definition linkHTML (processedUrl text : jsstring) : jsstring :=
  js "<a href=" ++ dq ++ processedUrl ++ dq ++
  js " style=" ++ dq ++ js "color: #3b82f6; text-decoration: underline;" ++ dq ++
  js " target=" ++ dq ++ js "_blank" ++ dq ++
  js " rel=" ++ dq ++ js "noopener noreferrer" ++ dq ++ js ">" ++
  text ++ js "</a>".

Definition imgHTML (processedUrl alt : jsstring) : jsstring :=
  js "<img src=" ++ dq ++ processedUrl ++ dq ++
  js " alt=" ++ dq ++ (match alt with [] => js "Image" | _ => alt end) ++ dq ++
  js " style=" ++ dq ++
  js "max-width: 100%; height: auto; border-radius: 8px; margin: 10px 0; display: block;" ++
  dq ++ js " />".

(** The body of the [try] block of [insertLink] and of [insertImage]: the
    markup replaces the selection when its common ancestor is inside the
    editable element, and is appended to it otherwise. *)
Definition insertAtSelection (editor : node) (html : jsstring) : M unit :=
  selection <- read getSelection ;;
  match selection with
  | Some (range_ :: _) =>
      container <- read (fun w => commonAncestorContainer w range_) ;;
      inside <- read (fun w => contains w editor container) ;;
      if inside then
        call (deleteContents range_) ;;
        tempDiv <- call (createElement (js "div")) ;;
        call (set_innerHTML tempDiv html) ;;
        element <- read (fun w => firstChild w tempDiv) ;;
        call (insertNode range_ element) ;;
        call (setStartAfter range_ element) ;;
        call (collapse range_ true) ;;
        call removeAllRanges ;;
        call (addRange range_)
      else call (insertAdjacentHTML_beforeend editor html)
  | _ => call (insertAdjacentHTML_beforeend editor html)
  end.

Definition insertLink (p : TextEditorProps) : M unit :=
  s <- get ;;
  match linkUrl s, linkText s, editorRef s with
  | _ :: _, _ :: _, Some editor =>
      let processedUrl :=
        match linkUrlHandler p with
        | Some h => h (linkUrl s)
        | None => linkUrl s
        end in
      call (focus editor) ;;
      let html := linkHTML processedUrl (linkText s) in
      try_catch (insertAtSelection editor html)
                (call (insertAdjacentHTML_beforeend editor html)) ;;
      update close_link_form ;;
      handleChange
  | _, _, _ => ret tt
  end.

Definition insertImage (p : TextEditorProps) : M unit :=
  s <- get ;;
  match imageUrl s, editorRef s with
  | _ :: _, Some editor =>
      let processedUrl :=
        match imageUrlHandler p with
        | Some h => h (imageUrl s)
        | None => imageUrl s
        end in
      call (focus editor) ;;
      let html := imgHTML processedUrl (imageAlt s) in
      try_catch (insertAtSelection editor html)
                (call (insertAdjacentHTML_beforeend editor html)) ;;
      update close_image_form ;;
      handleChange
  | _, _ => ret tt
  end.

Definition styleBlockquote (blockquoteElement : node) : M unit :=
  call (set_style blockquoteElement (js "borderLeft") (js "4px solid #3b82f6")) ;;
  call (set_style blockquoteElement (js "paddingLeft") (js "16px")) ;;
  call (set_style blockquoteElement (js "margin") (js "16px 0")) ;;
  call (set_style blockquoteElement (js "fontStyle") (js "italic")) ;;
  call (set_style blockquoteElement (js "color") (js "#6b7280")).

Definition insertBlockquote : M unit :=
  s <- get ;;
  match editorRef s with
  | None => ret tt
  | Some editor =>
      selection <- read getSelection ;;
      match selection with
      | Some (range_ :: _) =>
          container <- read (fun w => commonAncestorContainer w range_) ;;
          inside <- read (fun w => contains w editor container) ;;
          if inside then
            blockquoteElement <- call (createElement (js "blockquote")) ;;
            styleBlockquote blockquoteElement ;;
            isCollapsed <- read (fun w => collapsed w range_) ;;
            (if negb isCollapsed then
               contents <- call (extractContents range_) ;;
               call (appendChild blockquoteElement contents)
             else call (set_innerHTML blockquoteElement (js "Quote text here..."))) ;;
            call (deleteContents range_) ;;
            call (insertNode range_ (Some blockquoteElement)) ;;
            call removeAllRanges ;;
            newRange <- call createRange ;;
            call (selectNodeContents newRange (Some blockquoteElement)) ;;
            call (addRange newRange) ;;
            handleChange
          else ret tt
      | _ =>
          call (focus editor) ;;
          blockquoteElement <- call (createElement (js "blockquote")) ;;
          styleBlockquote blockquoteElement ;;
          call (set_innerHTML blockquoteElement (js "Quote text here...")) ;;
          call (appendChild editor blockquoteElement) ;;
          newRange <- call createRange ;;
          newSelection <- read getSelection ;;
          call (selectNodeContents newRange (Some blockquoteElement)) ;;
          on_selection newSelection (call removeAllRanges) ;;
          on_selection newSelection (call (addRange newRange)) ;;
          handleChange
      end
  end.

Definition stylePre (preElement : node) : M unit :=
  call (set_style preElement (js "backgroundColor") (js "#f3f4f6")) ;;
  call (set_style preElement (js "padding") (js "12px")) ;;
  call (set_style preElement (js "borderRadius") (js "6px")) ;;
  call (set_style preElement (js "overflow") (js "auto")).

Definition insertCodeBlock : M unit :=
  s <- get ;;
  selection <- read getSelection ;;
  match selection with
  | Some (range_ :: _) =>
      match editorRef s with
      | Some editor =>
          container <- read (fun w => commonAncestorContainer w range_) ;;
          inside <- read (fun w => contains w editor container) ;;
          if inside then
            codeElement <- call (createElement (js "code")) ;;
            contents <- call (extractContents range_) ;;
            call (appendChild codeElement contents) ;;
            preElement <- call (createElement (js "pre")) ;;
            stylePre preElement ;;
            call (appendChild preElement codeElement) ;;
            call (deleteContents range_) ;;
            call (insertNode range_ (Some preElement)) ;;
            call removeAllRanges ;;
            newRange <- call createRange ;;
            call (selectNodeContents newRange (Some preElement)) ;;
            call (addRange newRange) ;;
            handleChange ;;
            updateFormattingState
          else ret tt
      | None => ret tt
      end
  | _ =>
      preElement <- call (createElement (js "pre")) ;;
      stylePre preElement ;;
      codeElement <- call (createElement (js "code")) ;;
      call (set_innerHTML codeElement (js "<br>")) ;;
      call (appendChild preElement codeElement) ;;
      match editorRef s with
      | Some editor =>
          range_ <- call createRange ;;
          sel <- read getSelection ;;
          (match sel with
           | Some (_ :: _) =>
               a <- read anchorNode ;;
               off <- read anchorOffset ;;
               call (setStart range_ a off)
           | _ =>
               n <- read (fun w => List.length (childNodes w editor)) ;;
               call (setStart range_ (Some editor) n)
           end) ;;
          call (collapse range_ true) ;;
          call (insertNode range_ (Some preElement)) ;;
          call (setStart range_ (Some codeElement) 0) ;;
          call (collapse range_ true) ;;
          on_selection sel (call removeAllRanges) ;;
          on_selection sel (call (addRange range_)) ;;
          handleChange ;;
          updateFormattingState
      | None => ret tt
      end
  end.

(** [changeFontSize], [changeFontColor] and [changeBackgroundColor] differ
    in the command only. *)
Definition changeWith (p : TextEditorProps) (command value : jsstring) : M unit :=
  s <- get ;;
  match editorRef s with
  | None => ret tt
  | Some editor =>
      call (focus editor) ;;
      html <- read (fun w => innerHTML w editor) ;;
      (if jsstring_eqb (trim html) []
       then seed editor (js "<span>Text</span>") false
       else ret tt) ;;
      applyFormat p command (Some value)
  end.

Definition changeFontSize (p : TextEditorProps) (size : jsstring) : M unit :=
  changeWith p (js "fontSize") size.

Definition changeFontColor (p : TextEditorProps) (color_ : jsstring) : M unit :=
  changeWith p (js "foreColor") color_.

Definition changeBackgroundColor (p : TextEditorProps) (color_ : jsstring) : M unit :=
  changeWith p (js "hiliteColor") color_.

Definition handlePaste (pastedText : jsstring) : M unit :=
  call (execCommand (js "insertText") (Some pastedText)) ;;
  ret tt.

(** The part of [insertLink] and of [insertImage] from [focus()] on;
    [close] resets the form. *)
Definition guarded_insert
  (editor : node) (html : jsstring) (close : state -> state) : M unit :=
  call (focus editor) ;;
  try_catch (insertAtSelection editor html)
            (call (insertAdjacentHTML_beforeend editor html)) ;;
  update close ;;
  handleChange.

Definition keeps_frame (close : state -> state) : Prop :=
  forall s, host (close s) = host s /\ editorRef (close s) = editorRef s /\
            console (close s) = console s /\ emitted (close s) = emitted s.

(** A command that changes nothing but the host. *)
Definition host_only {A : Type} (m : M A) : Prop :=
  forall s,
    match m s with
    | Val _ s' | Exc _ s' => s' = with_host s (host s')
    | Undef => True
    end.

(** A command that leaves the console as it found it. *)
Definition quiet {A : Type} (m : M A) : Prop :=
  forall s,
    match m s with
    | Val _ s' | Exc _ s' => console s' = console s
    | Undef => True
    end.

(** The effect that follows the [value] property: the document is
    replaced when the property differs from its markup. *)
Definition syncValue (value : jsstring) : M unit :=
  s <- get ;;
  match editorRef s with
  | Some editor =>
      html <- read (fun w => innerHTML w editor) ;;
      if negb (jsstring_eqb value html) then
        call (set_innerHTML editor value) ;;
        text <- read (fun w => textContent w editor) ;;
        update (fun s => with_empty s (jsstring_eqb (trim text) []))
      else ret tt
  | None => ret tt
  end.

(** The nodes of [chain] that come before the editable element. *)
Fixpoint below (editor : node) (chain : list node) : list node :=
  match chain with
  | [] => []
  | n :: rest => if node_eqb n editor then [] else n :: below editor rest
  end.

(** An element of [path] whose tag, in lower case, is one of [tags]. *)
Definition has_tag (w : world) (path : list node) (tags : list jsstring) : bool :=
  existsb (fun n => isElement w n &&
                    existsb (jsstring_eqb (toLowerCase (tagName w n))) tags) path.

(** An element of [path] whose inline [text-align] is [v]. *)
Definition has_align (w : world) (path : list node) (v : jsstring) : bool :=
  existsb (fun n => isElement w n && jsstring_eqb (style_textAlign w n) v) path.

(** The formatting that the elements of [path] show. *)
Definition flags_of (w : world) (path : list node) : FormattingState :=
  {| bold := has_tag w path [js "strong"; js "b"];
     italic := has_tag w path [js "em"; js "i"];
     underline := has_tag w path [js "u"];
     strikeThrough := has_tag w path [js "s"; js "strike"];
     alignLeft := has_align w path (js "left");
     alignCenter := has_align w path (js "center");
     alignRight := has_align w path (js "right");
     orderedList := has_tag w path [js "ol"];
     unorderedList := has_tag w path [js "ul"] |}.

Definition flags_or (f g : FormattingState) : FormattingState :=
  {| bold := bold f || bold g;
     italic := italic f || italic g;
     underline := underline f || underline g;
     strikeThrough := strikeThrough f || strikeThrough g;
     alignLeft := alignLeft f || alignLeft g;
     alignCenter := alignCenter f || alignCenter g;
     alignRight := alignRight f || alignRight g;
     orderedList := orderedList f || orderedList g;
     unorderedList := unorderedList f || unorderedList g |}.

End TextEditor.

Arguments M : clear implicits.
Arguments state : clear implicits.

Notation "x <- m ;; k" := (bind m (fun x => k))
  (at level 61, m at next level, right associativity) : cmd_scope.
Notation "m ;; k" := (bind m (fun _ => k))
  (at level 61, right associativity) : cmd_scope.

(** ** A host for exercising the control flow

    It keeps the content of the editable element as markup and as text,
    knows of each range whether it lies inside the editable element, and
    can be set to throw on every mutation through a range.  Node 0 is the
    editable element, node 1 its first child, node 2 a node elsewhere in
    the page; the nodes from 3 on are created ones.  What it cannot
    represent (the tree operations, an edit through a range that does not
    throw) gives no answer. *)

Inductive StubError : Type := InvalidStateError | TypeError.

Record Stub : Type := {
  stub_html : jsstring;
  stub_text : jsstring;
  stub_selection : option (list nat);
  stub_inside : list nat;
  stub_collapsed : bool;
  stub_next : nat;
  stub_broken : bool
}.

(** The text of markup made of tags and plain characters. *)
Fixpoint plain_text (in_tag : bool) (s : jsstring) : jsstring :=
  match s with
  | [] => []
  | c :: s' =>
      if in_tag then plain_text (negb (N.eqb c 62)) s'
      else if N.eqb c 60 then plain_text true s'
      else c :: plain_text false s'
  end.

Definition stub_is_inside (w : Stub) (r : nat) : bool :=
  existsb (Nat.eqb r) (stub_inside w).

Definition stub_set_content (w : Stub) (html text : jsstring) : Stub :=
  {| stub_html := html; stub_text := text;
     stub_selection := stub_selection w; stub_inside := stub_inside w;
     stub_collapsed := stub_collapsed w; stub_next := stub_next w;
     stub_broken := stub_broken w |}.

Definition stub_fresh (w : Stub) : Stub :=
  {| stub_html := stub_html w; stub_text := stub_text w;
     stub_selection := stub_selection w; stub_inside := stub_inside w;
     stub_collapsed := stub_collapsed w; stub_next := S (stub_next w);
     stub_broken := stub_broken w |}.

Definition stub_set_selection (w : Stub) (sel : option (list nat)) : Stub :=
  {| stub_html := stub_html w; stub_text := stub_text w;
     stub_selection := sel; stub_inside := stub_inside w;
     stub_collapsed := stub_collapsed w; stub_next := stub_next w;
     stub_broken := stub_broken w |}.

(** The range [r] is moved to node [n]. *)
Definition stub_place (w : Stub) (r n : nat) : Stub :=
  let others := List.filter (fun x => negb (Nat.eqb x r)) (stub_inside w) in
  {| stub_html := stub_html w; stub_text := stub_text w;
     stub_selection := stub_selection w;
     stub_inside := if Nat.leb n 1 then r :: others else others;
     stub_collapsed := stub_collapsed w; stub_next := stub_next w;
     stub_broken := stub_broken w |}.

Definition stub_range_edit {A : Type} (w : Stub) : outcome Stub StubError A :=
  if stub_broken w then Exc InvalidStateError w else Undef.

Definition stub_on_node (r : nat) (n : option nat) (w : Stub)
  : outcome Stub StubError unit :=
  match n with
  | Some n => Val tt (stub_place w r n)
  | None => Exc TypeError w
  end.

#[export] Instance stubHost : Host nat nat Stub StubError := {|
  node_eqb := Nat.eqb;
  getSelection := stub_selection;
  anchorNode := fun w =>
    match stub_selection w with
    | Some (r :: _) => Some (if stub_is_inside w r then 1%nat else 2%nat)
    | _ => None
    end;
  anchorOffset := fun _ => 0%nat;
  commonAncestorContainer := fun w r => if stub_is_inside w r then 1%nat else 2%nat;
  collapsed := fun w _ => stub_collapsed w;
  contains := fun _ a b => Nat.eqb a b || (Nat.eqb a 0 && Nat.eqb b 1);
  ancestors := fun _ n => match n with 1%nat => [0%nat] | _ => [] end;
  childNodes := fun w n =>
    match n, stub_html w with
    | O, _ :: _ => [1%nat]
    | _, _ => []
    end;
  isElement := fun _ _ => true;
  tagName := fun _ _ => js "DIV";
  style_textAlign := fun _ _ => [];
  innerHTML := fun w n => match n with O => stub_html w | _ => [] end;
  textContent := fun w n => match n with O => stub_text w | _ => [] end;
  focus := fun _ w => Val tt w;
  createElement := fun _ w => Val (3 + stub_next w)%nat (stub_fresh w);
  createRange := fun w => Val (stub_next w) (stub_fresh w);
  set_innerHTML := fun n html w =>
    match n with
    | O => Val tt (stub_set_content w html (plain_text false html))
    | _ => Val tt w
    end;
  set_style := fun _ _ _ w => Val tt w;
  insertAdjacentHTML_beforeend := fun n html w =>
    match n with
    | O => Val tt (stub_set_content w (stub_html w ++ html)
                     (stub_text w ++ plain_text false html))
    | _ => Val tt w
    end;
  appendChild := fun _ _ _ => Undef;
  insertBefore := fun _ _ _ _ => Undef;
  removeChild := fun _ _ _ => Undef;
  extractContents := fun _ w => stub_range_edit w;
  deleteContents := fun _ w => stub_range_edit w;
  insertNode := fun _ _ w => stub_range_edit w;
  selectNodeContents := stub_on_node;
  setStart := fun r n _ w => stub_on_node r n w;
  setStartAfter := stub_on_node;
  collapse := fun _ _ w => Val tt w;
  removeAllRanges := fun w =>
    Val tt (stub_set_selection w
              (match stub_selection w with Some _ => Some [] | None => None end));
  addRange := fun r w =>
    Val tt (match stub_selection w with
            | Some [] => stub_set_selection w (Some [r])
            | _ => w
            end);
  execCommand := fun _ _ w => Val false w
|}.

Definition stub_editor (w : Stub) (url text : string) : Editor nat Stub :=
  {| host := w; editorRef := Some 0%nat;
     showLinkDropdown := true; showImageDropdown := false;
     linkUrl := js url; linkText := js text;
     imageUrl := []; imageAlt := [];
     textDirection := ltr; editorIsEmpty := false;
     formattingState := noFormatting;
     surface_direction := None; surface_textAlign := None;
     emitted := []; console := [] |}.

Definition stub_props : TextEditorProps :=
  {| disabled := false; linkUrlHandler := None; imageUrlHandler := None |}.

(** A document "Hello" with the selection inside it, on a host whose range
    throws. *)
Definition ex_broken : Editor nat Stub :=
  stub_editor
    {| stub_html := js "Hello"; stub_text := js "Hello";
       stub_selection := Some [0%nat]; stub_inside := [0%nat];
       stub_collapsed := false; stub_next := 1; stub_broken := true |}
    "https://example.com" "Example".

(** An empty document, the selection being elsewhere in the page. *)
Definition ex_outside : Editor nat Stub :=
  stub_editor
    {| stub_html := []; stub_text := [];
       stub_selection := Some [0%nat]; stub_inside := [];
       stub_collapsed := false; stub_next := 1; stub_broken := false |}
    "https://example.com" "Example".

(** The image form filled in, on an empty document with the selection
    elsewhere in the page. *)
Definition ex_image : Editor nat Stub :=
  {| host := host ex_outside; editorRef := Some 0%nat;
     showLinkDropdown := false; showImageDropdown := true;
     linkUrl := []; linkText := [];
     imageUrl := js "https://example.com/a.png"; imageAlt := [];
     textDirection := ltr; editorIsEmpty := true;
     formattingState := noFormatting;
     surface_direction := None; surface_textAlign := None;
     emitted := []; console := [] |}.

(** A document with Arabic text. *)
Definition ex_arabic : Editor nat Stub :=
  stub_editor
    {| stub_html := [1587; 1604; 1575; 1605]%N;
       stub_text := [1587; 1604; 1575; 1605]%N;
       stub_selection := Some [0%nat]; stub_inside := [0%nat];
       stub_collapsed := true; stub_next := 1; stub_broken := false |}
    "" "".

(** ** A document tree with live ranges

    The part of the DOM that the toggle-wrap command works on: element,
    text and fragment nodes with an identity, detached subtrees, ranges
    that the mutations keep up to date, and the selection.  The methods
    follow the algorithms of the DOM Standard ("insert", "remove", the
    live-range steps, "extract", "insert a node into a range", "select the
    contents") on the cases written out below; a case or a method that is
    left out answers [Undef].  Markup is parsed for the literals that the
    editor itself writes. *)

#[local] Set Warnings "-register-all".

Inductive tree : Type :=
| Text (i : nat) (data : jsstring)
| Elem (i : nat) (tag : jsstring) (attrs : list (jsstring * jsstring)) (ks : list tree)
| Frag (i : nat) (ks : list tree).

Definition nid (t : tree) : nat :=
  match t with Text i _ | Elem i _ _ _ | Frag i _ => i end.

Definition kids (t : tree) : list tree :=
  match t with Text _ _ => [] | Elem _ _ _ ks | Frag _ ks => ks end.

Definition set_kids (ks : list tree) (t : tree) : tree :=
  match t with
  | Text _ _ => t
  | Elem i g a _ => Elem i g a ks
  | Frag i _ => Frag i ks
  end.

(** The length of a node: code units of a text, children otherwise. *)
Definition node_length (t : tree) : nat :=
  match t with
  | Text _ d => List.length d
  | _ => List.length (kids t)
  end.

Fixpoint first_some {A B : Type} (f : A -> option B) (l : list A) : option B :=
  match l with
  | [] => None
  | a :: l' => match f a with Some b => Some b | None => first_some f l' end
  end.

(** The ids of a subtree, in tree order. *)
Fixpoint ids (t : tree) : list nat :=
  match t with
  | Text i _ => [i]
  | Elem i _ _ ks => i :: flat_map ids ks
  | Frag i ks => i :: flat_map ids ks
  end.

(** The subtree with id [n]. *)
Fixpoint subtree (n : nat) (t : tree) : option tree :=
  match t with
  | Text i _ => if Nat.eqb i n then Some t else None
  | Elem i _ _ ks => if Nat.eqb i n then Some t else first_some (subtree n) ks
  | Frag i ks => if Nat.eqb i n then Some t else first_some (subtree n) ks
  end.

(** The proper ancestors of [n] in [t], nearest first. *)
Fixpoint path (n : nat) (t : tree) : option (list nat) :=
  match t with
  | Text i _ => if Nat.eqb i n then Some [] else None
  | Elem i _ _ ks =>
      if Nat.eqb i n then Some [] else
      match first_some (path n) ks with
      | Some l => Some (l ++ [i])
      | None => None
      end
  | Frag i ks =>
      if Nat.eqb i n then Some [] else
      match first_some (path n) ks with
      | Some l => Some (l ++ [i])
      | None => None
      end
  end.

(** [f] applied to the node with id [n]. *)
Fixpoint at_node (n : nat) (f : tree -> tree) (t : tree) : tree :=
  match t with
  | Text i _ => if Nat.eqb i n then f t else t
  | Elem i g a ks =>
      if Nat.eqb i n then f t else Elem i g a (List.map (at_node n f) ks)
  | Frag i ks =>
      if Nat.eqb i n then f t else Frag i (List.map (at_node n f) ks)
  end.

(** The position of the child with id [c]. *)
Fixpoint index_of (c : nat) (ks : list tree) : option nat :=
  match ks with
  | [] => None
  | k :: ks' =>
      if Nat.eqb (nid k) c then Some O
      else match index_of c ks' with Some i => Some (S i) | None => None end
  end.

Fixpoint remove_kid (c : nat) (ks : list tree) : list tree :=
  match ks with
  | [] => []
  | k :: ks' => if Nat.eqb (nid k) c then ks' else k :: remove_kid c ks'
  end.

Definition insert_at (i : nat) (new : list tree) (ks : list tree) : list tree :=
  firstn i ks ++ new ++ skipn i ks.

Record boundary : Type := { b_node : nat; b_off : nat }.

Definition boundary_eqb (a b : boundary) : bool :=
  Nat.eqb (b_node a) (b_node b) && Nat.eqb (b_off a) (b_off b).

Record Dom : Type := {
  document : tree;
  detached : list tree;
  ranges : list (nat * (boundary * boundary));
  selected : option nat;
  next_id : nat
}.

Inductive DomError : Type :=
| HierarchyRequestError
| NotFoundError
| DomTypeError.

Definition forest (w : Dom) : list tree := document w :: detached w.

Definition dom_find (w : Dom) (n : nat) : option tree :=
  first_some (subtree n) (forest w).

Definition dom_ancestors (w : Dom) (n : nat) : list nat :=
  match first_some (path n) (forest w) with
  | Some l => l
  | None => []
  end.

Definition dom_parent (w : Dom) (n : nat) : option nat := hd_error (dom_ancestors w n).

(** [a] is [b] or one of its ancestors. *)
Definition dom_contains (w : Dom) (a b : nat) : bool :=
  Nat.eqb a b || existsb (Nat.eqb a) (dom_ancestors w b).

Definition in_document (w : Dom) (n : nat) : bool :=
  match path n (document w) with Some _ => true | None => false end.

Definition dom_range (w : Dom) (r : nat) : option (boundary * boundary) :=
  match List.find (fun x => Nat.eqb (fst x) r) (ranges w) with
  | Some x => Some (snd x)
  | None => None
  end.

Definition with_trees (w : Dom) (d : tree) (ds : list tree) : Dom :=
  {| document := d; detached := ds; ranges := ranges w;
     selected := selected w; next_id := next_id w |}.

Definition with_ranges (w : Dom) (rs : list (nat * (boundary * boundary))) : Dom :=
  {| document := document w; detached := detached w; ranges := rs;
     selected := selected w; next_id := next_id w |}.

Definition with_selected (w : Dom) (sel : option nat) : Dom :=
  {| document := document w; detached := detached w; ranges := ranges w;
     selected := sel; next_id := next_id w |}.

Definition dom_update (w : Dom) (n : nat) (f : tree -> tree) : Dom :=
  with_trees w (at_node n f (document w)) (List.map (at_node n f) (detached w)).

(** Every boundary point of every live range is passed through [f]. *)
Definition move_boundaries (w : Dom) (f : boundary -> boundary) : Dom :=
  with_ranges w
    (List.map (fun x => (fst x, (f (fst (snd x)), f (snd (snd x))))) (ranges w)).

Definition set_range (w : Dom) (r : nat) (b : boundary * boundary) : Dom :=
  with_ranges w
    (List.map (fun x => if Nat.eqb (fst x) r then (r, b) else x) (ranges w)).

Definition mem (n : nat) (l : list nat) : bool := existsb (Nat.eqb n) l.

(** "Remove" of the children [i] to [j-1] of [p], one after the other, each
    at index [i].  A boundary point in a removed subtree moves to [(p, i)];
    an offset in [p] beyond [i] goes down by one for each removal, and not
    below [i].  The removed subtrees are handed to [k]. *)
Definition take_children (w : Dom) (p i j : nat) : option (list tree * Dom) :=
  match dom_find w p with
  | Some t =>
      let gone := firstn (j - i) (skipn i (kids t)) in
      let gone_ids := flat_map ids gone in
      let w1 :=
        dom_update w p (set_kids (firstn i (kids t) ++ skipn j (kids t))) in
      let w2 :=
        move_boundaries w1 (fun b =>
          if mem (b_node b) gone_ids then {| b_node := p; b_off := i |}
          else if Nat.eqb (b_node b) p then
            {| b_node := p;
               b_off := if Nat.leb (b_off b) i then b_off b
                        else Nat.max i (b_off b - List.length gone) |}
          else b) in
      Some (gone, w2)
  | None => None
  end.

(** "Insert" of the subtrees [new], which are in no tree, into [p] before
    its child at index [i]: an offset in [p] beyond [i] goes up by their
    number. *)
Definition put_children (w : Dom) (p i : nat) (new : list tree) : Dom :=
  let w1 := dom_update w p (fun t => set_kids (insert_at i new (kids t)) t) in
  move_boundaries w1 (fun b =>
    if Nat.eqb (b_node b) p && Nat.ltb i (b_off b)
    then {| b_node := p; b_off := b_off b + List.length new |}
    else b).

Definition drop_root (n : nat) (w : Dom) : Dom :=
  with_trees w (document w) (remove_kid n (detached w)).

Definition add_root (t : tree) (w : Dom) : Dom :=
  with_trees w (document w) (detached w ++ [t]).

Definition fresh (w : Dom) : Dom :=
  {| document := document w; detached := detached w; ranges := ranges w;
     selected := selected w; next_id := S (next_id w) |}.

(** The node [c] leaves its parent, if it has one, and ends as a root
    outside the document. *)
Definition dom_detach (w : Dom) (c : nat) : option Dom :=
  match dom_parent w c with
  | Some p =>
      match dom_find w p with
      | Some t =>
          match index_of c (kids t) with
          | Some i =>
              match take_children w p i (S i) with
              | Some (gone, w') =>
                  Some (with_trees w' (document w') (detached w' ++ gone))
              | None => None
              end
          | None => None
          end
      | None => None
      end
  | None => Some w
  end.

(** The root [c] outside the document becomes the child of [p] at index [i]. *)
Definition dom_attach (w : Dom) (p i c : nat) : option Dom :=
  match first_some (fun t => if Nat.eqb (nid t) c then Some t else None) (detached w) with
  | Some t => Some (put_children (drop_root c w) p i [t])
  | None => None
  end.

Definition is_container (t : tree) : bool :=
  match t with Text _ _ => false | _ => true end.

Definition is_fragment (t : tree) : bool :=
  match t with Frag _ _ => true | _ => false end.

(** [parent.insertBefore(node, child)] and [parent.appendChild(node)] for a
    [node] that is not a fragment: "pre-insert", that is the hierarchy
    tests, then "remove" of [node] from where it is and "insert". *)
Definition dom_insertBefore (parent nd : nat) (child : option nat) (w : Dom)
  : outcome Dom DomError unit :=
  match dom_find w parent, dom_find w nd with
  | Some pt, Some nt =>
      if negb (is_container pt) || dom_contains w nd parent
      then Exc HierarchyRequestError w
      else
        match nt with
        | Frag _ _ => Undef
        | _ =>
            let inside :=
              match child with
              | Some c => match dom_parent w c with
                          | Some q => Nat.eqb q parent
                          | None => false
                          end
              | None => true
              end in
            if negb inside then Exc NotFoundError w
            else if (match child with Some c => Nat.eqb c nd | None => false end)
            then Undef
            else
              match dom_detach w nd with
              | Some w1 =>
                  match dom_find w1 parent with
                  | Some pt1 =>
                      let i :=
                        match child with
                        | Some c =>
                            match index_of c (kids pt1) with
                            | Some i => i
                            | None => List.length (kids pt1)
                            end
                        | None => List.length (kids pt1)
                        end in
                      match dom_attach w1 parent i nd with
                      | Some w2 => Val tt w2
                      | None => Undef
                      end
                  | None => Undef
                  end
              | None => Undef
              end
        end
  | _, _ => Undef
  end.

(** [parent.appendChild(node)]; a fragment hands over its children. *)
Definition dom_appendChild (parent nd : nat) (w : Dom) : outcome Dom DomError unit :=
  match dom_find w parent, dom_find w nd with
  | Some pt, Some (Frag _ fks) =>
      if negb (is_container pt) || dom_contains w nd parent
      then Exc HierarchyRequestError w
      else
        match take_children w nd 0 (List.length fks) with
        | Some (gone, w1) =>
            Val tt (put_children w1 parent (List.length (kids pt)) gone)
        | None => Undef
        end
  | _, _ => dom_insertBefore parent nd None w
  end.

Definition dom_removeChild (parent child : nat) (w : Dom) : outcome Dom DomError unit :=
  match dom_parent w child with
  | Some q =>
      if Nat.eqb q parent then
        match dom_detach w child with
        | Some w' => Val tt w'
        | None => Undef
        end
      else Exc NotFoundError w
  | None => Exc NotFoundError w
  end.

(** [range.extractContents()] when the range is collapsed or begins and
    ends in one element or fragment. *)
Definition dom_extractContents (r : nat) (w : Dom) : outcome Dom DomError nat :=
  match dom_range w r with
  | Some (s, e) =>
      let f := next_id w in
      let w0 := fresh w in
      if boundary_eqb s e then Val f (add_root (Frag f []) w0)
      else if Nat.eqb (b_node s) (b_node e) then
        match dom_find w0 (b_node s) with
        | Some (Text _ _) => Undef
        | Some _ =>
            match take_children w0 (b_node s) (b_off s) (b_off e) with
            | Some (gone, w1) =>
                Val f (set_range (add_root (Frag f gone) w1) r (s, s))
            | None => Undef
            end
        | None => Undef
        end
      else Undef
  | None => Undef
  end.

(** "Split" of the text node [n] at [off]: the tail becomes a new text node
    after it; the boundary points in the tail follow it, and an offset in
    the parent just after [n] goes up by one. *)
Definition split_text (w : Dom) (n p off : nat) (d : jsstring) : option (nat * Dom) :=
  match dom_find w p with
  | Some pt =>
      match index_of n (kids pt) with
      | Some i =>
          let m := next_id w in
          let w1 := dom_update (fresh w) n (fun _ => Text n (firstn off d)) in
          let w2 :=
            dom_update w1 p (fun t =>
              set_kids (insert_at (S i) [Text m (skipn off d)] (kids t)) t) in
          let w3 :=
            move_boundaries w2 (fun b =>
              if Nat.eqb (b_node b) n && Nat.ltb off (b_off b)
              then {| b_node := m; b_off := b_off b - off |}
              else if Nat.eqb (b_node b) p && Nat.ltb (S i) (b_off b)
              then {| b_node := p; b_off := S (b_off b) |}
              else b) in
          Some (m, w3)
      | None => None
      end
  | None => None
  end.

(** [range.insertNode(node)] for a [node] that is in no tree and is not a
    fragment. *)
Definition dom_insertNode (r : nat) (nd : option nat) (w : Dom)
  : outcome Dom DomError unit :=
  match nd, dom_range w r with
  | None, _ => Exc DomTypeError w
  | Some nd, Some (s, e) =>
      match dom_find w (b_node s), dom_find w nd, dom_parent w nd with
      | Some st, Some nt, None =>
          if Nat.eqb (b_node s) nd then Exc HierarchyRequestError w
          else
            match nt with
            | Frag _ _ => Undef
            | _ =>
                match st with
                | Text _ d =>
                    match dom_parent w (b_node s) with
                    | None => Exc HierarchyRequestError w
                    | Some p =>
                        if dom_contains w nd p then Exc HierarchyRequestError w
                        else
                          match split_text w (b_node s) p (b_off s) d with
                          | Some (m, w1) =>
                              match dom_find w1 p with
                              | Some pt =>
                                  match index_of m (kids pt) with
                                  | Some i =>
                                      match dom_attach w1 p i nd with
                                      | Some w2 =>
                                          Val tt
                                            (if boundary_eqb s e
                                             then set_range w2 r
                                                    (s, {| b_node := p; b_off := S i |})
                                             else w2)
                                      | None => Undef
                                      end
                                  | None => Undef
                                  end
                              | None => Undef
                              end
                          | None => Undef
                          end
                    end
                | _ =>
                    if dom_contains w nd (b_node s) then Exc HierarchyRequestError w
                    else
                      let i := Nat.min (b_off s) (List.length (kids st)) in
                      match dom_attach w (b_node s) i nd with
                      | Some w2 =>
                          Val tt
                            (if boundary_eqb s e
                             then set_range w2 r
                                    (s, {| b_node := b_node s; b_off := S i |})
                             else w2)
                      | None => Undef
                      end
                end
            end
      | _, _, _ => Undef
      end
  | _, None => Undef
  end.

Definition dom_selectNodeContents (r : nat) (nd : option nat) (w : Dom)
  : outcome Dom DomError unit :=
  match nd with
  | None => Exc DomTypeError w
  | Some n =>
      match dom_find w n with
      | Some t =>
          Val tt (set_range w r ({| b_node := n; b_off := 0 |},
                                 {| b_node := n; b_off := node_length t |}))
      | None => Undef
      end
  end.

Definition dom_collapse (r : nat) (toStart : bool) (w : Dom)
  : outcome Dom DomError unit :=
  match dom_range w r with
  | Some (s, e) => Val tt (set_range w r (if toStart then (s, s) else (e, e)))
  | None => Undef
  end.

(** [selection.addRange(range)]: nothing happens when the selection has a
    range already or [range] is not in the document. *)
Definition dom_addRange (r : nat) (w : Dom) : outcome Dom DomError unit :=
  match dom_range w r, selected w with
  | Some (s, _), None =>
      Val tt (if in_document w (b_node s) then with_selected w (Some r) else w)
  | Some _, Some _ => Val tt w
  | None, _ => Undef
  end.

(** The first node of [s], [s]'s parent, ... that is [e] or above it. *)
Definition dom_commonAncestor (w : Dom) (s e : nat) : nat :=
  match List.find (fun c => dom_contains w c e) (s :: dom_ancestors w s) with
  | Some c => c
  | None => s
  end.

(** The markup the editor writes, parsed: the children get the ids from
    [n] on. *)
Definition parse_known (html : jsstring) (n : nat) : option (list tree) :=
  if jsstring_eqb html (js "&#8203;") then Some [Text n [8203%N]]
  else if jsstring_eqb html (js "<br>") then Some [Elem n (js "br") [] []]
  else if jsstring_eqb html (js "Quote text here...")
  then Some [Text n (js "Quote text here...")]
  else if jsstring_eqb html (js "<div><br></div>")
  then Some [Elem n (js "div") [] [Elem (S n) (js "br") [] []]]
  else if jsstring_eqb html (js "<span>Text</span>")
  then Some [Elem n (js "span") [] [Text (S n) (js "Text")]]
  else if jsstring_eqb html (js "<div>List item</div>")
  then Some [Elem n (js "div") [] [Text (S n) (js "List item")]]
  else if jsstring_eqb html (js "<div>Heading text</div>")
  then Some [Elem n (js "div") [] [Text (S n) (js "Heading text")]]
  else None.

(** [node.innerHTML = html]: "replace all" of the children by the parsed
    ones; the boundary points at or below the node go to its start. *)
Definition dom_set_innerHTML (nd : nat) (html : jsstring) (w : Dom)
  : outcome Dom DomError unit :=
  match dom_find w nd, parse_known html (next_id w) with
  | Some t, Some new =>
      match take_children w nd 0 (List.length (kids t)) with
      | Some (gone, w1) =>
          let w2 := with_trees w1 (document w1) (detached w1 ++ gone) in
          let w3 := put_children w2 nd 0 new in
          Val tt {| document := document w3; detached := detached w3;
                    ranges := ranges w3; selected := selected w3;
                    next_id := next_id w3 + List.length (flat_map ids new) |}
      | None => Undef
      end
  | _, _ => Undef
  end.

Definition dom_insertAdjacentHTML (nd : nat) (html : jsstring) (w : Dom)
  : outcome Dom DomError unit :=
  match dom_find w nd, parse_known html (next_id w) with
  | Some t, Some new =>
      let w3 := put_children w nd (List.length (kids t)) new in
      Val tt {| document := document w3; detached := detached w3;
                ranges := ranges w3; selected := selected w3;
                next_id := next_id w3 + List.length (flat_map ids new) |}
  | _, _ => Undef
  end.

(** Serialization of the children of a node ([innerHTML]). *)
Definition void_tags : list jsstring :=
  List.map js ["area"; "base"; "br"; "col"; "embed"; "hr"; "img"; "input";
               "link"; "meta"; "source"; "track"; "wbr"]%string.

Definition raw_text_tags : list jsstring :=
  List.map js ["style"; "script"; "xmp"; "iframe"; "noembed"; "noframes";
               "plaintext"]%string.

Definition escape (in_attribute : bool) (s : jsstring) : jsstring :=
  flat_map (fun c =>
    if N.eqb c 38 then js "&amp;"
    else if N.eqb c 160 then js "&nbsp;"
    else if in_attribute then (if N.eqb c 34 then js "&quot;" else [c])
    else if N.eqb c 60 then js "&lt;"
    else if N.eqb c 62 then js "&gt;"
    else [c]) s.

Definition serialize_attrs (a : list (jsstring * jsstring)) : jsstring :=
  flat_map (fun x => js " " ++ fst x ++ js "=" ++ dq ++ escape true (snd x) ++ dq) a.

Fixpoint serialize (raw : bool) (t : tree) : jsstring :=
  match t with
  | Text _ d => if raw then d else escape false d
  | Elem _ g a ks =>
      js "<" ++ g ++ serialize_attrs a ++ js ">" ++
      (if existsb (jsstring_eqb g) void_tags then []
       else flat_map (serialize (existsb (jsstring_eqb g) raw_text_tags)) ks ++
            js "</" ++ g ++ js ">")
  | Frag _ ks => flat_map (serialize false) ks
  end.

Definition inner (t : tree) : jsstring :=
  match t with
  | Elem _ g _ ks => flat_map (serialize (existsb (jsstring_eqb g) raw_text_tags)) ks
  | _ => flat_map (serialize false) (kids t)
  end.

Fixpoint text_of (t : tree) : jsstring :=
  match t with
  | Text _ d => d
  | Elem _ _ _ ks => flat_map text_of ks
  | Frag _ ks => flat_map text_of ks
  end.

Definition attr (name : jsstring) (t : tree) : option jsstring :=
  match t with
  | Elem _ _ a _ =>
      match List.find (fun x => jsstring_eqb (fst x) name) a with
      | Some x => Some (snd x)
      | None => None
      end
  | _ => None
  end.

#[export] Instance domHost : Host nat nat Dom DomError := {|
  node_eqb := Nat.eqb;
  getSelection := fun w =>
    Some (match selected w with Some r => [r] | None => [] end);
  anchorNode := fun w =>
    match selected w with
    | Some r => match dom_range w r with
                | Some (s, _) => Some (b_node s)
                | None => None
                end
    | None => None
    end;
  anchorOffset := fun w =>
    match selected w with
    | Some r => match dom_range w r with
                | Some (s, _) => b_off s
                | None => O
                end
    | None => O
    end;
  commonAncestorContainer := fun w r =>
    match dom_range w r with
    | Some (s, e) => dom_commonAncestor w (b_node s) (b_node e)
    | None => nid (document w)
    end;
  collapsed := fun w r =>
    match dom_range w r with
    | Some (s, e) => boundary_eqb s e
    | None => true
    end;
  contains := dom_contains;
  ancestors := dom_ancestors;
  childNodes := fun w n =>
    match dom_find w n with
    | Some t => List.map nid (kids t)
    | None => []
    end;
  isElement := fun w n =>
    match dom_find w n with
    | Some (Elem _ _ _ _) => true
    | _ => false
    end;
  tagName := fun w n =>
    match dom_find w n with
    | Some (Elem _ g _ _) => List.map upper_ascii g
    | _ => []
    end;
  style_textAlign := fun _ _ => [];
  innerHTML := fun w n =>
    match dom_find w n with
    | Some t => inner t
    | None => []
    end;
  textContent := fun w n =>
    match dom_find w n with
    | Some t => text_of t
    | None => []
    end;
  focus := fun _ _ => Undef;
  createElement := fun g w =>
    Val (next_id w)
        (add_root (Elem (next_id w) (List.map lower_ascii g) [] []) (fresh w));
  createRange := fun w =>
    let r := List.length (ranges w) in
    let b := {| b_node := nid (document w); b_off := 0 |} in
    Val r (with_ranges w (ranges w ++ [(r, (b, b))]));
  set_innerHTML := dom_set_innerHTML;
  set_style := fun _ _ _ _ => Undef;
  insertAdjacentHTML_beforeend := dom_insertAdjacentHTML;
  appendChild := dom_appendChild;
  insertBefore := fun p n c => dom_insertBefore p n (Some c);
  removeChild := dom_removeChild;
  extractContents := dom_extractContents;
  deleteContents := fun _ _ => Undef;
  insertNode := dom_insertNode;
  selectNodeContents := dom_selectNodeContents;
  setStart := fun _ _ _ _ => Undef;
  setStartAfter := fun _ _ _ => Undef;
  collapse := dom_collapse;
  removeAllRanges := fun w => Val tt (with_selected w None);
  addRange := dom_addRange;
  execCommand := fun _ _ _ => Undef
|}.

(** ** Where a node sits in the document *)

(** One level of the path to a node: the element above it, with the
    siblings to its left and to its right. *)
Record frame : Type := {
  f_id : nat;
  f_tag : jsstring;
  f_attrs : list (jsstring * jsstring);
  f_left : list tree;
  f_right : list tree
}.

Definition fill (fr : frame) (x : tree) : tree :=
  Elem (f_id fr) (f_tag fr) (f_attrs fr) (f_left fr ++ x :: f_right fr).

(** The tree around [x]; the frames go from the parent of [x] outwards. *)
Fixpoint plug (C : list frame) (x : tree) : tree :=
  match C with
  | [] => x
  | fr :: C' => plug C' (fill fr x)
  end.

Definition frame_ids (fr : frame) : list nat :=
  f_id fr :: flat_map ids (f_left fr) ++ flat_map ids (f_right fr).

Definition context_ids (C : list frame) : list nat := flat_map frame_ids C.

(** The frame [fr] with [moved] added at the end of its left siblings. *)
Definition grown (fr : frame) (moved : list tree) : frame :=
  {| f_id := f_id fr; f_tag := f_tag fr; f_attrs := f_attrs fr;
     f_left := f_left fr ++ moved; f_right := f_right fr |}.

(** The node [x] sits in the document of [w] under the frames [C]; the ids
    of the nodes are pairwise different and below the next id, and the
    ids of the ranges are below their number. *)
Definition sits (w : Dom) (C : list frame) (x : tree) : Prop :=
  document w = plug C x /\
  NoDup (ids x ++ context_ids C ++ flat_map ids (detached w)) /\
  (forall n, In n (ids x ++ context_ids C ++ flat_map ids (detached w)) ->
             (n < next_id w)%nat) /\
  (forall r, In r (ranges w) -> (fst r < List.length (ranges w))%nat).

Definition range_ids (w : Dom) : list nat := List.map fst (ranges w).

(** The trees and the id counter of a world. *)
Definition shaped (w : Dom) (d : tree) (dl : list tree) (n : nat) : Prop :=
  document w = d /\ detached w = dl /\ next_id w = n.

Inductive toggle : Type := Bold | Italic | Underline | Strikethrough.

Definition toggle_tag (k : toggle) : jsstring :=
  match k with
  | Bold => js "strong"
  | Italic => js "em"
  | Underline => js "u"
  | Strikethrough => js "s"
  end.

Definition toggle_command {R : Runtime} {node range world exn : Type}
  {H : Host node range world exn} (k : toggle) : M node world exn unit :=
  match k with
  | Bold => toggleBold
  | Italic => toggleItalic
  | Underline => toggleUnderline
  | Strikethrough => toggleStrikethrough
  end.

(** The editable element 1 inside a wrapper, holding one bold span. *)
Definition ex_bold_doc : tree :=
  Elem 0 (js "div") []
    [Elem 1 (js "div") [] [Elem 2 (js "strong") [] [Text 3 (js "abc")]]].

Definition dom_editor (s e : boundary) : Editor nat Dom :=
  {| host := {| document := ex_bold_doc; detached := [];
                ranges := [(0%nat, (s, e))]; selected := Some 0%nat;
                next_id := 4 |};
     editorRef := Some 1%nat;
     showLinkDropdown := false; showImageDropdown := false;
     linkUrl := []; linkText := []; imageUrl := []; imageAlt := [];
     textDirection := ltr; editorIsEmpty := false;
     formattingState := noFormatting;
     surface_direction := None; surface_textAlign := None;
     emitted := []; console := [] |}.

(** The selection runs through the text "abc" of the span. *)
Definition ex_text_selected : Editor nat Dom :=
  dom_editor {| b_node := 3; b_off := 0 |} {| b_node := 3; b_off := 3 |}.

(** The selection is the content of the span element. *)
Definition ex_span_selected : Editor nat Dom :=
  dom_editor {| b_node := 2; b_off := 0 |} {| b_node := 2; b_off := 1 |}.

(** The caret is in the editable element, behind the span. *)
Definition ex_caret : Editor nat Dom :=
  dom_editor {| b_node := 1; b_off := 1 |} {| b_node := 1; b_off := 1 |}.

(** A range that the removal of the children of [n] leaves where it is. *)
Definition untouched (n : nat) (gone : list tree) (b : boundary) : Prop :=
  b_node b <> n /\ ~ In (b_node b) (flat_map ids gone).

(** * Properties *)

(** ** Parsing of well-formed times *)

Lemma digit_not_colon (c : N) : is_digit c = true -> N.eqb c colon = false.
Proof.
  unfold is_digit, colon. intros H.
  apply andb_true_iff in H. destruct H as [H1 H2].
  apply N.leb_le in H1. apply N.leb_le in H2.
  apply N.eqb_neq. lia.
Qed.

Lemma two_digits_inv (a b : N) (v : Z) :
  two_digits a b = Some v ->
  is_digit a = true /\ is_digit b = true /\ v = 10 * digit_val a + digit_val b.
Proof.
  unfold two_digits. intros H.
  destruct (is_digit a) eqn:Ha; destruct (is_digit b) eqn:Hb;
    simpl in H; try discriminate.
  injection H as <-. auto.
Qed.

Lemma digit_val_range (c : N) : is_digit c = true -> 0 <= digit_val c <= 9.
Proof.
  unfold is_digit, digit_val. intros H.
  apply andb_true_iff in H. destruct H as [H1 H2].
  apply N.leb_le in H1. apply N.leb_le in H2. lia.
Qed.

Lemma two_digits_Number {R : Runtime} (a b : N) (v : Z) :
  two_digits a b = Some v -> Number [a; b] = of_Z v.
Proof.
  intros H. apply two_digits_inv in H. destruct H as (Ha & Hb & ->).
  rewrite Number_digits.
  - reflexivity.
  - discriminate.
  - simpl. lia.
  - simpl. rewrite Ha, Hb. reflexivity.
Qed.

(** The shape of a string that [time_fields] accepts. *)
Lemma time_fields_inv (s : jsstring) (h m sec : Z) :
  time_fields s = Some (h, m, sec) ->
  exists h1 h2 m1 m2 rest,
    s = h1 :: h2 :: colon :: m1 :: m2 :: rest /\
    two_digits h1 h2 = Some h /\ two_digits m1 m2 = Some m /\
    (rest = [] /\ sec = 0 \/
     exists s1 s2, rest = [colon; s1; s2] /\ two_digits s1 s2 = Some sec).
Proof.
  intros H.
  destruct s as [|h1 [|h2 [|c1 [|m1 [|m2 rest]]]]]; try discriminate.
  exists h1, h2, m1, m2, rest.
  destruct rest as [|c2 [|s1 [|s2 [|x rest]]]]; try discriminate;
    unfold time_fields in H;
    destruct (two_digits h1 h2) as [h'|] eqn:Hh; try discriminate;
    destruct (two_digits m1 m2) as [m'|] eqn:Hm; try discriminate.
  - destruct (N.eqb c1 colon) eqn:Hc; try discriminate.
    apply N.eqb_eq in Hc. injection H as -> -> <-. subst c1.
    repeat split; auto.
  - destruct (two_digits s1 s2) as [s'|] eqn:Hs; try discriminate.
    destruct (N.eqb c1 colon) eqn:Hc1; try discriminate.
    destruct (N.eqb c2 colon) eqn:Hc2; try discriminate.
    apply N.eqb_eq in Hc1. apply N.eqb_eq in Hc2.
    injection H as -> -> ->. subst c1 c2.
    repeat split; auto. right. exists s1, s2. auto.
Qed.

(** [time.split(":").map(Number)] starts with the hours and the minutes. *)
Lemma time_fields_parse {R : Runtime} (s : jsstring) (h m sec : Z) :
  time_fields s = Some (h, m, sec) ->
  item (List.map Number (split colon s)) 0 = of_Z h /\
  item (List.map Number (split colon s)) 1 = of_Z m.
Proof.
  intros H. apply time_fields_inv in H.
  destruct H as (h1 & h2 & m1 & m2 & rest & -> & Hh & Hm & Hrest).
  pose proof (two_digits_inv _ _ _ Hh) as (Dh1 & Dh2 & _).
  pose proof (two_digits_inv _ _ _ Hm) as (Dm1 & Dm2 & _).
  apply two_digits_Number in Hh. apply two_digits_Number in Hm.
  unfold split. cbn [split_go].
  rewrite (digit_not_colon _ Dh1), (digit_not_colon _ Dh2), N.eqb_refl.
  rewrite (digit_not_colon _ Dm1), (digit_not_colon _ Dm2).
  destruct Hrest as [[-> _] | (s1 & s2 & -> & _)]; cbn [split_go].
  - simpl. auto.
  - rewrite N.eqb_refl. simpl. auto.
Qed.

Lemma wf_time_fields (s : jsstring) :
  wf_time s = true ->
  exists h m sec, time_fields s = Some (h, m, sec) /\
                  0 <= h <= 99 /\ 0 <= m < 60 /\ 0 <= sec < 60.
Proof.
  unfold wf_time. intros H.
  destruct (time_fields s) as [[[h m] sec]|] eqn:E; try discriminate.
  exists h, m, sec. split; [reflexivity|].
  apply andb_true_iff in H. destruct H as [Hm Hs].
  apply Z.ltb_lt in Hm. apply Z.ltb_lt in Hs.
  apply time_fields_inv in E.
  destruct E as (h1 & h2 & m1 & m2 & rest & _ & Hh & Hm' & Hrest).
  apply two_digits_inv in Hh. destruct Hh as (A1 & A2 & ->).
  apply two_digits_inv in Hm'. destruct Hm' as (B1 & B2 & ->).
  apply digit_val_range in A1, A2, B1, B2.
  destruct Hrest as [[_ ->] | (s1 & s2 & _ & Hs')].
  - lia.
  - apply two_digits_inv in Hs'. destruct Hs' as (C1 & C2 & ->).
    apply digit_val_range in C1, C2. lia.
Qed.

(** The minute value the three functions compute from a well-formed string. *)
Lemma minutes_parse {R : Runtime} (s : jsstring) :
  wf_time s = true ->
  nadd (nmul (item (List.map Number (split colon s)) 0) (of_Z 60))
       (item (List.map Number (split colon s)) 1)
  = of_Z (minutes_of s).
Proof.
  intros H. apply wf_time_fields in H.
  destruct H as (h & m & sec & E & _).
  destruct (time_fields_parse _ _ _ _ E) as [-> ->].
  unfold minutes_of. rewrite E. unfold of_Z. simpl.
  rewrite <- inject_Z_mult, <- inject_Z_plus. reflexivity.
Qed.

Lemma nsub_of_Z (a b : Z) : nsub (of_Z a) (of_Z b) = of_Z (a - b).
Proof.
  unfold nsub, of_Z. simpl.
  rewrite <- inject_Z_opp, <- inject_Z_plus. reflexivity.
Qed.

Lemma nleb_of_Z (a b : Z) : nleb (of_Z a) (of_Z b) = (a <=? b).
Proof.
  unfold of_Z. simpl.
  destruct (Z.leb_spec a b) as [H|H].
  - apply Qle_bool_iff. rewrite <- Zle_Qle. exact H.
  - destruct (Qle_bool (inject_Z a) (inject_Z b)) eqn:E; [|reflexivity].
    apply Qle_bool_iff in E. rewrite <- Zle_Qle in E. lia.
Qed.

Lemma nltb_of_Z (a b : Z) : nltb (of_Z a) (of_Z b) = (a <? b).
Proof.
  change (nltb (of_Z a) (of_Z b)) with (negb (nleb (of_Z b) (of_Z a))).
  rewrite nleb_of_Z.
  destruct (Z.leb_spec b a); destruct (Z.ltb_spec a b); simpl; auto; lia.
Qed.

Lemma isTimeInRange_minutes {R : Runtime} (t s e : jsstring) :
  wf_time t = true -> wf_time s = true -> wf_time e = true ->
  isTimeInRange t s e =
  (minutes_of s <=? minutes_of t) && (minutes_of t <=? minutes_of e).
Proof.
  intros Ht Hs He. unfold isTimeInRange. cbv zeta.
  rewrite (minutes_parse t Ht), (minutes_parse s Hs), (minutes_parse e He).
  unfold ngeb. rewrite !nleb_of_Z. reflexivity.
Qed.

(** ** Visibility *)

Lemma renderDay_In {R : Runtime} (p : TimeTableProps) (d : DayDef) (b : EventBox) :
  In b (renderDay p d) <->
  exists ev, b = renderEvent p (dayEvents p d) ev /\
             In ev (dayEvents p d) /\ isEventVisible p ev = true.
Proof.
  unfold renderDay. cbv zeta. rewrite in_map_iff. split.
  - intros (ev & <- & Hin). apply filter_In in Hin. exists ev. tauto.
  - intros (ev & -> & Hin & Hv). exists ev. split; [reflexivity|].
    apply filter_In. tauto.
Qed.

Lemma renderDay_events {R : Runtime} (p : TimeTableProps) (d : DayDef) (ev : Schedule) :
  In ev (List.map box_event (renderDay p d)) <->
  In ev (dayEvents p d) /\ isEventVisible p ev = true.
Proof.
  rewrite in_map_iff. split.
  - intros (b & <- & Hb). apply renderDay_In in Hb.
    destruct Hb as (ev' & -> & Hin & Hv). simpl. auto.
  - intros [Hin Hv]. exists (renderEvent p (dayEvents p d) ev).
    split; [reflexivity|]. apply renderDay_In. exists ev. auto.
Qed.

Lemma isEventVisible_minutes {R : Runtime} (p : TimeTableProps) (ev : Schedule) :
  wf_time (startTime ev) = true -> wf_time (endTime ev) = true ->
  wf_time (window_start p) = true -> wf_time (window_end p) = true ->
  isEventVisible p ev = true <->
  (minutes_of (window_start p) <= minutes_of (startTime ev)
     <= minutes_of (window_end p) /\
   minutes_of (window_start p) <= minutes_of (endTime ev)
     <= minutes_of (window_end p)).
Proof.
  intros Hs He Hws Hwe. unfold isEventVisible.
  rewrite !isTimeInRange_minutes by assumption.
  rewrite !andb_true_iff, !Z.leb_le. tauto.
Qed.

(** C5. With well-formed times, an event is visible exactly when its start
    and its end minute both lie in the closed window, and a day column
    renders exactly its visible events.  An event that spans the window
    exactly is visible; one that ends a minute after the window is not
    rendered at all. *)
Theorem isEventVisible_window {R : Runtime} (p : TimeTableProps) (ev : Schedule) :
  wf_time (startTime ev) = true -> wf_time (endTime ev) = true ->
  wf_time (window_start p) = true -> wf_time (window_end p) = true ->
  let ws := minutes_of (window_start p) in
  let we := minutes_of (window_end p) in
  let s := minutes_of (startTime ev) in
  let e := minutes_of (endTime ev) in
  (isEventVisible p ev = true <-> ws <= s <= we /\ ws <= e <= we) /\
  (forall d, In ev (List.map box_event (renderDay p d)) <->
             In ev (dayEvents p d) /\ isEventVisible p ev = true) /\
  (s = ws -> e = we -> s <= e -> isEventVisible p ev = true) /\
  (e = we + 1 ->
   isEventVisible p ev = false /\
   forall d, ~ In ev (List.map box_event (renderDay p d))).
Proof.
  intros Hs He Hws Hwe ws we s e.
  pose proof (isEventVisible_minutes p ev Hs He Hws Hwe) as Hv.
  fold ws we s e in Hv.
  split; [exact Hv|]. split; [intro d; apply renderDay_events|]. split.
  - intros H1 H2 H3. apply Hv. lia.
  - intros H1.
    assert (Hf : isEventVisible p ev = false).
    { apply not_true_is_false. intros E. apply Hv in E. lia. }
    split; [exact Hf|]. intros d Hin. apply renderDay_events in Hin.
    destruct Hin as [_ Hin]. congruence.
Qed.

(** ** Position and height *)

Lemma ndiv_of_Z (a b : Z) :
  b <> 0 -> ndiv (of_Z a) (of_Z b) = Fin (inject_Z a / inject_Z b).
Proof.
  intros Hb. unfold ndiv, of_Z, Qsign.
  destruct (Qcompare_spec (inject_Z b) 0) as [H|H|H]; try reflexivity.
  exfalso. apply Hb. unfold Qeq in H. simpl in H. lia.
Qed.

Lemma timeToPosition_minutes {R : Runtime} (t s e : jsstring) :
  wf_time t = true -> wf_time s = true -> wf_time e = true ->
  timeToPosition t s e =
  nmul (ndiv (of_Z (minutes_of t - minutes_of s))
             (of_Z (minutes_of e - minutes_of s))) (of_Z 100).
Proof.
  intros Ht Hs He. unfold timeToPosition. cbv zeta.
  rewrite (minutes_parse t Ht), (minutes_parse s Hs), (minutes_parse e He).
  rewrite !nsub_of_Z. reflexivity.
Qed.

Lemma calculateHeight_minutes {R : Runtime} (a b s e : jsstring) :
  wf_time a = true -> wf_time b = true ->
  wf_time s = true -> wf_time e = true ->
  calculateHeight a b s e =
  nmul (ndiv (of_Z (minutes_of b - minutes_of a))
             (of_Z (minutes_of e - minutes_of s))) (of_Z 100).
Proof.
  intros Ha Hb Hs He. unfold calculateHeight. cbv zeta.
  rewrite (minutes_parse a Ha), (minutes_parse b Hb).
  rewrite (minutes_parse s Hs), (minutes_parse e He).
  rewrite !nsub_of_Z. reflexivity.
Qed.

Lemma Qle_bool_total (x y : Q) : Qle_bool x y = false -> Qle_bool y x = true.
Proof.
  intros H. apply Qle_bool_iff. apply Qlt_le_weak. apply Qnot_le_lt.
  intros C. apply Qle_bool_iff in C. congruence.
Qed.

Lemma Math_max_Fin (x y : Q) : num_eq (Math_max (Fin x) (Fin y)) (Fin (Qmax x y)).
Proof.
  simpl. destruct (Qle_bool x y) eqn:E; simpl.
  - apply Qle_bool_iff in E. symmetry. apply Q.max_r. exact E.
  - apply Qle_bool_total in E. apply Qle_bool_iff in E.
    symmetry. apply Q.max_l. exact E.
Qed.

(** C6. For a rendered event with well-formed times in a well-formed
    window, [top] is (start - windowStart) / (windowEnd - windowStart) * 100
    and the computed height is (end - start) / (windowEnd - windowStart) * 100
    on the minute values; the height applied is the larger of the computed
    height and 8 (compact) or 10 (normal). *)
Theorem position_mapping {R : Runtime} (p : TimeTableProps) (d : DayDef) (b : EventBox) :
  In b (renderDay p d) ->
  wf_time (startTime (box_event b)) = true ->
  wf_time (endTime (box_event b)) = true ->
  wf_time (window_start p) = true -> wf_time (window_end p) = true ->
  let ws := minutes_of (window_start p) in
  let we := minutes_of (window_end p) in
  let s := minutes_of (startTime (box_event b)) in
  let e := minutes_of (endTime (box_event b)) in
  let computed :=
    calculateHeight (startTime (box_event b)) (endTime (box_event b))
                    (window_start p) (window_end p) in
  box_top b = nmul (ndiv (of_Z (s - ws)) (of_Z (we - ws))) (of_Z 100) /\
  computed = nmul (ndiv (of_Z (e - s)) (of_Z (we - ws))) (of_Z 100) /\
  box_height b = Math_max computed (if compact p then of_Z 8 else of_Z 10) /\
  (ws <> we ->
   box_top b = Fin (inject_Z (s - ws) / inject_Z (we - ws) * inject_Z 100) /\
   computed = Fin (inject_Z (e - s) / inject_Z (we - ws) * inject_Z 100) /\
   num_eq (box_height b)
     (Fin (Qmax (inject_Z (e - s) / inject_Z (we - ws) * inject_Z 100)
                (if compact p then inject_Z 8 else inject_Z 10)))).
Proof.
  intros Hin. apply renderDay_In in Hin. destruct Hin as (ev & -> & _ & _).
  cbn [box_event renderEvent box_top box_height].
  intros Hs He Hws Hwe.
  pose proof (timeToPosition_minutes _ _ _ Hs Hws Hwe) as Ht.
  pose proof (calculateHeight_minutes _ _ _ _ Hs He Hws Hwe) as Hc.
  split; [exact Ht|]. split; [exact Hc|]. split; [reflexivity|].
  intros Hne.
  assert (Hd : minutes_of (window_end p) - minutes_of (window_start p) <> 0)
    by lia.
  rewrite Ht, Hc, !(ndiv_of_Z _ _ Hd).
  split; [reflexivity|]. split; [reflexivity|].
  unfold min_height. destruct (compact p); apply Math_max_Fin.
Qed.

(** C8. In a window with start before end: if A starts before it ends and
    ends no later than B starts (minute values), A's [top] is strictly
    below B's. *)
Theorem top_monotone {R : Runtime}
  (p : TimeTableProps) (evs : list Schedule) (A B : Schedule) :
  wf_time (startTime A) = true -> wf_time (endTime A) = true ->
  wf_time (startTime B) = true ->
  wf_time (window_start p) = true -> wf_time (window_end p) = true ->
  minutes_of (window_start p) < minutes_of (window_end p) ->
  minutes_of (startTime A) < minutes_of (endTime A) ->
  minutes_of (endTime A) <= minutes_of (startTime B) ->
  nltb (box_top (renderEvent p evs A)) (box_top (renderEvent p evs B)) = true.
Proof.
  intros HsA HeA HsB Hws Hwe Hw HA HAB.
  cbn [renderEvent box_top].
  rewrite !timeToPosition_minutes by assumption.
  set (ws := minutes_of (window_start p)) in *.
  set (we := minutes_of (window_end p)) in *.
  assert (Hd : we - ws <> 0) by lia.
  rewrite !(ndiv_of_Z _ _ Hd). cbn [nmul of_Z nltb].
  apply negb_true_iff.
  destruct (Qle_bool _ _) eqn:E; [|reflexivity].
  exfalso. apply Qle_bool_iff in E. revert E. apply Qlt_not_le.
  apply Qmult_lt_compat_r; [reflexivity|].
  unfold Qdiv. apply Qmult_lt_compat_r.
  - apply Qinv_lt_0_compat. change 0%Q with (inject_Z 0).
    rewrite <- Zlt_Qlt. lia.
  - rewrite <- Zlt_Qlt. lia.
Qed.

(** ** The height floor *)

Lemma Math_max_not_below (a : num) (q : Q) :
  nltb (Math_max a (Fin q)) (Fin q) = false.
Proof.
  destruct a as [| |x|]; simpl; try reflexivity.
  - apply negb_false_iff. apply Qle_bool_iff. apply Qle_refl.
  - destruct (Qle_bool x q) eqn:E; simpl; apply negb_false_iff.
    + apply Qle_bool_iff. apply Qle_refl.
    + apply Qle_bool_total. exact E.
Qed.

Lemma Math_max_not_negative (a : num) (q : Q) :
  (0 <= q)%Q -> nltb (Math_max a (Fin q)) (of_Z 0) = false.
Proof.
  intros Hq. destruct a as [| |x|]; simpl; try reflexivity.
  - apply negb_false_iff. apply Qle_bool_iff. exact Hq.
  - destruct (Qle_bool x q) eqn:E; simpl; apply negb_false_iff;
      apply Qle_bool_iff; [exact Hq|].
    apply Qle_bool_total in E. apply Qle_bool_iff in E.
    eapply Qle_trans; eauto.
Qed.

Lemma Math_max_floor (x q : Q) : nleb (Fin q) (Math_max (Fin x) (Fin q)) = true.
Proof.
  simpl. destruct (Qle_bool x q) eqn:E; simpl.
  - apply Qle_bool_iff. apply Qle_refl.
  - apply Qle_bool_total. exact E.
Qed.

Lemma Math_max_low (x q : Q) :
  (x <= q)%Q -> Math_max (Fin x) (Fin q) = Fin q.
Proof.
  intros H. simpl. apply Qle_bool_iff in H. rewrite H. reflexivity.
Qed.

Lemma Math_max_high (x q : Q) :
  (q < x)%Q -> Math_max (Fin x) (Fin q) = Fin x.
Proof.
  intros H. simpl. destruct (Qle_bool x q) eqn:E; [|reflexivity].
  apply Qle_bool_iff in E. exfalso. exact (Qlt_not_le _ _ H E).
Qed.

Lemma Qdiv_nonpos (a dq : Z) :
  a <= 0 -> 0 < dq -> (inject_Z a / inject_Z dq * inject_Z 100 <= 0)%Q.
Proof.
  intros Ha Hd.
  assert (Hdq : (0 < inject_Z dq)%Q).
  { change 0%Q with (inject_Z 0). rewrite <- Zlt_Qlt. exact Hd. }
  assert (Haq : (inject_Z a <= 0)%Q).
  { change 0%Q with (inject_Z 0). rewrite <- Zle_Qle. exact Ha. }
  assert (H0 : (inject_Z a / inject_Z dq <= 0)%Q).
  { apply Qle_shift_div_r; [exact Hdq|]. rewrite Qmult_0_l. exact Haq. }
  apply Qle_trans with (0 * inject_Z 100)%Q; [|discriminate].
  apply Qmult_le_compat_r; [exact H0|discriminate].
Qed.

(** C10. The height applied to a rendered event is the larger of the
    computed height and the floor, 8 in compact mode and 10 otherwise: it
    is the floor when the computed height is at most the floor, and the
    computed height when that is above the floor.  It is never below the
    floor and never negative, whatever the time strings are; with
    well-formed times in a window of positive or negative length the
    computed height is a number and the applied height at least the
    floor, and in a window of positive length an event that does not end
    after it starts gets exactly the floor. *)
Theorem rendered_height_floor {R : Runtime}
  (p : TimeTableProps) (d : DayDef) (b : EventBox) :
  In b (renderDay p d) ->
  let ev := box_event b in
  let computed :=
    calculateHeight (startTime ev) (endTime ev) (window_start p) (window_end p) in
  let floor := if compact p then of_Z 8 else of_Z 10 in
  let fq := if compact p then inject_Z 8 else inject_Z 10 in
  box_height b = Math_max computed floor /\
  (forall x, computed = Fin x ->
     ((x <= fq)%Q -> box_height b = floor) /\
     ((fq < x)%Q -> box_height b = computed)) /\
  nltb (box_height b) floor = false /\
  nltb (box_height b) (of_Z 0) = false /\
  (wf_time (startTime ev) = true -> wf_time (endTime ev) = true ->
   wf_time (window_start p) = true -> wf_time (window_end p) = true ->
   minutes_of (window_start p) <> minutes_of (window_end p) ->
   computed =
     Fin (inject_Z (minutes_of (endTime ev) - minutes_of (startTime ev)) /
          inject_Z (minutes_of (window_end p) - minutes_of (window_start p)) *
          inject_Z 100) /\
   nleb floor (box_height b) = true) /\
  (wf_time (startTime ev) = true -> wf_time (endTime ev) = true ->
   wf_time (window_start p) = true -> wf_time (window_end p) = true ->
   minutes_of (window_start p) < minutes_of (window_end p) ->
   minutes_of (endTime ev) <= minutes_of (startTime ev) ->
   box_height b = floor).
Proof.
  intros Hin. apply renderDay_In in Hin. destruct Hin as (ev & -> & _ & _).
  cbn [box_event renderEvent box_height]. cbv zeta.
  unfold min_height.
  split; [reflexivity|]. split; [|split; [|split; [|split]]].
  - intros x ->. unfold of_Z.
    destruct (compact p); split; intros Hx;
      (apply Math_max_low; exact Hx) || (apply Math_max_high; exact Hx).
  - destruct (compact p); apply Math_max_not_below.
  - destruct (compact p); apply Math_max_not_negative; discriminate.
  - intros Hs He Hws Hwe Hne.
    rewrite calculateHeight_minutes by assumption.
    rewrite ndiv_of_Z by lia. cbn [nmul of_Z].
    split; [reflexivity|].
    destruct (compact p); apply Math_max_floor.
  - intros Hs He Hws Hwe Hlt Hes.
    rewrite calculateHeight_minutes by assumption.
    rewrite ndiv_of_Z by lia. cbn [nmul of_Z]. unfold of_Z.
    destruct (compact p); apply Math_max_low;
      (eapply Qle_trans; [apply Qdiv_nonpos; lia|discriminate]).
Qed.

(** ** The order of the time strings *)

Lemma str_ltb_irrefl (a : jsstring) : str_ltb a a = false.
Proof.
  induction a as [|x a IH]; simpl; [reflexivity|].
  rewrite N.ltb_irrefl. exact IH.
Qed.

Lemma str_ltb_trans (a b c : jsstring) :
  str_ltb a b = true -> str_ltb b c = true -> str_ltb a c = true.
Proof.
  revert b c. induction a as [|x a IH]; intros [|y b] [|z c]; simpl;
    try congruence.
  destruct (N.ltb_spec x y) as [Hxy|Hxy].
  - intros _. destruct (N.ltb_spec y z); [|destruct (N.ltb_spec z y)];
      try congruence; intros _.
    + destruct (N.ltb_spec x z); [reflexivity|lia].
    + destruct (N.ltb_spec x z); [reflexivity|lia].
  - destruct (N.ltb_spec y x); [congruence|]. intros Hab.
    destruct (N.ltb_spec y z); [|destruct (N.ltb_spec z y)];
      try congruence; intros Hbc.
    + destruct (N.ltb_spec x z); [reflexivity|lia].
    + destruct (N.ltb_spec x z); [reflexivity|].
      destruct (N.ltb_spec z x); [lia|]. eapply IH; eauto.
Qed.

Lemma str_ltb_total (a b : jsstring) :
  str_ltb a b = true \/ a = b \/ str_ltb b a = true.
Proof.
  revert b. induction a as [|x a IH]; intros [|y b]; simpl; auto.
  destruct (N.ltb_spec x y), (N.ltb_spec y x); auto; try lia.
  assert (x = y) by lia. subst y.
  destruct (IH b) as [H1|[H1|H1]]; auto. subst b. auto.
Qed.

(** The strict and the large order as relations of their own, for the
    [order] tactic. *)
Module StrOrder.

Definition t : Type := jsstring.
Definition eq : t -> t -> Prop := @Logic.eq jsstring.

Inductive lt_ (a b : t) : Prop :=
| lt_of : str_ltb a b = true -> lt_ a b.

Inductive le_ (a b : t) : Prop :=
| le_of : str_ltb b a = false -> le_ a b.

Definition lt : t -> t -> Prop := lt_.
Definition le : t -> t -> Prop := le_.

Lemma lt_iff (a b : t) : lt a b <-> str_ltb a b = true.
Proof. split; [intros [H]; exact H | apply lt_of]. Qed.

Lemma le_iff (a b : t) : le a b <-> str_ltb b a = false.
Proof. split; [intros [H]; exact H | apply le_of]. Qed.

#[global] Instance eq_equiv : Equivalence eq.
Proof. unfold eq. exact eq_equivalence. Qed.

#[global] Instance lt_strorder : StrictOrder lt.
Proof.
  split.
  - intros a H. apply lt_iff in H. rewrite str_ltb_irrefl in H. discriminate.
  - intros a b c Hab Hbc. apply lt_iff in Hab, Hbc. apply lt_iff.
    eapply str_ltb_trans; eauto.
Qed.

#[global] Instance lt_compat : Proper (eq ==> eq ==> iff) lt.
Proof. intros a a' Ha b b' Hb. unfold eq in *. subst. reflexivity. Qed.

Lemma le_lteq (x y : t) : le x y <-> lt x y \/ eq x y.
Proof.
  rewrite le_iff, lt_iff. unfold eq. split.
  - intros H. destruct (str_ltb_total x y) as [H1|[H1|H1]]; auto. congruence.
  - intros [H| ->].
    + destruct (str_ltb y x) eqn:E; [|reflexivity].
      pose proof (str_ltb_trans _ _ _ H E) as C.
      rewrite str_ltb_irrefl in C. discriminate.
    + apply str_ltb_irrefl.
Qed.

Lemma lt_total (x y : t) : lt x y \/ eq x y \/ lt y x.
Proof. rewrite !lt_iff. apply str_ltb_total. Qed.

End StrOrder.

Module StrTac := OrdersTac.MakeOrderTac StrOrder StrOrder.

Lemma overlaps_iff (E O : Schedule) :
  overlaps E O = true <->
  id O <> id E /\
  ((StrOrder.le (startTime E) (startTime O) /\
    StrOrder.lt (startTime O) (endTime E)) \/
   (StrOrder.lt (startTime E) (endTime O) /\
    StrOrder.le (endTime O) (endTime E)) \/
   (StrOrder.le (startTime O) (startTime E) /\
    StrOrder.le (endTime E) (endTime O))).
Proof.
  rewrite !StrOrder.le_iff, !StrOrder.lt_iff.
  unfold overlaps, str_geb, str_leb, str_gtb.
  rewrite andb_true_iff, !orb_true_iff, !andb_true_iff, !negb_true_iff.
  rewrite Z.eqb_neq. tauto.
Qed.

(** For two events that each start before they end, the three-way test is
    the usual one: each starts before the other ends. *)
Lemma overlaps_intersect (E O : Schedule) :
  StrOrder.lt (startTime E) (endTime E) ->
  StrOrder.lt (startTime O) (endTime O) ->
  overlaps E O = true <->
  id O <> id E /\
  StrOrder.lt (startTime O) (endTime E) /\
  StrOrder.lt (startTime E) (endTime O).
Proof.
  intros HE HO. rewrite overlaps_iff. split.
  - intros [Hid [[H1 H2]|[[H1 H2]|[H1 H2]]]]; repeat split; auto;
      StrTac.order.
  - intros (Hid & H1 & H2). split; [exact Hid|].
    destruct (StrOrder.lt_total (startTime O) (startTime E)) as [L|[L|L]].
    + destruct (StrOrder.lt_total (endTime O) (endTime E)) as [M|[M|M]].
      * right; left. split; [exact H2|StrTac.order].
      * right; left. split; [exact H2|StrTac.order].
      * right; right. split; StrTac.order.
    + left. split; [StrTac.order|exact H1].
    + left. split; [StrTac.order|exact H1].
Qed.

Lemma overlaps_sym (A B : Schedule) :
  StrOrder.lt (startTime A) (endTime A) ->
  StrOrder.lt (startTime B) (endTime B) ->
  overlaps A B = overlaps B A.
Proof.
  intros HA HB. apply eq_true_iff_eq.
  rewrite (overlaps_intersect A B HA HB), (overlaps_intersect B A HB HA).
  intuition congruence.
Qed.

(** Minute order against string order.  [time_chars] spells out a
    well-formed time string. *)
Lemma wf_time_chars (s : jsstring) :
  wf_time s = true ->
  exists h1 h2 m1 m2 rest,
    s = h1 :: h2 :: colon :: m1 :: m2 :: rest /\
    is_digit h1 = true /\ is_digit h2 = true /\
    is_digit m1 = true /\ is_digit m2 = true /\
    10 * digit_val m1 + digit_val m2 < 60 /\
    minutes_of s =
      (10 * digit_val h1 + digit_val h2) * 60 + (10 * digit_val m1 + digit_val m2) /\
    (List.length s = 5%nat -> rest = []).
Proof.
  intros H. destruct (wf_time_fields s H) as (h & m & sec & E & _ & Hm & _).
  unfold minutes_of. rewrite E.
  apply time_fields_inv in E.
  destruct E as (h1 & h2 & m1 & m2 & rest & -> & Hh & Hm' & Hrest).
  apply two_digits_inv in Hh. destruct Hh as (A1 & A2 & ->).
  apply two_digits_inv in Hm'. destruct Hm' as (B1 & B2 & ->).
  exists h1, h2, m1, m2, rest. repeat split; auto; try lia.
  intros L. destruct rest; [reflexivity|]. simpl in L. lia.
Qed.

Ltac digit_facts :=
  repeat match goal with
  | H : is_digit _ = true |- _ => apply digit_val_range in H
  end;
  unfold digit_val in *.

(** One step through the nested comparisons of [str_ltb]: the branch where
    the comparison holds is closed, the other continues. *)
Ltac lex_step :=
  match goal with
  | |- context [N.ltb ?x ?y] =>
      destruct (N.ltb_spec x y); [first [reflexivity | lia] | ]
  end.

Lemma minutes_lt_str_lt (a b : jsstring) :
  wf_time a = true -> wf_time b = true ->
  minutes_of a < minutes_of b -> str_ltb a b = true.
Proof.
  intros Ha Hb.
  destruct (wf_time_chars a Ha) as (a1 & a2 & a3 & a4 & ra & -> & ? & ? & ? & ? & ? & -> & _).
  destruct (wf_time_chars b Hb) as (b1 & b2 & b3 & b4 & rb & -> & ? & ? & ? & ? & ? & -> & _).
  intros L. digit_facts. cbn [str_ltb]. rewrite N.ltb_irrefl.
  repeat lex_step. lia.
Qed.

Lemma hhmm_str_ltb (a b : jsstring) :
  wf_hhmm a = true -> wf_hhmm b = true ->
  str_ltb a b = (minutes_of a <? minutes_of b).
Proof.
  unfold wf_hhmm. rewrite !andb_true_iff, !Nat.eqb_eq.
  intros [Ha La] [Hb Lb].
  destruct (Z.ltb_spec (minutes_of a) (minutes_of b)) as [L|L].
  - apply minutes_lt_str_lt; assumption.
  - destruct (wf_time_chars a Ha) as (a1 & a2 & a3 & a4 & ra & Ea & ? & ? & ? & ? & ? & Ma & Ra).
    destruct (wf_time_chars b Hb) as (b1 & b2 & b3 & b4 & rb & Eb & ? & ? & ? & ? & ? & Mb & Rb).
    rewrite (Ra La) in Ea. rewrite (Rb Lb) in Eb. subst a b.
    rewrite Ma, Mb in L. clear Ma Mb Ra Rb La Lb Ha Hb.
    digit_facts. cbn [str_ltb]. rewrite N.ltb_irrefl.
    repeat lex_step. reflexivity.
Qed.

(** ** Overlap detection *)

Lemma start_before_end_lt (ev : Schedule) :
  start_before_end ev -> StrOrder.lt (startTime ev) (endTime ev).
Proof.
  intros [H|(Hs & He & L)]; apply StrOrder.lt_iff; [exact H|].
  apply minutes_lt_str_lt; assumption.
Qed.

Lemma findOverlappingEvents_In (E O : Schedule) (evs : list Schedule) :
  In O (findOverlappingEvents E evs) <-> In O evs /\ overlaps E O = true.
Proof. unfold findOverlappingEvents. apply filter_In. Qed.

Lemma overlaps_minutes (E O : Schedule) :
  wf_hhmm (startTime E) = true -> wf_hhmm (endTime E) = true ->
  wf_hhmm (startTime O) = true -> wf_hhmm (endTime O) = true ->
  overlaps E O = negb (Z.eqb (id O) (id E)) && minute_overlap E O.
Proof.
  intros H1 H2 H3 H4.
  unfold overlaps, minute_overlap, str_geb, str_leb, str_gtb. cbv zeta.
  rewrite !hhmm_str_ltb by assumption.
  f_equal.
  repeat match goal with
  | |- context [negb (?a <? ?b)] =>
      replace (negb (a <? b)) with (b <=? a)
        by (destruct (Z.leb_spec b a), (Z.ltb_spec a b); simpl; auto; lia)
  end.
  reflexivity.
Qed.

(** C1, as amended.  When every time is a well-formed "HH:MM" string, the
    overlap list of E holds exactly the events of the set with another id
    whose minute interval meets E's by the three-way test. *)
Theorem findOverlappingEvents_minutes (E : Schedule) (evs : list Schedule) :
  wf_hhmm (startTime E) = true -> wf_hhmm (endTime E) = true ->
  (forall O, In O evs ->
             wf_hhmm (startTime O) = true /\ wf_hhmm (endTime O) = true) ->
  findOverlappingEvents E evs =
    List.filter (fun O => negb (Z.eqb (id O) (id E)) && minute_overlap E O) evs /\
  (forall O, In O (findOverlappingEvents E evs) <->
             In O evs /\ id O <> id E /\ minute_overlap E O = true).
Proof.
  intros Hs He Hall.
  assert (Heq : findOverlappingEvents E evs =
    List.filter (fun O => negb (Z.eqb (id O) (id E)) && minute_overlap E O) evs).
  { unfold findOverlappingEvents. apply filter_ext_in. intros O HO.
    destruct (Hall O HO). apply overlaps_minutes; assumption. }
  split; [exact Heq|]. intros O. rewrite Heq, filter_In.
  rewrite andb_true_iff, negb_true_iff, Z.eqb_neq. tauto.
Qed.

Lemma findOverlappingEvents_minutes_witness :
  findOverlappingEvents ex_e1 [ex_e1; ex_e2] =
    List.filter
      (fun O => negb (Z.eqb (id O) (id ex_e1)) && minute_overlap ex_e1 O)
      [ex_e1; ex_e2] /\
  (forall O, In O (findOverlappingEvents ex_e1 [ex_e1; ex_e2]) <->
             In O [ex_e1; ex_e2] /\ id O <> id ex_e1 /\
             minute_overlap ex_e1 O = true).
Proof.
  apply (findOverlappingEvents_minutes ex_e1 [ex_e1; ex_e2]);
    [reflexivity | reflexivity |].
  intros O [<-|[<-|[]]]; split; reflexivity.
Defined.

(** C1, as stated, fails on times with seconds: both events are visible in
    the window 07:00-16:00 and well formed, the minute interval of the
    second (480 to 480) meets that of the first (480 to 540) by the first
    clause of the test, and the overlap list of the first is empty. *)
Lemma findOverlappingEvents_seconds_counterexample :
  wf_time (startTime ex_s1) = true /\ wf_time (endTime ex_s1) = true /\
  wf_time (startTime ex_s2) = true /\ wf_time (endTime ex_s2) = true /\
  List.filter (isEventVisible (R := refRuntime) ex_props_s)
              (dayEvents (R := refRuntime) ex_props_s ex_sat) = [ex_s1; ex_s2] /\
  id ex_s2 <> id ex_s1 /\
  minute_overlap ex_s1 ex_s2 = true /\
  findOverlappingEvents ex_s1 [ex_s1; ex_s2] = [].
Proof. repeat split; try reflexivity. discriminate. Qed.

(** C7. Among the events of one list, for two events that each start
    before they end, the first is in the overlap list of the second exactly
    when the second is in the overlap list of the first. *)
Theorem overlap_symmetric (evs : list Schedule) (A B : Schedule) :
  In A evs -> In B evs ->
  start_before_end A -> start_before_end B ->
  (In A (findOverlappingEvents B evs) <-> In B (findOverlappingEvents A evs)).
Proof.
  intros HA HB SA SB.
  apply start_before_end_lt in SA, SB.
  rewrite !findOverlappingEvents_In, (overlaps_sym A B SA SB). tauto.
Qed.

Lemma overlap_symmetric_witness :
  In ex_e1 (findOverlappingEvents ex_e2 [ex_e1; ex_e2]) <->
  In ex_e2 (findOverlappingEvents ex_e1 [ex_e1; ex_e2]).
Proof.
  apply (overlap_symmetric [ex_e1; ex_e2] ex_e1 ex_e2).
  - left. reflexivity.
  - right. left. reflexivity.
  - left. reflexivity.
  - right. repeat split; try reflexivity.
Defined.

(** The same on what a day column shows. *)
Lemma overlap_symmetric_rendered {R : Runtime}
  (p : TimeTableProps) (d : DayDef) (a b : EventBox) :
  In a (renderDay p d) -> In b (renderDay p d) ->
  start_before_end (box_event a) -> start_before_end (box_event b) ->
  (In (box_event a) (box_overlaps b) <-> In (box_event b) (box_overlaps a)).
Proof.
  intros Ha Hb. apply renderDay_In in Ha, Hb.
  destruct Ha as (A & -> & HA & VA). destruct Hb as (B & -> & HB & VB).
  cbn [renderEvent box_event box_overlaps].
  intros SA SB. apply start_before_end_lt in SA, SB.
  rewrite !findOverlappingEvents_In, !filter_In, (overlaps_sym B A SB SA).
  tauto.
Qed.

(** ** Instances of the layout theorems on the example *)

Lemma ex_box1_rendered : In ex_box1 (renderDay (R := refRuntime) ex_props ex_sat).
Proof. left. reflexivity. Defined.

Lemma isEventVisible_window_witness :
  isEventVisible (R := refRuntime) ex_props ex_e1 = true <->
  420 <= 480 <= 960 /\ 420 <= 540 <= 960.
Proof.
  exact (proj1 (isEventVisible_window (R := refRuntime) ex_props ex_e1
                  eq_refl eq_refl eq_refl eq_refl)).
Defined.

Lemma position_mapping_witness :
  box_top ex_box1 = nmul (ndiv (of_Z 60) (of_Z 540)) (of_Z 100).
Proof.
  exact (proj1 (position_mapping (R := refRuntime) ex_props ex_sat ex_box1
                  ex_box1_rendered eq_refl eq_refl eq_refl eq_refl)).
Defined.

Lemma top_monotone_witness :
  nltb (box_top (renderEvent (R := refRuntime) ex_props [] ex_e1))
       (box_top (renderEvent (R := refRuntime) ex_props []
                   (mkEvent 3 "Sat" "09:00" "10:00"))) = true.
Proof.
  apply (top_monotone (R := refRuntime)); reflexivity.
Defined.

(** The event of one hour in the window of nine hours: the computed height,
    100/9, is above the floor of 10 and is the height applied. *)
Lemma rendered_height_floor_witness :
  nltb (box_height ex_box1) (of_Z 10) = false /\
  box_height ex_box1 =
    calculateHeight (R := refRuntime) (startTime ex_e1) (endTime ex_e1)
      (window_start ex_props) (window_end ex_props).
Proof.
  destruct (rendered_height_floor (R := refRuntime)
              ex_props ex_sat ex_box1 ex_box1_rendered)
    as (_ & Hmax & Hlow & _).
  split; [exact Hlow|].
  apply (Hmax (inject_Z (540 - 480) / inject_Z (960 - 420) * inject_Z 100)%Q);
    reflexivity.
Defined.

(** ** The editor: direction detection *)

Section EditorFacts.

Context {R : Runtime}.
Context {node range world exn : Type} {H : Host node range world exn}.

Local Open Scope cmd_scope.

Lemma arabicRegex_test_spec (text : jsstring) :
  arabicRegex_test text = true <->
  exists c, In c text /\
            ((0x600 <= c <= 0x6FF)%N \/ (0x750 <= c <= 0x77F)%N).
Proof.
  unfold arabicRegex_test. rewrite existsb_exists.
  split; intros (c & Hin & Hc); exists c; split; auto.
  - unfold is_arabic in Hc.
    rewrite orb_true_iff, !andb_true_iff, !N.leb_le in Hc. exact Hc.
  - unfold is_arabic.
    rewrite orb_true_iff, !andb_true_iff, !N.leb_le. exact Hc.
Qed.

Lemma handleChange_run (s : state node world) (editor : node) :
  editorRef s = Some editor ->
  let text := textContent (host s) editor in
  let content := innerHTML (host s) editor in
  handleChange s =
  Val tt (with_change
            (if arabicRegex_test text
             then with_direction s rtl align_right
             else with_direction s ltr align_left)
            content (jsstring_eqb (trim text) [])).
Proof.
  intros He. unfold handleChange, bind, get, read, update. rewrite He.
  cbv zeta. destruct (arabicRegex_test _); reflexivity.
Qed.

Lemma bind_Val_inv {A B : Type} (m : M node world exn A) (k : A -> M node world exn B)
  (s s' : state node world) (b : B) :
  bind m k s = Val b s' -> exists a s1, m s = Val a s1 /\ k a s1 = Val b s'.
Proof.
  unfold bind. destruct (m s) as [a s1|e s1|]; try discriminate. eauto.
Qed.

Lemma handleChange_form (s s' : state node world) :
  handleChange s = Val tt s' ->
  showLinkDropdown s' = showLinkDropdown s /\ linkUrl s' = linkUrl s /\
  linkText s' = linkText s /\ showImageDropdown s' = showImageDropdown s /\
  imageUrl s' = imageUrl s /\ imageAlt s' = imageAlt s /\
  editorRef s' = editorRef s.
Proof.
  destruct (editorRef s) as [editor|] eqn:He.
  - rewrite (handleChange_run s editor He). cbv zeta. intros E.
    injection E as <-. destruct (arabicRegex_test _); repeat split; assumption.
  - unfold handleChange, bind, get. rewrite He. intros E. injection E as <-.
    repeat split; assumption.
Qed.

(** The effect on [value] changes the host document and [editorIsEmpty],
    and nothing else. *)
Lemma syncValue_direction (value : jsstring) (s s' : state node world) :
  syncValue value s = Val tt s' ->
  textDirection s' = textDirection s /\
  surface_direction s' = surface_direction s /\
  surface_textAlign s' = surface_textAlign s.
Proof.
  unfold syncValue, bind at 1, get.
  destruct (editorRef s) as [editor|]; [|intros E; injection E as <-; auto].
  unfold bind at 1, read.
  destruct (negb _); [|intros E; injection E as <-; auto].
  intros E. apply bind_Val_inv in E. destruct E as (a1 & s1 & E1 & E).
  unfold call in E1. destruct (set_innerHTML _ _ _) as [a w|x w|];
    try discriminate.
  injection E1 as _ <-.
  unfold bind, read, update in E. injection E as <-. auto.
Qed.

(** C9, as amended.  Whenever [handleChange] runs on the editable element,
    the text direction becomes right-to-left and the alignment right
    exactly when the text content holds a code unit of U+0600-U+06FF or
    U+0750-U+077F, and left-to-right and left otherwise; text below U+0250
    gives left-to-right.  The effect that follows the [value] property
    replaces the content without that test: it leaves the direction and
    the alignment as they were. *)
Theorem handleChange_direction (s : state node world) (editor : node) :
  editorRef s = Some editor ->
  let text := textContent (host s) editor in
  let arabic :=
    exists c, In c text /\
              ((0x600 <= c <= 0x6FF)%N \/ (0x750 <= c <= 0x77F)%N) in
  (exists s',
     handleChange s = Val tt s' /\
     (arabic ->
      textDirection s' = rtl /\ surface_direction s' = Some rtl /\
      surface_textAlign s' = Some align_right) /\
     (~ arabic ->
      textDirection s' = ltr /\ surface_direction s' = Some ltr /\
      surface_textAlign s' = Some align_left) /\
     ((forall c, In c text -> (c < 0x250)%N) -> textDirection s' = ltr)) /\
  (forall value s',
     syncValue value s = Val tt s' ->
     textDirection s' = textDirection s /\
     surface_direction s' = surface_direction s /\
     surface_textAlign s' = surface_textAlign s).
Proof.
  intros He text arabic.
  split; [|intros value s'; apply syncValue_direction].
  pose proof (arabicRegex_test_spec text) as Hspec. fold arabic in Hspec.
  eexists. split; [apply handleChange_run; exact He|].
  fold text. destruct (arabicRegex_test text) eqn:E; simpl.
  - assert (Ha : arabic) by (apply Hspec; reflexivity).
    split; [auto|]. split; [tauto|].
    intros Hlatin. destruct Ha as (c & Hin & Hc).
    specialize (Hlatin c Hin). lia.
  - assert (Hn : ~ arabic) by (intros Ha; apply Hspec in Ha; discriminate).
    split; [tauto|]. auto.
Qed.

Lemma handleChange_host (s : state node world) (editor : node) :
  editorRef s = Some editor ->
  exists s',
    handleChange s = Val tt s' /\ host s' = host s /\ editorRef s' = editorRef s.
Proof.
  intros He. rewrite (handleChange_run s editor He). cbv zeta.
  eexists. split; [reflexivity|].
  destruct (arabicRegex_test _); split; reflexivity.
Qed.

Lemma updateFormattingState_host (s : state node world) :
  exists s',
    updateFormattingState s = Val tt s' /\ host s' = host s /\
    editorRef s' = editorRef s.
Proof.
  unfold updateFormattingState, bind, get, read, update, ret.
  destruct (editorRef s) as [editor|] eqn:He;
    [|eexists; repeat split; exact He].
  destruct (getSelection (host s)) as [[|r rs]|];
    eexists; repeat split; exact He.
Qed.

(** One step of a command. *)
Lemma bind_get {A : Type} (k : state node world -> M node world exn A) (s : state node world) :
  bind get k s = k s s.
Proof. reflexivity. Qed.

Lemma bind_read {A B : Type} (f : world -> A) (k : A -> M node world exn B)
  (s : state node world) :
  bind (read f) k s = k (f (host s)) s.
Proof. reflexivity. Qed.

Lemma bind_call {A B : Type} (f : world -> outcome world exn A)
  (k : A -> M node world exn B) (s : state node world) (a : A) (w : world) :
  f (host s) = Val a w -> bind (call f) k s = k a (with_host s w).
Proof. intros Hf. unfold bind, call. rewrite Hf. reflexivity. Qed.

Lemma bind_Val {A B : Type} (m : M node world exn A) (k : A -> M node world exn B)
  (s s' : state node world) (a : A) :
  m s = Val a s' -> bind m k s = k a s'.
Proof. intros Hm. unfold bind. rewrite Hm. reflexivity. Qed.

(** ** The editor: nothing is logged *)

Lemma quiet_ret {A : Type} (a : A) : quiet (ret a : M node world exn A).
Proof. intros s. reflexivity. Qed.

Lemma quiet_undef {A : Type} : quiet (undef : M node world exn A).
Proof. intros s. exact I. Qed.

Lemma quiet_get : quiet (get : M node world exn (state node world)).
Proof. intros s. reflexivity. Qed.

Lemma quiet_read {A : Type} (f : world -> A) :
  quiet (read f : M node world exn A).
Proof. intros s. reflexivity. Qed.

Lemma quiet_call {A : Type} (f : world -> outcome world exn A) :
  quiet (call f : M node world exn A).
Proof. intros s. unfold call. destruct (f (host s)); reflexivity. Qed.

Lemma quiet_update (f : state node world -> state node world) :
  (forall s, console (f s) = console s) ->
  quiet (update f : M node world exn unit).
Proof. intros Hf s. apply Hf. Qed.

Lemma quiet_bind {A B : Type}
  (m : M node world exn A) (k : A -> M node world exn B) :
  quiet m -> (forall a, quiet (k a)) -> quiet (bind m k).
Proof.
  intros Hm Hk s. unfold bind. specialize (Hm s).
  destruct (m s) as [a s'|e s'|]; auto.
  specialize (Hk a s'). destruct (k a s'); congruence.
Qed.

Lemma quiet_try_catch {A : Type} (body handler : M node world exn A) :
  quiet body -> quiet handler -> quiet (try_catch body handler).
Proof.
  intros Hb Hh s. unfold try_catch. specialize (Hb s).
  destruct (body s) as [a s'|e s'|]; auto.
  specialize (Hh s'). destruct (handler s'); congruence.
Qed.

Lemma quiet_on_selection (sel : option (list range)) (m : M node world exn unit) :
  quiet m -> quiet (on_selection sel m).
Proof. intros Hm. destruct sel; [exact Hm|apply quiet_ret]. Qed.

(** The steps of a command, taken one at a time. *)
Ltac quiet_step :=
  first
    [ apply quiet_ret | apply quiet_undef | apply quiet_get | apply quiet_read
    | apply quiet_call | apply quiet_update; intros; reflexivity
    | apply quiet_on_selection
    | apply quiet_try_catch
    | apply quiet_bind; [|intros]
    | match goal with
      | |- quiet (match ?x with _ => _ end) => destruct x
      end ].

Lemma quiet_handleChange : quiet handleChange.
Proof. unfold handleChange. repeat quiet_step. Qed.

Lemma quiet_updateFormattingState : quiet updateFormattingState.
Proof. unfold updateFormattingState. repeat quiet_step. Qed.

Lemma quiet_move_children (fuel : nat) (pe parent : node) :
  quiet (move_children fuel pe parent).
Proof.
  induction fuel as [|fuel IH]; simpl; repeat quiet_step. exact IH.
Qed.

Lemma quiet_wrapSelectionWithTag (tag : jsstring) : quiet (wrapSelectionWithTag tag).
Proof.
  unfold wrapSelectionWithTag.
  repeat first [ apply quiet_handleChange | apply quiet_updateFormattingState
               | apply quiet_move_children | quiet_step ].
Qed.

Lemma quiet_seed (editor : node) (html : jsstring) (b : bool) :
  quiet (seed editor html b).
Proof. unfold seed. repeat quiet_step. Qed.

Lemma quiet_applyFormat (p : TextEditorProps) (c : jsstring) (v : option jsstring) :
  quiet (applyFormat p c v).
Proof.
  unfold applyFormat.
  repeat first [ apply quiet_handleChange | apply quiet_updateFormattingState
               | apply quiet_seed | quiet_step ].
Qed.

Lemma quiet_insertAtSelection (editor : node) (html : jsstring) :
  quiet (insertAtSelection editor html).
Proof. unfold insertAtSelection. repeat quiet_step. Qed.

Lemma quiet_insertLink (p : TextEditorProps) : quiet (insertLink p).
Proof.
  unfold insertLink.
  repeat first [ apply quiet_handleChange | apply quiet_insertAtSelection
               | quiet_step ].
Qed.

Lemma quiet_insertImage (p : TextEditorProps) : quiet (insertImage p).
Proof.
  unfold insertImage.
  repeat first [ apply quiet_handleChange | apply quiet_insertAtSelection
               | quiet_step ].
Qed.

Lemma quiet_insertBlockquote : quiet insertBlockquote.
Proof.
  unfold insertBlockquote, styleBlockquote.
  repeat first [ apply quiet_handleChange | quiet_step ].
Qed.

Lemma quiet_insertCodeBlock : quiet insertCodeBlock.
Proof.
  unfold insertCodeBlock, stylePre.
  repeat first [ apply quiet_handleChange | apply quiet_updateFormattingState
               | quiet_step ].
Qed.

Lemma quiet_changeWith (p : TextEditorProps) (c v : jsstring) :
  quiet (changeWith p c v).
Proof.
  unfold changeWith.
  repeat first [ apply quiet_applyFormat | apply quiet_seed | quiet_step ].
Qed.

Lemma quiet_handlePaste (t : jsstring) : quiet (handlePaste t).
Proof. unfold handlePaste. repeat quiet_step. Qed.


(** ** The editor: what a command leaves untouched *)

Lemma with_host_with_host (s : state node world) (w w' : world) :
  with_host (with_host s w) w' = with_host s w'.
Proof. reflexivity. Qed.

Lemma with_host_host (s : state node world) : with_host s (host s) = s.
Proof. destruct s. reflexivity. Qed.

Lemma host_only_ret {A : Type} (a : A) : host_only (ret a : M node world exn A).
Proof. intros s. simpl. symmetry. apply with_host_host. Qed.

Lemma host_only_read {A : Type} (f : world -> A) :
  host_only (read f : M node world exn A).
Proof. intros s. simpl. symmetry. apply with_host_host. Qed.

Lemma host_only_call {A : Type} (f : world -> outcome world exn A) :
  host_only (call f : M node world exn A).
Proof. intros s. unfold call. destruct (f (host s)); reflexivity. Qed.

Lemma host_only_bind {A B : Type}
  (m : M node world exn A) (k : A -> M node world exn B) :
  host_only m -> (forall a, host_only (k a)) -> host_only (bind m k).
Proof.
  intros Hm Hk s. unfold bind. specialize (Hm s).
  destruct (m s) as [a s'|e s'|]; auto.
  specialize (Hk a s'). destruct (k a s') as [b s''|e s''|]; auto;
    rewrite Hk, Hm; reflexivity.
Qed.

Ltac host_only_step :=
  first
    [ apply host_only_ret | apply host_only_read | apply host_only_call
    | apply host_only_bind; [|intros]
    | match goal with
      | |- host_only (match ?x with _ => _ end) => destruct x
      end ].

Lemma host_only_insertAtSelection (editor : node) (html : jsstring) :
  host_only (insertAtSelection editor html).
Proof. unfold insertAtSelection. repeat host_only_step. Qed.

Lemma host_only_Val {A : Type} (m : M node world exn A) (s s' : state node world) (a : A) :
  host_only m -> m s = Val a s' -> s' = with_host s (host s').
Proof. intros Hm E. specialize (Hm s). rewrite E in Hm. exact Hm. Qed.

Lemma host_only_Exc {A : Type} (m : M node world exn A) (s s' : state node world) (e : exn) :
  host_only m -> m s = Exc e s' -> s' = with_host s (host s').
Proof. intros Hm E. specialize (Hm s). rewrite E in Hm. exact Hm. Qed.

(** ** The editor: link and image insertion when the range throws *)

Lemma insertLink_guarded (p : TextEditorProps) (s : state node world) (editor : node) :
  editorRef s = Some editor -> linkUrl s <> [] -> linkText s <> [] ->
  insertLink p s =
  guarded_insert editor
    (linkHTML (match linkUrlHandler p with
               | Some h => h (linkUrl s)
               | None => linkUrl s
               end) (linkText s))
    close_link_form s.
Proof.
  intros He Hu Ht. unfold insertLink, guarded_insert, bind at 1, get.
  destruct (linkUrl s) as [|c u]; [congruence|].
  destruct (linkText s) as [|d t]; [congruence|].
  rewrite He. reflexivity.
Qed.

Lemma insertImage_guarded (p : TextEditorProps) (s : state node world) (editor : node) :
  editorRef s = Some editor -> imageUrl s <> [] ->
  insertImage p s =
  guarded_insert editor
    (imgHTML (match imageUrlHandler p with
              | Some h => h (imageUrl s)
              | None => imageUrl s
              end) (imageAlt s))
    close_image_form s.
Proof.
  intros He Hu. unfold insertImage, guarded_insert, bind at 1, get.
  destruct (imageUrl s) as [|c u]; [congruence|].
  rewrite He. reflexivity.
Qed.

(** After the insertion has left the state [s3], the form is reset and
    [handleChange] reports the content. *)
Lemma guarded_insert_finish
  (editor : node) (close : state node world -> state node world)
  (s s3 : state node world) :
  keeps_frame close ->
  editorRef s = Some editor -> s3 = with_host s (host s3) ->
  exists s',
    (update close ;; handleChange) s3 = Val tt s' /\
    host s' = host s3 /\ console s' = console s /\
    emitted s' = emitted s ++ [innerHTML (host s3) editor].
Proof.
  intros Hc He E3. unfold bind, update.
  destruct (Hc s3) as (C1 & C2 & C3 & C4).
  assert (He3 : editorRef (close s3) = Some editor).
  { rewrite C2, E3. exact He. }
  rewrite (handleChange_run _ _ He3). cbv zeta.
  eexists. split; [reflexivity|].
  rewrite C1.
  destruct (arabicRegex_test _); simpl; rewrite ?C1, ?C3, ?C4, E3; auto.
Qed.

Lemma guarded_insert_throw
  (editor : node) (html : jsstring) (close : state node world -> state node world)
  (s s1 s2 : state node world) (e : exn) (w3 : world) :
  keeps_frame close ->
  editorRef s = Some editor ->
  call (focus editor) s = Val tt s1 ->
  insertAtSelection editor html s1 = Exc e s2 ->
  insertAdjacentHTML_beforeend editor html (host s2) = Val tt w3 ->
  exists s',
    guarded_insert editor html close s = Val tt s' /\
    host s' = w3 /\ console s' = console s /\
    emitted s' = emitted s ++ [innerHTML w3 editor].
Proof.
  intros Hc He Hf Ht Ha.
  pose proof (host_only_Val _ _ _ _ (host_only_call _) Hf) as E1.
  pose proof (host_only_Exc _ _ _ _ (host_only_insertAtSelection _ _) Ht) as E2.
  assert (E3 : with_host s2 w3 = with_host s (host (with_host s2 w3))).
  { rewrite E2, E1. reflexivity. }
  destruct (guarded_insert_finish editor close s _ Hc He E3) as (s' & Hr & P1 & P2 & P3).
  exists s'. split; [|auto].
  unfold guarded_insert, bind at 1. rewrite Hf.
  unfold bind at 1, try_catch. rewrite Ht.
  unfold call at 1. rewrite Ha. exact Hr.
Qed.

Lemma guarded_insert_outside
  (editor : node) (html : jsstring) (close : state node world -> state node world)
  (s s1 : state node world) (r : range) (rs : list range) (w3 : world) :
  keeps_frame close ->
  editorRef s = Some editor ->
  call (focus editor) s = Val tt s1 ->
  getSelection (host s1) = Some (r :: rs) ->
  contains (host s1) editor (commonAncestorContainer (host s1) r) = false ->
  insertAdjacentHTML_beforeend editor html (host s1) = Val tt w3 ->
  exists s',
    guarded_insert editor html close s = Val tt s' /\
    host s' = w3 /\ console s' = console s /\
    emitted s' = emitted s ++ [innerHTML w3 editor].
Proof.
  intros Hc He Hf Hsel Hout Ha.
  pose proof (host_only_Val _ _ _ _ (host_only_call _) Hf) as E1.
  assert (E3 : with_host s1 w3 = with_host s (host (with_host s1 w3))).
  { rewrite E1. reflexivity. }
  destruct (guarded_insert_finish editor close s _ Hc He E3) as (s' & Hr & P1 & P2 & P3).
  exists s'. split; [|auto].
  unfold guarded_insert, bind at 1. rewrite Hf.
  unfold bind at 1, try_catch, insertAtSelection, bind at 1, read.
  rewrite Hsel. unfold bind at 1. unfold bind at 1. rewrite Hout.
  unfold call at 1. rewrite Ha. exact Hr.
Qed.

(** A run of the insertion that returns ends with the form as [close]
    leaves it. *)
Lemma guarded_insert_form
  (editor : node) (html : jsstring) (close : state node world -> state node world)
  (s s' : state node world) :
  guarded_insert editor html close s = Val tt s' ->
  exists s3,
    showLinkDropdown s' = showLinkDropdown (close s3) /\
    linkUrl s' = linkUrl (close s3) /\ linkText s' = linkText (close s3) /\
    showImageDropdown s' = showImageDropdown (close s3) /\
    imageUrl s' = imageUrl (close s3) /\ imageAlt s' = imageAlt (close s3).
Proof.
  unfold guarded_insert. intros E.
  apply bind_Val_inv in E. destruct E as (a1 & s1 & _ & E).
  apply bind_Val_inv in E. destruct E as (a2 & s2 & _ & E).
  apply bind_Val_inv in E. destruct E as (a3 & s3 & E3 & E).
  unfold update in E3. injection E3 as _ <-.
  apply handleChange_form in E. exists s2. tauto.
Qed.

Lemma keeps_frame_link :
  keeps_frame (close_link_form : state node world -> state node world).
Proof. intros s. repeat split. Qed.

Lemma keeps_frame_image :
  keeps_frame (close_image_form : state node world -> state node world).
Proof. intros s. repeat split. Qed.


(** C2, as amended.  Link and image insertion guard the insertion at the
    selection: when it throws, the exception is caught and the markup is
    appended to the end of the editable element instead; the command then
    resets its form (the form is closed and its fields are emptied) and
    reports the changed content.  No command writes to the console. *)
Theorem insertion_guarded
  (p : TextEditorProps) (s s1 s2 : state node world) (editor : node)
  (e : exn) (w3 : world) :
  editorRef s = Some editor ->
  call (focus editor) s = Val tt s1 ->
  (linkUrl s <> [] -> linkText s <> [] ->
   let html :=
     linkHTML (match linkUrlHandler p with
               | Some h => h (linkUrl s)
               | None => linkUrl s
               end) (linkText s) in
   insertAtSelection editor html s1 = Exc e s2 ->
   insertAdjacentHTML_beforeend editor html (host s2) = Val tt w3 ->
   exists s',
     insertLink p s = Val tt s' /\ host s' = w3 /\
     console s' = console s /\
     emitted s' = emitted s ++ [innerHTML w3 editor] /\
     showLinkDropdown s' = false /\ linkUrl s' = [] /\ linkText s' = []) /\
  (imageUrl s <> [] ->
   let html :=
     imgHTML (match imageUrlHandler p with
              | Some h => h (imageUrl s)
              | None => imageUrl s
              end) (imageAlt s) in
   insertAtSelection editor html s1 = Exc e s2 ->
   insertAdjacentHTML_beforeend editor html (host s2) = Val tt w3 ->
   exists s',
     insertImage p s = Val tt s' /\ host s' = w3 /\
     console s' = console s /\
     emitted s' = emitted s ++ [innerHTML w3 editor] /\
     showImageDropdown s' = false /\ imageUrl s' = [] /\ imageAlt s' = []) /\
  (forall tag command value text,
     quiet (wrapSelectionWithTag tag) /\
     quiet (applyFormat p command value) /\
     quiet (insertLink p) /\ quiet (insertImage p) /\
     quiet insertBlockquote /\ quiet insertCodeBlock /\
     quiet (changeWith p command text) /\ quiet (handlePaste text)).
Proof.
  intros He Hf. split; [|split].
  - intros Hu Ht html Hthrow Happend.
    rewrite (insertLink_guarded p s editor He Hu Ht).
    destruct (guarded_insert_throw editor html close_link_form s s1 s2 e w3
                keeps_frame_link He Hf Hthrow Happend)
      as (s' & Hr & Hh & Hc & Hem).
    destruct (guarded_insert_form _ _ _ _ _ Hr) as (s3 & F1 & F2 & F3 & _).
    exists s'. repeat split; assumption.
  - intros Hu html Hthrow Happend.
    rewrite (insertImage_guarded p s editor He Hu).
    destruct (guarded_insert_throw editor html close_image_form s s1 s2 e w3
                keeps_frame_image He Hf Hthrow Happend)
      as (s' & Hr & Hh & Hc & Hem).
    destruct (guarded_insert_form _ _ _ _ _ Hr) as (s3 & _ & _ & _ & F1 & F2 & F3).
    exists s'. repeat split; assumption.
  - intros tag command value text.
    repeat split;
      auto using quiet_wrapSelectionWithTag, quiet_applyFormat,
        quiet_insertLink, quiet_insertImage, quiet_insertBlockquote,
        quiet_insertCodeBlock, quiet_changeWith, quiet_handlePaste.
Qed.

(** ** The editor: a selection outside the editable element *)

(** C3, as amended.  With a selection whose common ancestor lies outside
    the editable element, the toggle-wrap, blockquote and code-block
    commands change nothing; link and image insertion, which test the
    selection after [focus()], append the markup to the end of the
    editable element. *)
Theorem outside_selection
  (s : state node world) (editor : node) (r : range) (rs : list range) :
  editorRef s = Some editor ->
  getSelection (host s) = Some (r :: rs) ->
  contains (host s) editor (commonAncestorContainer (host s) r) = false ->
  (forall tag, wrapSelectionWithTag tag s = Val tt s) /\
  insertBlockquote s = Val tt s /\
  insertCodeBlock s = Val tt s /\
  (forall html,
     insertAtSelection editor html s =
     call (insertAdjacentHTML_beforeend editor html) s) /\
  (forall p s0 w3,
     editorRef s0 = Some editor -> linkUrl s0 <> [] -> linkText s0 <> [] ->
     call (focus editor) s0 = Val tt s ->
     insertAdjacentHTML_beforeend editor
       (linkHTML (match linkUrlHandler p with
                  | Some h => h (linkUrl s0)
                  | None => linkUrl s0
                  end) (linkText s0)) (host s) = Val tt w3 ->
     exists s', insertLink p s0 = Val tt s' /\ host s' = w3) /\
  (forall p s0 w3,
     editorRef s0 = Some editor -> imageUrl s0 <> [] ->
     call (focus editor) s0 = Val tt s ->
     insertAdjacentHTML_beforeend editor
       (imgHTML (match imageUrlHandler p with
                 | Some h => h (imageUrl s0)
                 | None => imageUrl s0
                 end) (imageAlt s0)) (host s) = Val tt w3 ->
     exists s', insertImage p s0 = Val tt s' /\ host s' = w3).
Proof.
  intros He Hsel Hout. repeat split.
  - intros tag. unfold wrapSelectionWithTag, bind, get, read.
    rewrite He, Hsel, Hout. reflexivity.
  - unfold insertBlockquote, bind, get, read.
    rewrite He, Hsel, Hout. reflexivity.
  - unfold insertCodeBlock, bind, get, read.
    rewrite Hsel, He, Hout. reflexivity.
  - intros html. unfold insertAtSelection, bind, read.
    rewrite Hsel, Hout. reflexivity.
  - intros p s0 w3 He0 Hu Ht Hf Ha.
    rewrite (insertLink_guarded p s0 editor He0 Hu Ht).
    destruct (guarded_insert_outside editor _ close_link_form s0 s r rs w3
                keeps_frame_link He0 Hf Hsel Hout Ha) as (s' & Hr & Hh & _).
    exists s'. auto.
  - intros p s0 w3 He0 Hu Hf Ha.
    rewrite (insertImage_guarded p s0 editor He0 Hu).
    destruct (guarded_insert_outside editor _ close_image_form s0 s r rs w3
                keeps_frame_image He0 Hf Hsel Hout Ha) as (s' & Hr & Hh & _).
    exists s'. auto.
Qed.

End EditorFacts.

(** ** The editor on the stub host *)

Lemma handleChange_direction_witness :
  exists s',
    handleChange ex_arabic = Val tt s' /\
    textDirection s' = rtl /\ surface_direction s' = Some rtl /\
    surface_textAlign s' = Some align_right.
Proof.
  destruct (handleChange_direction ex_arabic 0%nat eq_refl)
    as ((s' & Hrun & Hr & _) & _).
  exists s'. split; [exact Hrun|]. apply Hr.
  exists 1587%N. split; [left; reflexivity|]. left. split; discriminate.
Defined.

(** C9, as stated, fails for a change of the content that comes through
    the [value] property: the document is empty and left-to-right, the
    value is an Arabic word, and after the effect the text content is that
    word while the direction is still left-to-right and no inline
    direction or alignment has been set. *)
Lemma value_direction_counterexample :
  exists s',
    syncValue [1587; 1604; 1575; 1605]%N ex_outside = Val tt s' /\
    textContent (host ex_outside) 0%nat = [] /\
    textContent (host s') 0%nat = [1587; 1604; 1575; 1605]%N /\
    arabicRegex_test (textContent (host s') 0%nat) = true /\
    textDirection s' = ltr /\ surface_direction s' = None /\
    surface_textAlign s' = None.
Proof.
  eexists. split; [vm_compute; reflexivity|]. repeat split.
Qed.

(** C2, as stated, fails twice on a host whose range throws.  Toggling
    bold lets the exception through; inserting a link catches it, logs
    nothing and, far from doing nothing, appends the link to the
    document. *)
Lemma throw_not_swallowed_counterexample :
  (exists s', wrapSelectionWithTag (js "strong") ex_broken
              = Exc InvalidStateError s') /\
  (exists s',
     insertLink stub_props ex_broken = Val tt s' /\
     console s' = [] /\
     innerHTML (host ex_broken) 0%nat = js "Hello" /\
     innerHTML (host s') 0%nat =
       js "Hello" ++ linkHTML (js "https://example.com") (js "Example")).
Proof.
  split; eexists; [reflexivity|].
  split; [vm_compute; reflexivity|]. repeat split.
Qed.

Lemma insertion_guarded_witness :
  exists s',
    insertLink stub_props ex_broken = Val tt s' /\
    host s' =
      stub_set_content (host ex_broken)
        (js "Hello" ++ linkHTML (js "https://example.com") (js "Example"))
        (js "HelloExample") /\
    console s' = console ex_broken /\
    emitted s' =
      emitted ex_broken ++
      [js "Hello" ++ linkHTML (js "https://example.com") (js "Example")] /\
    showLinkDropdown s' = false /\ linkUrl s' = [] /\ linkText s' = [].
Proof.
  refine (proj1 (insertion_guarded (R := refRuntime) stub_props
                   ex_broken ex_broken ex_broken 0%nat InvalidStateError _
                   eq_refl eq_refl) _ _ eq_refl eq_refl); discriminate.
Defined.

(** C3, as stated, fails for the commands that go through [applyFormat]:
    the selection is outside the editable element, whose document is
    empty, and centring gives the document a first block. *)
Lemma applyFormat_unchecked_counterexample :
  getSelection (host ex_outside) = Some [0%nat] /\
  contains (host ex_outside) 0%nat
           (commonAncestorContainer (host ex_outside) 0%nat) = false /\
  innerHTML (host ex_outside) 0%nat = [] /\
  exists s',
    applyFormat stub_props (js "justifyCenter") None ex_outside = Val tt s' /\
    innerHTML (host s') 0%nat = js "<div><br></div>".
Proof.
  repeat split. eexists. split; [vm_compute; reflexivity|reflexivity].
Qed.

Lemma outside_selection_witness :
  wrapSelectionWithTag (js "strong") ex_outside = Val tt ex_outside.
Proof.
  exact (proj1 (outside_selection (R := refRuntime) ex_outside 0%nat 0%nat []
                  eq_refl eq_refl eq_refl) (js "strong")).
Defined.

(** ** The document tree: nodes by id *)

Section TreeInduction.

Variable P : tree -> Prop.
Hypothesis P_Text : forall i d, P (Text i d).
Hypothesis P_Elem : forall i g a ks, Forall P ks -> P (Elem i g a ks).
Hypothesis P_Frag : forall i ks, Forall P ks -> P (Frag i ks).

Fixpoint tree_induction (t : tree) : P t :=
  match t with
  | Text i d => P_Text i d
  | Elem i g a ks =>
      P_Elem i g a ks
        ((fix all (l : list tree) : Forall P l :=
            match l with
            | [] => Forall_nil P
            | k :: l' => Forall_cons k (tree_induction k) (all l')
            end) ks)
  | Frag i ks =>
      P_Frag i ks
        ((fix all (l : list tree) : Forall P l :=
            match l with
            | [] => Forall_nil P
            | k :: l' => Forall_cons k (tree_induction k) (all l')
            end) ks)
  end.

End TreeInduction.

Lemma first_some_none {A B : Type} (f : A -> option B) (l : list A) :
  (forall a, In a l -> f a = None) -> first_some f l = None.
Proof.
  induction l as [|a l IH]; simpl; intros Hn; [reflexivity|].
  rewrite (Hn a) by auto. apply IH. auto.
Qed.

Lemma first_some_app {A B : Type} (f : A -> option B) (l1 l2 : list A) :
  (forall a, In a l1 -> f a = None) ->
  first_some f (l1 ++ l2) = first_some f l2.
Proof.
  induction l1 as [|a l1 IH]; simpl; intros Hn; [reflexivity|].
  rewrite (Hn a) by auto. apply IH. auto.
Qed.

Lemma nid_in_ids (t : tree) : In (nid t) (ids t).
Proof. destruct t; simpl; auto. Qed.

Lemma ids_kids (t k : tree) (n : nat) :
  In k (kids t) -> In n (ids k) -> In n (ids t).
Proof.
  intros Hk Hn. destruct t; simpl in *; [contradiction| |];
    right; apply in_flat_map; eauto.
Qed.

Lemma subtree_notin (n : nat) (t : tree) :
  ~ In n (ids t) -> subtree n t = None.
Proof.
  induction t as [i d|i g a ks IH|i ks IH] using tree_induction;
    simpl; intros Hn.
  - destruct (Nat.eqb_spec i n); [tauto|reflexivity].
  - destruct (Nat.eqb_spec i n); [tauto|].
    apply first_some_none. intros k Hk.
    rewrite Forall_forall in IH. apply IH; [exact Hk|].
    intros Hin. apply Hn. right. apply in_flat_map. eauto.
  - destruct (Nat.eqb_spec i n); [tauto|].
    apply first_some_none. intros k Hk.
    rewrite Forall_forall in IH. apply IH; [exact Hk|].
    intros Hin. apply Hn. right. apply in_flat_map. eauto.
Qed.

Lemma path_notin (n : nat) (t : tree) :
  ~ In n (ids t) -> path n t = None.
Proof.
  induction t as [i d|i g a ks IH|i ks IH] using tree_induction;
    simpl; intros Hn.
  - destruct (Nat.eqb_spec i n); [tauto|reflexivity].
  - destruct (Nat.eqb_spec i n); [tauto|].
    rewrite first_some_none; [reflexivity|]. intros k Hk.
    rewrite Forall_forall in IH. apply IH; [exact Hk|].
    intros Hin. apply Hn. right. apply in_flat_map. eauto.
  - destruct (Nat.eqb_spec i n); [tauto|].
    rewrite first_some_none; [reflexivity|]. intros k Hk.
    rewrite Forall_forall in IH. apply IH; [exact Hk|].
    intros Hin. apply Hn. right. apply in_flat_map. eauto.
Qed.

Lemma map_id_on {A : Type} (f : A -> A) (l : list A) :
  (forall a, In a l -> f a = a) -> List.map f l = l.
Proof.
  induction l as [|a l IH]; simpl; intros Hf; [reflexivity|].
  rewrite Hf by auto. f_equal. apply IH. auto.
Qed.

Lemma at_node_notin (n : nat) (f : tree -> tree) (t : tree) :
  ~ In n (ids t) -> at_node n f t = t.
Proof.
  induction t as [i d|i g a ks IH|i ks IH] using tree_induction;
    simpl; intros Hn.
  - destruct (Nat.eqb_spec i n); [tauto|reflexivity].
  - destruct (Nat.eqb_spec i n); [tauto|]. f_equal.
    apply map_id_on. intros k Hk.
    rewrite Forall_forall in IH. apply IH; [exact Hk|].
    intros Hin. apply Hn. right. apply in_flat_map. eauto.
  - destruct (Nat.eqb_spec i n); [tauto|]. f_equal.
    apply map_id_on. intros k Hk.
    rewrite Forall_forall in IH. apply IH; [exact Hk|].
    intros Hin. apply Hn. right. apply in_flat_map. eauto.
Qed.

Lemma subtree_root (t : tree) : subtree (nid t) t = Some t.
Proof. destruct t; simpl; rewrite Nat.eqb_refl; reflexivity. Qed.

Lemma path_root (t : tree) : path (nid t) t = Some [].
Proof. destruct t; simpl; rewrite Nat.eqb_refl; reflexivity. Qed.

Lemma at_node_root (f : tree -> tree) (t : tree) : at_node (nid t) f t = f t.
Proof. destruct t; simpl; rewrite Nat.eqb_refl; reflexivity. Qed.

Lemma at_node_at (n : nat) (f : tree -> tree) (t : tree) :
  nid t = n -> at_node n f t = f t.
Proof. intros <-. apply at_node_root. Qed.

Lemma subtree_at (n : nat) (t : tree) : nid t = n -> subtree n t = Some t.
Proof. intros <-. apply subtree_root. Qed.

Lemma path_at (n : nat) (t : tree) : nid t = n -> path n t = Some [].
Proof. intros <-. apply path_root. Qed.

Lemma notin_flat_ids (n : nat) (l : list tree) (k : tree) :
  ~ In n (flat_map ids l) -> In k l -> ~ In n (ids k).
Proof. intros Hn Hk Hin. apply Hn. apply in_flat_map. eauto. Qed.

(** Among siblings: the one that holds [n] answers. *)
Lemma first_some_sibling {B : Type} (f : nat -> tree -> option B)
  (n : nat) (l1 l2 : list tree) (x : tree) (b : B) :
  (forall t, ~ In n (ids t) -> f n t = None) ->
  ~ In n (flat_map ids l1) -> f n x = Some b ->
  first_some (f n) (l1 ++ x :: l2) = Some b.
Proof.
  intros Hf H1 Hx. rewrite first_some_app.
  - simpl. rewrite Hx. reflexivity.
  - intros t Ht. apply Hf. eapply notin_flat_ids; eauto.
Qed.

Lemma map_at_node_sibling (n : nat) (f : tree -> tree) (l1 l2 : list tree) (x : tree) :
  ~ In n (flat_map ids l1) -> ~ In n (flat_map ids l2) ->
  List.map (at_node n f) (l1 ++ x :: l2) = l1 ++ at_node n f x :: l2.
Proof.
  intros H1 H2. rewrite map_app. simpl.
  rewrite (map_id_on (at_node n f) l1).
  - rewrite (map_id_on (at_node n f) l2); [reflexivity|].
    intros t Ht. apply at_node_notin. exact (notin_flat_ids n l2 t H2 Ht).
  - intros t Ht. apply at_node_notin. exact (notin_flat_ids n l1 t H1 Ht).
Qed.

(** ** The document tree: a node under its frames *)

Lemma NoDup_app_inv {A : Type} (l1 l2 : list A) :
  NoDup (l1 ++ l2) ->
  NoDup l1 /\ NoDup l2 /\ (forall a, In a l1 -> ~ In a l2).
Proof.
  induction l1 as [|a l1 IH]; simpl; intros Hn.
  - repeat split; auto. constructor.
  - inversion Hn as [|? ? Hna Hnd]; subst.
    destruct (IH Hnd) as (N1 & N2 & D). repeat split; auto.
    + constructor; auto. intros Hin. apply Hna. apply in_or_app. auto.
    + intros b [<-|Hb] Hin; [|exact (D b Hb Hin)].
      apply Hna. apply in_or_app. auto.
Qed.

Lemma ids_plug (n : nat) (C : list frame) (x : tree) :
  In n (ids (plug C x)) -> In n (ids x) \/ In n (context_ids C).
Proof.
  revert x. induction C as [|fr C IH]; simpl; intros x Hin; [auto|].
  apply IH in Hin.
  change (context_ids (fr :: C)) with (frame_ids fr ++ context_ids C).
  unfold frame_ids. simpl. rewrite !in_app_iff.
  unfold fill in Hin. simpl in Hin.
  rewrite flat_map_app in Hin. simpl in Hin. rewrite !in_app_iff in Hin.
  tauto.
Qed.

Lemma context_ids_cons (fr : frame) (C : list frame) (n : nat) :
  ~ In n (context_ids (fr :: C)) ->
  n <> f_id fr /\ ~ In n (flat_map ids (f_left fr)) /\
  ~ In n (flat_map ids (f_right fr)) /\ ~ In n (context_ids C).
Proof.
  change (context_ids (fr :: C)) with (frame_ids fr ++ context_ids C).
  unfold frame_ids. simpl. rewrite !in_app_iff.
  intros Hn. repeat split; intros Hin; apply Hn; subst; tauto.
Qed.

Lemma subtree_fill (n : nat) (fr : frame) (x : tree) :
  n <> f_id fr -> ~ In n (flat_map ids (f_left fr)) ->
  ~ In n (flat_map ids (f_right fr)) ->
  subtree n (fill fr x) = subtree n x.
Proof.
  intros N L Rt. unfold fill. simpl.
  destruct (Nat.eqb_spec (f_id fr) n); [congruence|].
  rewrite first_some_app.
  - simpl. destruct (subtree n x); [reflexivity|].
    apply first_some_none. intros t Ht. apply subtree_notin.
    exact (notin_flat_ids n _ t Rt Ht).
  - intros t Ht. apply subtree_notin. exact (notin_flat_ids n _ t L Ht).
Qed.

Lemma subtree_plug (n : nat) (C : list frame) (x : tree) :
  ~ In n (context_ids C) -> subtree n (plug C x) = subtree n x.
Proof.
  revert x. induction C as [|fr C IH]; simpl; intros x Hn; [reflexivity|].
  apply context_ids_cons in Hn. destruct Hn as (N & L & Rt & Hc).
  rewrite IH by exact Hc. apply subtree_fill; assumption.
Qed.

Lemma path_fill (n : nat) (fr : frame) (x : tree) :
  n <> f_id fr -> ~ In n (flat_map ids (f_left fr)) ->
  ~ In n (flat_map ids (f_right fr)) ->
  path n (fill fr x) =
  match path n x with Some l => Some (l ++ [f_id fr]) | None => None end.
Proof.
  intros N L Rt. unfold fill. simpl.
  destruct (Nat.eqb_spec (f_id fr) n); [congruence|].
  rewrite first_some_app.
  - simpl. destruct (path n x); [reflexivity|].
    rewrite first_some_none; [reflexivity|].
    intros t Ht. apply path_notin. exact (notin_flat_ids n _ t Rt Ht).
  - intros t Ht. apply path_notin. exact (notin_flat_ids n _ t L Ht).
Qed.

Lemma path_plug (n : nat) (C : list frame) (x : tree) :
  ~ In n (context_ids C) ->
  path n (plug C x) =
  match path n x with
  | Some l => Some (l ++ List.map f_id C)
  | None => None
  end.
Proof.
  revert x. induction C as [|fr C IH]; simpl; intros x Hn.
  - destruct (path n x); [rewrite app_nil_r|]; reflexivity.
  - apply context_ids_cons in Hn. destruct Hn as (N & L & Rt & Hc).
    rewrite IH by exact Hc. rewrite path_fill by assumption.
    destruct (path n x); [|reflexivity].
    rewrite <- app_assoc. reflexivity.
Qed.

Lemma at_node_fill (n : nat) (f : tree -> tree) (fr : frame) (x : tree) :
  n <> f_id fr -> ~ In n (flat_map ids (f_left fr)) ->
  ~ In n (flat_map ids (f_right fr)) ->
  at_node n f (fill fr x) = fill fr (at_node n f x).
Proof.
  intros N L Rt. unfold fill. simpl.
  destruct (Nat.eqb_spec (f_id fr) n); [congruence|].
  rewrite map_at_node_sibling by assumption. reflexivity.
Qed.

Lemma at_node_plug (n : nat) (f : tree -> tree) (C : list frame) (x : tree) :
  ~ In n (context_ids C) ->
  at_node n f (plug C x) = plug C (at_node n f x).
Proof.
  revert x. induction C as [|fr C IH]; simpl; intros x Hn; [reflexivity|].
  apply context_ids_cons in Hn. destruct Hn as (N & L & Rt & Hc).
  rewrite IH by exact Hc. rewrite at_node_fill by assumption. reflexivity.
Qed.

(** Serialization does not look at the ids. *)
Lemma serialize_plug (C : list frame) (x y : tree) :
  (forall raw, serialize raw x = serialize raw y) ->
  forall raw, serialize raw (plug C x) = serialize raw (plug C y).
Proof.
  revert x y. induction C as [|fr C IH]; simpl; intros x y Hxy; [exact Hxy|].
  apply IH. intros raw. unfold fill. simpl.
  rewrite !flat_map_app. simpl. rewrite Hxy. reflexivity.
Qed.

Lemma inner_fill (fr : frame) (x y : tree) :
  (forall raw, serialize raw x = serialize raw y) ->
  inner (fill fr x) = inner (fill fr y).
Proof.
  intros Hxy. unfold fill, inner. rewrite !flat_map_app. simpl.
  rewrite Hxy. reflexivity.
Qed.

(** ** The document tree: looking up and changing a node of a world *)

Lemma notin_plug (n : nat) (C : list frame) (x : tree) :
  ~ In n (ids x) -> ~ In n (context_ids C) -> ~ In n (ids (plug C x)).
Proof. intros Hx Hc Hin. apply ids_plug in Hin. tauto. Qed.

Lemma dom_find_doc (w : Dom) (C : list frame) (x y : tree) (n : nat) :
  document w = plug C x -> ~ In n (context_ids C) ->
  subtree n x = Some y -> dom_find w n = Some y.
Proof.
  intros Hd Hc Hx. unfold dom_find, forest. simpl.
  rewrite Hd, subtree_plug, Hx by exact Hc. reflexivity.
Qed.

Lemma dom_ancestors_doc (w : Dom) (C : list frame) (x : tree) (n : nat) (l : list nat) :
  document w = plug C x -> ~ In n (context_ids C) ->
  path n x = Some l -> dom_ancestors w n = l ++ List.map f_id C.
Proof.
  intros Hd Hc Hx. unfold dom_ancestors, forest. simpl.
  rewrite Hd, path_plug, Hx by exact Hc. reflexivity.
Qed.

Lemma dom_update_doc (w : Dom) (C : list frame) (x : tree) (n : nat) (f : tree -> tree) :
  document w = plug C x -> ~ In n (context_ids C) ->
  ~ In n (flat_map ids (detached w)) ->
  dom_update w n f = with_trees w (plug C (at_node n f x)) (detached w).
Proof.
  intros Hd Hc Hds. unfold dom_update.
  rewrite Hd, at_node_plug by exact Hc. f_equal.
  apply map_id_on. intros t Ht. apply at_node_notin.
  exact (notin_flat_ids n _ t Hds Ht).
Qed.

Lemma dom_find_detached (w : Dom) (l1 l2 : list tree) (y z : tree) (n : nat) :
  detached w = l1 ++ y :: l2 -> ~ In n (ids (document w)) ->
  ~ In n (flat_map ids l1) -> subtree n y = Some z ->
  dom_find w n = Some z.
Proof.
  intros Hd Hdoc H1 Hy. unfold dom_find, forest. simpl.
  rewrite (subtree_notin n _ Hdoc), Hd.
  apply first_some_sibling; auto using subtree_notin.
Qed.

Lemma dom_ancestors_detached (w : Dom) (l1 l2 : list tree) (y : tree) (n : nat) (l : list nat) :
  detached w = l1 ++ y :: l2 -> ~ In n (ids (document w)) ->
  ~ In n (flat_map ids l1) -> path n y = Some l ->
  dom_ancestors w n = l.
Proof.
  intros Hd Hdoc H1 Hy. unfold dom_ancestors, forest. simpl.
  rewrite (path_notin n _ Hdoc), Hd.
  rewrite (first_some_sibling path n l1 l2 y l); auto using path_notin.
Qed.

Lemma dom_update_detached (w : Dom) (l1 l2 : list tree) (y : tree) (n : nat) (f : tree -> tree) :
  detached w = l1 ++ y :: l2 -> ~ In n (ids (document w)) ->
  ~ In n (flat_map ids l1) -> ~ In n (flat_map ids l2) ->
  dom_update w n f = with_trees w (document w) (l1 ++ at_node n f y :: l2).
Proof.
  intros Hd Hdoc H1 H2. unfold dom_update.
  rewrite (at_node_notin n f _ Hdoc), Hd, map_at_node_sibling by assumption.
  reflexivity.
Qed.

(** The ranges of a world. *)
Lemma find_map_snd {A : Type} (g : A -> A) (r : nat) (l : list (nat * A)) :
  List.find (fun x => Nat.eqb (fst x) r) (List.map (fun x => (fst x, g (snd x))) l)
  = match List.find (fun x => Nat.eqb (fst x) r) l with
    | Some x => Some (fst x, g (snd x))
    | None => None
    end.
Proof.
  induction l as [|x l IH]; simpl; [reflexivity|].
  destruct (Nat.eqb (fst x) r); [reflexivity|exact IH].
Qed.

Lemma dom_range_move (w : Dom) (f : boundary -> boundary) (r : nat) :
  dom_range (move_boundaries w f) r =
  match dom_range w r with
  | Some (a, b) => Some (f a, f b)
  | None => None
  end.
Proof.
  unfold dom_range, move_boundaries. simpl.
  rewrite (find_map_snd (fun p => (f (fst p), f (snd p)))).
  destruct (List.find _ (ranges w)) as [[i [a b]]|]; reflexivity.
Qed.

Lemma dom_range_set (w : Dom) (r : nat) (b b0 : boundary * boundary) :
  dom_range w r = Some b0 -> dom_range (set_range w r b) r = Some b.
Proof.
  unfold dom_range, set_range. simpl.
  induction (ranges w) as [|x l IH]; simpl; [discriminate|].
  destruct (Nat.eqb (fst x) r) eqn:E; simpl.
  - rewrite Nat.eqb_refl. reflexivity.
  - rewrite E. exact IH.
Qed.

Lemma dom_range_in (w : Dom) (r : nat) (b : boundary * boundary) :
  dom_range w r = Some b -> In r (List.map fst (ranges w)).
Proof.
  unfold dom_range.
  destruct (List.find _ (ranges w)) as [x|] eqn:E; [|discriminate].
  intros _. apply find_some in E. destruct E as [Hin E].
  apply Nat.eqb_eq in E. subst r. apply in_map. exact Hin.
Qed.

Lemma dom_range_set_in (w : Dom) (r : nat) (b : boundary * boundary) :
  In r (List.map fst (ranges w)) -> dom_range (set_range w r b) r = Some b.
Proof.
  unfold dom_range, set_range. simpl.
  induction (ranges w) as [|x l IH]; simpl; [tauto|].
  intros Hin. destruct (Nat.eqb_spec (fst x) r) as [E|E]; simpl.
  - rewrite Nat.eqb_refl. reflexivity.
  - destruct (Nat.eqb_spec (fst x) r); [congruence|].
    apply IH. destruct Hin; [congruence|assumption].
Qed.

Lemma dom_range_new (w : Dom) (b : boundary * boundary) :
  (forall x, In x (ranges w) -> (fst x < List.length (ranges w))%nat) ->
  dom_range (with_ranges w (ranges w ++ [(List.length (ranges w), b)]))
            (List.length (ranges w)) = Some b.
Proof.
  intros Hlt. unfold dom_range. simpl.
  set (n := List.length (ranges w)) in *. clearbody n.
  induction (ranges w) as [|x l IH]; simpl.
  - rewrite Nat.eqb_refl. reflexivity.
  - destruct (Nat.eqb_spec (fst x) n) as [E|E].
    + specialize (Hlt x (or_introl eq_refl)). lia.
    + apply IH. intros y Hy. apply Hlt. right. exact Hy.
Qed.

Lemma dom_commonAncestor_same (w : Dom) (n : nat) : dom_commonAncestor w n n = n.
Proof.
  unfold dom_commonAncestor, dom_contains. simpl.
  rewrite Nat.eqb_refl. reflexivity.
Qed.

Lemma existsb_eqb_In (n : nat) (l : list nat) :
  In n l -> existsb (Nat.eqb n) l = true.
Proof.
  intros Hin. apply existsb_exists. exists n. split; [exact Hin|].
  apply Nat.eqb_refl.
Qed.

Lemma existsb_eqb_notin (n : nat) (l : list nat) :
  ~ In n l -> existsb (Nat.eqb n) l = false.
Proof.
  intros Hn. apply not_true_is_false. intros E.
  apply existsb_exists in E. destruct E as (m & Hm & E).
  apply Nat.eqb_eq in E. subst. auto.
Qed.

(** ** Children by id *)

Lemma notin_nids (c : nat) (l : list tree) :
  ~ In c (flat_map ids l) -> ~ In c (List.map nid l).
Proof.
  intros Hn Hin. apply in_map_iff in Hin. destruct Hin as (x & <- & Hx).
  apply Hn. apply in_flat_map. exists x. split; [exact Hx|apply nid_in_ids].
Qed.

Lemma index_of_sibling (c : nat) (l1 l2 : list tree) (x : tree) :
  ~ In c (List.map nid l1) -> nid x = c ->
  index_of c (l1 ++ x :: l2) = Some (List.length l1).
Proof.
  intros Hn Hx. induction l1 as [|y l1 IH]; simpl.
  - rewrite Hx, Nat.eqb_refl. reflexivity.
  - simpl in Hn. destruct (Nat.eqb_spec (nid y) c); [tauto|].
    rewrite IH by tauto. reflexivity.
Qed.

Lemma remove_kid_sibling (c : nat) (l1 l2 : list tree) (x : tree) :
  ~ In c (List.map nid l1) -> nid x = c ->
  remove_kid c (l1 ++ x :: l2) = l1 ++ l2.
Proof.
  intros Hn Hx. induction l1 as [|y l1 IH]; simpl.
  - rewrite Hx, Nat.eqb_refl. reflexivity.
  - simpl in Hn. destruct (Nat.eqb_spec (nid y) c); [tauto|].
    rewrite IH by tauto. reflexivity.
Qed.

Lemma root_sibling (c : nat) (l1 l2 : list tree) (x : tree) :
  ~ In c (List.map nid l1) -> nid x = c ->
  first_some (fun t => if Nat.eqb (nid t) c then Some t else None)
             (l1 ++ x :: l2) = Some x.
Proof.
  intros Hn Hx. induction l1 as [|y l1 IH]; simpl.
  - rewrite Hx, Nat.eqb_refl. reflexivity.
  - simpl in Hn. destruct (Nat.eqb_spec (nid y) c); [tauto|].
    apply IH. tauto.
Qed.

Lemma insert_at_length (l1 l2 new : list tree) :
  insert_at (List.length l1) new (l1 ++ l2) = l1 ++ new ++ l2.
Proof.
  unfold insert_at.
  rewrite firstn_app, Nat.sub_diag, firstn_all, skipn_app, Nat.sub_diag,
    skipn_all. simpl. rewrite app_nil_r. reflexivity.
Qed.

Lemma take_one (l1 l2 : list tree) (x : tree) :
  firstn (S (List.length l1) - List.length l1)
         (skipn (List.length l1) (l1 ++ x :: l2)) = [x] /\
  firstn (List.length l1) (l1 ++ x :: l2) ++
  skipn (S (List.length l1)) (l1 ++ x :: l2) = l1 ++ l2.
Proof.
  replace (S (List.length l1) - List.length l1)%nat with 1%nat by lia.
  split.
  - rewrite skipn_app, Nat.sub_diag, skipn_all. reflexivity.
  - rewrite firstn_app, Nat.sub_diag, firstn_all.
    rewrite skipn_app, skipn_all2 by lia.
    replace (S (List.length l1) - List.length l1)%nat with 1%nat by lia.
    simpl. rewrite app_nil_r. reflexivity.
Qed.

Lemma take_all (l : list tree) :
  firstn (List.length l - 0) (skipn 0 l) = l /\
  firstn 0 l ++ skipn (List.length l) l = [].
Proof.
  split.
  - rewrite Nat.sub_0_r. simpl. apply firstn_all.
  - simpl. apply skipn_all.
Qed.

Lemma range_ids_move (w : Dom) (f : boundary -> boundary) :
  range_ids (move_boundaries w f) = range_ids w.
Proof.
  unfold range_ids, move_boundaries. simpl. rewrite map_map. reflexivity.
Qed.

Lemma range_ids_set (w : Dom) (r : nat) (b : boundary * boundary) :
  range_ids (set_range w r b) = range_ids w.
Proof.
  unfold range_ids, set_range. simpl. rewrite map_map.
  apply map_ext. intros x. destruct (Nat.eqb_spec (fst x) r); simpl; auto.
Qed.

(** ** Taking children out and putting children in *)

Lemma take_children_effect (w w1 : Dom) (n i j : nat) (x : tree) :
  dom_find w n = Some x ->
  dom_update w n (set_kids (firstn i (kids x) ++ skipn j (kids x))) = w1 ->
  let gone := firstn (j - i) (skipn i (kids x)) in
  exists w',
    take_children w n i j = Some (gone, w') /\
    document w' = document w1 /\ detached w' = detached w1 /\
    next_id w' = next_id w /\ selected w' = selected w /\
    range_ids w' = range_ids w /\
    (forall r a b, dom_range w r = Some (a, b) ->
                   untouched n gone a -> untouched n gone b ->
                   dom_range w' r = Some (a, b)).
Proof.
  intros Hf Hu gone. unfold take_children. rewrite Hf. fold gone.
  rewrite Hu. eexists. split; [reflexivity|].
  repeat split; try (subst w1; reflexivity).
  - rewrite range_ids_move. subst w1. reflexivity.
  - intros r a b Hr [A1 A2] [B1 B2]. rewrite dom_range_move.
    replace (dom_range w1 r) with (dom_range w r) by (subst w1; reflexivity).
    rewrite Hr. unfold mem.
    rewrite (existsb_eqb_notin _ _ A2), (existsb_eqb_notin _ _ B2).
    destruct (Nat.eqb_spec (b_node a) n); [congruence|].
    destruct (Nat.eqb_spec (b_node b) n); [congruence|]. reflexivity.
Qed.

Lemma put_children_effect (w w1 : Dom) (p i : nat) (new : list tree) :
  dom_update w p (fun t => set_kids (insert_at i new (kids t)) t) = w1 ->
  document (put_children w p i new) = document w1 /\
  detached (put_children w p i new) = detached w1 /\
  next_id (put_children w p i new) = next_id w /\
  selected (put_children w p i new) = selected w /\
  range_ids (put_children w p i new) = range_ids w /\
  (forall r a b, dom_range w r = Some (a, b) ->
                 b_node a <> p \/ (b_off a <= i)%nat ->
                 b_node b <> p \/ (b_off b <= i)%nat ->
                 dom_range (put_children w p i new) r = Some (a, b)).
Proof.
  intros Hu. unfold put_children. rewrite Hu.
  repeat split; try (subst w1; reflexivity).
  - rewrite range_ids_move. subst w1. reflexivity.
  - intros r a b Hr Ha Hb. rewrite dom_range_move.
    replace (dom_range w1 r) with (dom_range w r) by (subst w1; reflexivity).
    rewrite Hr.
    assert (Ea : Nat.eqb (b_node a) p && Nat.ltb i (b_off a) = false).
    { destruct (Nat.eqb_spec (b_node a) p); simpl; [|reflexivity].
      apply Nat.ltb_ge. destruct Ha; [congruence|assumption]. }
    assert (Eb : Nat.eqb (b_node b) p && Nat.ltb i (b_off b) = false).
    { destruct (Nat.eqb_spec (b_node b) p); simpl; [|reflexivity].
      apply Nat.ltb_ge. destruct Hb; [congruence|assumption]. }
    rewrite Ea, Eb. reflexivity.
Qed.

Lemma f_id_in_context (n : nat) (D : list frame) :
  In n (List.map f_id D) -> In n (context_ids D).
Proof.
  intros Hin. apply in_map_iff in Hin. destruct Hin as (f & <- & Hf).
  apply in_flat_map. exists f. split; [exact Hf|]. left. reflexivity.
Qed.

Lemma boundary_eqb_refl (b : boundary) : boundary_eqb b b = true.
Proof. unfold boundary_eqb. rewrite !Nat.eqb_refl. reflexivity. Qed.

(** ** The markup of an element above a changed node *)

Lemma plug_app (D1 D2 : list frame) (x : tree) :
  plug (D1 ++ D2) x = plug D2 (plug D1 x).
Proof.
  revert x. induction D1 as [|f D1 IH]; simpl; intros x; [reflexivity|].
  apply IH.
Qed.

(** Two documents that differ in one node, whose markup is the same in
    both: every element above that node has the same inner markup. *)
Lemma innerHTML_plug (w w' : Dom) (D : list frame) (x y : tree) (editor : nat) :
  NoDup (context_ids D) -> In editor (List.map f_id D) ->
  (forall raw, serialize raw x = serialize raw y) ->
  document w = plug D x -> document w' = plug D y ->
  innerHTML w' editor = innerHTML w editor.
Proof.
  intros Hn Hin Hxy Hd Hd'.
  apply in_map_iff in Hin. destruct Hin as (fe & Hfe & Hin).
  apply in_split in Hin. destruct Hin as (D1 & D2 & ->).
  unfold context_ids in Hn. rewrite flat_map_app in Hn.
  apply NoDup_app_inv in Hn. destruct Hn as (_ & Hn & _).
  change (flat_map frame_ids (fe :: D2))
    with (frame_ids fe ++ context_ids D2) in Hn.
  apply NoDup_app_inv in Hn. destruct Hn as (_ & _ & Hdis).
  assert (He : ~ In editor (context_ids D2)).
  { apply Hdis. left. exact Hfe. }
  rewrite plug_app in Hd, Hd'. cbn [plug] in Hd, Hd'.
  cbn [innerHTML domHost].
  rewrite (dom_find_doc w D2 _ _ editor Hd He
             (subtree_at editor (fill fe (plug D1 x)) Hfe)).
  rewrite (dom_find_doc w' D2 _ _ editor Hd' He
             (subtree_at editor (fill fe (plug D1 y)) Hfe)).
  symmetry. apply inner_fill. apply serialize_plug. exact Hxy.
Qed.

(** ** Toggling a format twice: the two runs, step by step *)

Section ToggleTwice.

Context {R : Runtime}.

Variables (k : toggle) (fr : frame) (C' : list frame).
Variables (s nx : nat) (cs ds : list tree).

(** The span, the span emptied, the new wrapper empty and filled, the
    fragment filled and emptied, and the span around the new wrapper. *)
Let t : jsstring := toggle_tag k.
Let C : list frame := fr :: C'.
Let P : nat := f_id fr.
Let Sp : tree := Elem s t [] cs.
Let S0 : tree := Elem s t [] [].
Let N0 : tree := Elem nx t [] [].
Let Nw : tree := Elem nx t [] cs.
Let Fc : tree := Frag (S nx) cs.
Let F0 : tree := Frag (S nx) [].
Let S1 : tree := Elem s t [] [Nw].
Let b0 : boundary := {| b_node := s; b_off := 0 |}.
Let bn : boundary := {| b_node := s; b_off := List.length cs |}.

Hypothesis U : NoDup (ids Sp ++ context_ids C ++ flat_map ids ds).
Hypothesis B :
  forall n, In n (ids Sp ++ context_ids C ++ flat_map ids ds) -> (n < nx)%nat.

Lemma lt_s : (s < nx)%nat.
Proof. apply B. left. reflexivity. Qed.

Lemma lt_cs (n : nat) : In n (flat_map ids cs) -> (n < nx)%nat.
Proof. intros Hin. apply B. simpl. right. apply in_or_app. auto. Qed.

Lemma lt_C (n : nat) : In n (context_ids C) -> (n < nx)%nat.
Proof.
  intros Hin. apply B. apply in_or_app. right. apply in_or_app. auto.
Qed.

Lemma lt_ds (n : nat) : In n (flat_map ids ds) -> (n < nx)%nat.
Proof.
  intros Hin. apply B. apply in_or_app. right. apply in_or_app. auto.
Qed.

Lemma s_cs : ~ In s (flat_map ids cs).
Proof.
  apply NoDup_app_inv in U. destruct U as (U1 & _ & _).
  inversion U1; assumption.
Qed.

Lemma s_C : ~ In s (context_ids C).
Proof.
  apply NoDup_app_inv in U. destruct U as (_ & _ & D).
  intros Hin. apply (D s); [left; reflexivity|]. apply in_or_app. auto.
Qed.

Lemma s_ds : ~ In s (flat_map ids ds).
Proof.
  apply NoDup_app_inv in U. destruct U as (_ & _ & D).
  intros Hin. apply (D s); [left; reflexivity|]. apply in_or_app. auto.
Qed.

Lemma NoDup_C : NoDup (context_ids C).
Proof.
  apply NoDup_app_inv in U. destruct U as (_ & U2 & _).
  apply NoDup_app_inv in U2. tauto.
Qed.

Lemma P_in_C : In P (context_ids C).
Proof. left. reflexivity. Qed.

Lemma P_lt : (P < nx)%nat.
Proof. apply lt_C, P_in_C. Qed.

Lemma P_s : P <> s.
Proof. intros E. apply s_C. rewrite <- E. apply P_in_C. Qed.

Lemma P_cs : ~ In P (flat_map ids cs).
Proof.
  apply NoDup_app_inv in U. destruct U as (_ & _ & D).
  intros Hin. apply (D P); [right; exact Hin|].
  apply in_or_app. left. apply P_in_C.
Qed.

Lemma P_ds : ~ In P (flat_map ids ds).
Proof.
  apply NoDup_app_inv in U. destruct U as (_ & U2 & _).
  apply NoDup_app_inv in U2. destruct U2 as (_ & _ & D).
  apply D, P_in_C.
Qed.

Lemma P_siblings :
  ~ In P (flat_map ids (f_left fr)) /\ ~ In P (flat_map ids (f_right fr)) /\
  ~ In P (context_ids C').
Proof.
  pose proof NoDup_C as Hn.
  change (context_ids C) with (frame_ids fr ++ context_ids C') in Hn.
  apply NoDup_app_inv in Hn. destruct Hn as (N1 & _ & D).
  unfold frame_ids in N1. inversion N1 as [|? ? Hna _]; subst.
  rewrite in_app_iff in Hna. repeat split; try tauto.
  apply D. left. reflexivity.
Qed.

Lemma s_siblings :
  ~ In s (flat_map ids (f_left fr)) /\ ~ In s (flat_map ids (f_right fr)) /\
  ~ In s (context_ids C').
Proof.
  pose proof s_C as Hs. apply context_ids_cons in Hs. tauto.
Qed.

Lemma nx_doc (x : tree) (D : list frame) :
  (forall n, In n (ids x) -> (n < nx)%nat) ->
  (forall n, In n (context_ids D) -> (n < nx)%nat) ->
  forall m, (nx <= m)%nat -> ~ In m (ids (plug D x)).
Proof.
  intros Hx HD m Hm Hin. apply ids_plug in Hin.
  destruct Hin as [Hin|Hin]; [apply Hx in Hin|apply HD in Hin]; lia.
Qed.

Lemma nx_ds (m : nat) : (nx <= m)%nat -> ~ In m (flat_map ids ds).
Proof. intros Hm Hin. apply lt_ds in Hin. lia. Qed.

Lemma nx_C (m : nat) : (nx <= m)%nat -> ~ In m (context_ids C).
Proof. intros Hm Hin. apply lt_C in Hin. lia. Qed.

Lemma nx_cs (m : nat) : (nx <= m)%nat -> ~ In m (flat_map ids cs).
Proof. intros Hm Hin. apply lt_cs in Hin. lia. Qed.

(** The tag of a toggle command is in lower case, and an upper-case tag
    name compares equal to it. *)
Lemma toggle_tag_lower : List.map lower_ascii t = t.
Proof. unfold t. destruct k; reflexivity. Qed.

Lemma toggle_tag_matches :
  jsstring_eqb (toLowerCase (List.map upper_ascii t)) (toLowerCase t) = true.
Proof.
  unfold t. destruct k; rewrite !toLowerCase_ascii by reflexivity; reflexivity.
Qed.


(** *** The first run: the content of the span is wrapped once more *)

Ltac notin_facts :=
  pose proof s_ds; pose proof s_cs; pose proof s_C; pose proof lt_s;
  pose proof P_lt; pose proof P_s; pose proof P_cs; pose proof P_ds;
  pose proof P_siblings; pose proof s_siblings;
  pose proof (nx_ds nx (le_n nx)); pose proof (nx_ds (S nx) (le_S _ _ (le_n nx)));
  pose proof (nx_C nx (le_n nx)); pose proof (nx_C (S nx) (le_S _ _ (le_n nx)));
  pose proof (nx_cs nx (le_n nx)); pose proof (nx_cs (S nx) (le_S _ _ (le_n nx))).

(** A goal [~ In n l] for a list put together from the pieces above. *)
Ltac notin :=
  let Hin := fresh "Hin" in
  intros Hin;
  unfold Sp, S0, N0, Nw, Fc, F0, S1 in Hin;
  rewrite ?flat_map_app, ?in_app_iff in Hin;
  cbn [flat_map ids In app nid List.map] in Hin;
  rewrite ?in_app_iff, ?app_nil_r in Hin;
  cbn [In] in Hin;
  notin_facts; intuition (try lia).

Lemma step_extract (w : Dom) (r0 : nat) :
  shaped w (plug C Sp) (ds ++ [N0]) (S nx) ->
  dom_range w r0 = Some (b0, bn) -> cs <> [] ->
  exists w',
    dom_extractContents r0 w = Val (S nx) w' /\
    shaped w' (plug C S0) (ds ++ [N0; Fc]) (S (S nx)) /\
    selected w' = selected w /\ range_ids w' = range_ids w /\
    dom_range w' r0 = Some (b0, b0).
Proof.
  intros (Hd & Hdl & Hn) Hr Hcs.
  assert (Hne : boundary_eqb b0 bn = false).
  { unfold boundary_eqb, b0, bn. cbn [b_node b_off]. rewrite Nat.eqb_refl.
    destruct cs; [congruence|reflexivity]. }
  assert (Hf : dom_find (fresh w) s = Some Sp).
  { apply (dom_find_doc _ C Sp); [exact Hd|apply s_C|].
    apply subtree_at. reflexivity. }
  assert (Hk : set_kids (firstn 0 (kids Sp) ++ skipn (List.length cs) (kids Sp)) Sp
               = S0).
  { cbn [kids Sp firstn app set_kids]. rewrite skipn_all. reflexivity. }
  assert (Hu : dom_update (fresh w) s
                 (set_kids (firstn 0 (kids Sp) ++ skipn (List.length cs) (kids Sp)))
               = with_trees (fresh w) (plug C S0) (ds ++ [N0])).
  { rewrite (dom_update_doc _ C Sp); [|exact Hd|apply s_C|].
    - rewrite at_node_at, Hk by reflexivity.
      change (detached (fresh w)) with (detached w). rewrite Hdl. reflexivity.
    - change (detached (fresh w)) with (detached w). rewrite Hdl. notin. }
  destruct (take_children_effect _ _ s 0 (List.length cs) Sp Hf Hu)
    as (w' & Ht & T1 & T2 & T3 & T4 & T5 & T6).
  destruct (take_all cs) as [Hall _].
  change (kids Sp) with cs in Ht. rewrite Hall in Ht.
  unfold dom_extractContents. rewrite Hr, Hne.
  cbn [b_node b_off b0 bn]. rewrite Nat.eqb_refl, Hf.
  unfold Sp at 1. rewrite Ht, Hn.
  eexists. split; [reflexivity|]. split; [|split; [|split]].
  - unfold shaped, set_range, add_root, with_ranges, with_trees.
    cbn [document detached next_id]. rewrite T1, T2, T3.
    unfold with_trees, fresh. cbn [document detached next_id].
    rewrite Hn, <- app_assoc. auto.
  - exact T4.
  - rewrite range_ids_set. exact T5.
  - apply dom_range_set_in.
    change (List.map fst (ranges (add_root (Frag (S nx) cs) w')))
      with (range_ids w').
    rewrite T5. exact (dom_range_in _ _ _ Hr).
Qed.

Lemma nx_document (w : Dom) (x : tree) (m : nat) :
  document w = plug C x ->
  (forall n, In n (ids x) -> (n < nx)%nat) -> (nx <= m)%nat ->
  ~ In m (ids (document w)).
Proof.
  intros Hd Hx Hm. rewrite Hd. apply nx_doc; auto using lt_C.
Qed.

Lemma S0_lt (n : nat) : In n (ids S0) -> (n < nx)%nat.
Proof. intros [<-|[]]. apply lt_s. Qed.

Lemma step_append (w : Dom) (r0 : nat) :
  shaped w (plug C S0) (ds ++ [N0; Fc]) (S (S nx)) ->
  dom_range w r0 = Some (b0, b0) ->
  exists w',
    dom_appendChild nx (S nx) w = Val tt w' /\
    shaped w' (plug C S0) (ds ++ [Nw; F0]) (S (S nx)) /\
    selected w' = selected w /\ range_ids w' = range_ids w /\
    dom_range w' r0 = Some (b0, b0).
Proof.
  intros (Hd & Hdl & Hn) Hr.
  pose proof (nx_document w S0 nx Hd S0_lt (le_n nx)) as Dnx.
  pose proof (nx_document w S0 (S nx) Hd S0_lt (le_S _ _ (le_n nx))) as Dsnx.
  assert (HfN : dom_find w nx = Some N0).
  { apply (dom_find_detached w ds [Fc] N0); [exact Hdl|exact Dnx|notin|].
    apply subtree_at. reflexivity. }
  assert (HfF : dom_find w (S nx) = Some Fc).
  { apply (dom_find_detached w (ds ++ [N0]) [] Fc);
      [rewrite Hdl, <- app_assoc; reflexivity|exact Dsnx|notin|].
    apply subtree_at. reflexivity. }
  assert (Hanc : dom_ancestors w nx = []).
  { apply (dom_ancestors_detached w ds [Fc] N0); [exact Hdl|exact Dnx|notin|].
    apply path_at. reflexivity. }
  assert (Hcont : dom_contains w (S nx) nx = false).
  { unfold dom_contains. rewrite Hanc. cbn [existsb].
    destruct (Nat.eqb_spec (S nx) nx); [lia|reflexivity]. }
  assert (Hu : dom_update w (S nx)
                 (set_kids (firstn 0 (kids Fc) ++ skipn (List.length cs) (kids Fc)))
               = with_trees w (document w) (ds ++ [N0; F0])).
  { rewrite (dom_update_detached w (ds ++ [N0]) [] Fc);
      [|rewrite Hdl, <- app_assoc; reflexivity|exact Dsnx|notin|notin].
    rewrite at_node_at by reflexivity.
    cbn [kids Fc firstn app set_kids]. rewrite skipn_all, <- app_assoc.
    reflexivity. }
  destruct (take_children_effect _ _ (S nx) 0 (List.length cs) Fc HfF Hu)
    as (w1 & Ht & T1 & T2 & T3 & T4 & T5 & T6).
  destruct (take_all cs) as [Hall _].
  change (kids Fc) with cs in Ht, T6. rewrite Hall in Ht, T6.
  assert (Hu2 : dom_update w1 nx (fun x => set_kids (insert_at 0 cs (kids x)) x)
                = with_trees w1 (document w1) (ds ++ [Nw; F0])).
  { rewrite (dom_update_detached w1 ds [F0] N0);
      [|exact T2|rewrite T1; exact Dnx|notin|notin].
    rewrite at_node_at by reflexivity.
    unfold insert_at. cbn [kids N0 firstn skipn app set_kids].
    rewrite app_nil_r. reflexivity. }
  destruct (put_children_effect w1 _ nx 0 cs Hu2) as (Q1 & Q2 & Q3 & Q4 & Q5 & Q6).
  unfold dom_appendChild. rewrite HfN, HfF. unfold Fc at 1.
  cbn [is_container N0 negb orb]. rewrite Hcont.
  rewrite Ht. cbn [kids N0 List.length].
  eexists. split; [reflexivity|]. split; [|split; [|split]].
  - unfold shaped. rewrite Q1, Q2, Q3, T3. cbn [with_trees document detached].
    rewrite T1. auto.
  - rewrite Q4. exact T4.
  - rewrite Q5. exact T5.
  - apply Q6; [|left; cbn [b_node b0]; pose proof lt_s; lia
                |left; cbn [b_node b0]; pose proof lt_s; lia].
    apply T6; [exact Hr| |]; split; cbn [b_node b0];
      pose proof lt_s; pose proof s_cs; auto; lia.
Qed.

Lemma nx_frames (m : nat) : (nx <= m)%nat -> ~ In m (List.map f_id C).
Proof. intros Hm Hin. apply f_id_in_context, lt_C in Hin. lia. Qed.

Lemma step_insertNode (w : Dom) (r0 : nat) :
  shaped w (plug C S0) (ds ++ [Nw; F0]) (S (S nx)) ->
  dom_range w r0 = Some (b0, b0) ->
  exists w',
    dom_insertNode r0 (Some nx) w = Val tt w' /\
    shaped w' (plug C S1) (ds ++ [F0]) (S (S nx)) /\
    selected w' = selected w /\ range_ids w' = range_ids w.
Proof.
  intros (Hd & Hdl & Hn) Hr.
  pose proof (nx_document w S0 nx Hd S0_lt (le_n nx)) as Dnx.
  assert (Hfs : dom_find w s = Some S0).
  { apply (dom_find_doc _ C S0); [exact Hd|apply s_C|].
    apply subtree_at. reflexivity. }
  assert (HfN : dom_find w nx = Some Nw).
  { apply (dom_find_detached w ds [F0] Nw); [exact Hdl|exact Dnx|notin|].
    apply subtree_at. reflexivity. }
  assert (Hpar : dom_parent w nx = None).
  { unfold dom_parent.
    rewrite (dom_ancestors_detached w ds [F0] Nw nx []);
      [reflexivity|exact Hdl|exact Dnx|notin|].
    apply path_at. reflexivity. }
  assert (Hcont : dom_contains w nx s = false).
  { unfold dom_contains.
    rewrite (dom_ancestors_doc w C S0 s []);
      [|exact Hd|apply s_C|apply path_at; reflexivity].
    cbn [app]. rewrite (existsb_eqb_notin _ _ (nx_frames nx (le_n nx))).
    pose proof lt_s. destruct (Nat.eqb_spec nx s); [lia|reflexivity]. }
  assert (Hroot : first_some (fun x => if Nat.eqb (nid x) nx then Some x else None)
                    (detached w) = Some Nw).
  { rewrite Hdl. apply root_sibling; [|reflexivity].
    apply notin_nids. notin. }
  assert (Hu : dom_update (drop_root nx w) s
                 (fun x => set_kids (insert_at 0 [Nw] (kids x)) x)
               = with_trees w (plug C S1) (ds ++ [F0])).
  { assert (Hdrop : detached (drop_root nx w) = ds ++ [F0]).
    { unfold drop_root. cbn [with_trees detached]. rewrite Hdl.
      apply remove_kid_sibling; [|reflexivity]. apply notin_nids. notin. }
    rewrite (dom_update_doc _ C S0); [|exact Hd|apply s_C|rewrite Hdrop; notin].
    rewrite at_node_at, Hdrop by reflexivity. reflexivity. }
  destruct (put_children_effect _ _ s 0 [Nw] Hu) as (Q1 & Q2 & Q3 & Q4 & Q5 & Q6).
  unfold dom_insertNode. rewrite Hr. cbn [b_node b_off b0].
  rewrite Hfs, HfN, Hpar.
  pose proof lt_s. destruct (Nat.eqb_spec s nx); [lia|].
  unfold Nw at 1, S0 at 1. rewrite Hcont. cbn [kids List.length Nat.min].
  unfold dom_attach. rewrite Hroot. rewrite boundary_eqb_refl.
  eexists. split; [reflexivity|]. split; [|split].
  - unfold shaped, set_range, with_ranges. cbn [document detached next_id].
    rewrite Q1, Q2, Q3. auto.
  - unfold set_range, with_ranges. cbn [selected]. rewrite Q4. reflexivity.
  - rewrite range_ids_set, Q5. reflexivity.
Qed.

Lemma editor_above (w : Dom) (x : tree) (l : list nat) (editor n : nat) :
  document w = plug C x -> ~ In n (context_ids C) -> path n x = Some l ->
  In editor (List.map f_id C) -> dom_contains w editor n = true.
Proof.
  intros Hd Hn Hp He. unfold dom_contains.
  rewrite (dom_ancestors_doc w C x n l Hd Hn Hp).
  rewrite (existsb_eqb_In editor); [apply orb_true_r|].
  apply in_or_app. auto.
Qed.

Lemma find_P (w : Dom) (x : tree) :
  document w = plug C x -> dom_find w P = Some (fill fr x).
Proof.
  intros Hd. apply (dom_find_doc w C' (fill fr x));
    [exact Hd|apply P_siblings|apply subtree_at; reflexivity].
Qed.

Lemma ancestors_P (w : Dom) (x : tree) :
  document w = plug C x -> dom_ancestors w P = List.map f_id C'.
Proof.
  intros Hd. apply (dom_ancestors_doc w C' (fill fr x) P []);
    [exact Hd|apply P_siblings|apply path_at; reflexivity].
Qed.

(** The reads on a node [n] that sits just below [P]. *)
Lemma below_P (w : Dom) (x : tree) (n : nat) :
  document w = plug C x -> nid x = n -> ~ In n (context_ids C) ->
  parentNode w n = Some P /\ parentElement w n = Some P /\
  tagName w P = List.map upper_ascii (f_tag fr).
Proof.
  intros Hd Hx Hn.
  assert (Hp : parentNode w n = Some P).
  { unfold parentNode. cbn [ancestors domHost].
    rewrite (dom_ancestors_doc w C x n [] Hd Hn (path_at n x Hx)).
    reflexivity. }
  split; [exact Hp|]. unfold parentElement. rewrite Hp.
  cbn [isElement tagName domHost]. rewrite (find_P w x Hd). auto.
Qed.

Lemma Nw_in_S1 : subtree nx S1 = Some Nw /\ path nx S1 = Some [s].
Proof.
  pose proof lt_s as Hs. cbn.
  destruct (Nat.eqb_spec s nx) as [E|_]; [lia|].
  rewrite Nat.eqb_refl. split; reflexivity.
Qed.

Lemma wrap_run (st : Editor nat Dom) (editor r0 : nat) :
  editorRef st = Some editor -> In editor (List.map f_id C) ->
  shaped (host st) (plug C Sp) ds nx ->
  (forall r, In r (ranges (host st)) ->
             (fst r < List.length (ranges (host st)))%nat) ->
  selected (host st) = Some r0 ->
  dom_range (host st) r0 = Some (b0, bn) -> cs <> [] ->
  jsstring_eqb (toLowerCase (List.map upper_ascii (f_tag fr))) (toLowerCase t)
    = false ->
  exists st1 r1,
    wrapSelectionWithTag t st = Val tt st1 /\
    editorRef st1 = Some editor /\
    shaped (host st1) (plug C S1) (ds ++ [F0]) (S (S nx)) /\
    selected (host st1) = Some r1 /\
    dom_range (host st1) r1 =
      Some ({| b_node := nx; b_off := 0 |},
            {| b_node := nx; b_off := List.length cs |}).
Proof.
  intros He Hed Hsh Hwf Hsel Hr Hcs Htag.
  pose proof Hsh as (Hd & Hdl & Hn).
  destruct (below_P _ Sp s Hd eq_refl s_C) as (_ & Hpe & HtagP).
  assert (Hne : boundary_eqb b0 bn = false).
  { unfold boundary_eqb, b0, bn. cbn [b_node b_off]. rewrite Nat.eqb_refl.
    destruct cs; [congruence|reflexivity]. }
  unfold wrapSelectionWithTag. rewrite bind_get, He, bind_read.
  cbn [getSelection domHost]. rewrite Hsel. rewrite bind_read.
  cbn [commonAncestorContainer domHost]. rewrite Hr.
  cbn [b_node b0 bn]. rewrite dom_commonAncestor_same, bind_read.
  cbn [contains domHost].
  rewrite (editor_above _ Sp [] editor s Hd s_C (path_at s Sp eq_refl) Hed).
  rewrite bind_read, Hpe, bind_read, HtagP, Htag.
  cbv iota beta.
  match goal with
  | |- exists _ _, bind ?m _ _ = _ /\ _ =>
      assert (Hbody : exists w1 r1,
        m st = Val tt (with_host st w1) /\
        shaped w1 (plug C S1) (ds ++ [F0]) (S (S nx)) /\
        selected w1 = Some r1 /\
        dom_range w1 r1 =
          Some ({| b_node := nx; b_off := 0 |},
                {| b_node := nx; b_off := List.length cs |}))
  end.
  { rewrite bind_read. cbn [collapsed domHost]. rewrite Hr, Hne. cbn [negb].
    (* document.createElement *)
    set (w1 := add_root N0 (fresh (host st))).
    rewrite (bind_call _ _ st nx w1);
      [|cbn [createElement domHost]; rewrite Hn, toggle_tag_lower; reflexivity].
    assert (Sh1 : shaped w1 (plug C Sp) (ds ++ [N0]) (S nx)).
    { unfold shaped, w1. cbn. rewrite Hd, Hdl, Hn. auto. }
    (* range.extractContents *)
    destruct (step_extract w1 r0 Sh1 Hr Hcs) as (w2 & E2 & Sh2 & Sel2 & Ids2 & R2).
    rewrite (bind_call _ _ _ (S nx) w2) by exact E2.
    (* newNode.appendChild *)
    destruct (step_append w2 r0 Sh2 R2) as (w3 & E3 & Sh3 & Sel3 & Ids3 & R3).
    rewrite (bind_call _ _ _ tt w3) by exact E3.
    (* range.insertNode *)
    destruct (step_insertNode w3 r0 Sh3 R3) as (w4 & E4 & Sh4 & Sel4 & Ids4).
    rewrite (bind_call _ _ _ tt w4) by exact E4.
    (* selection.removeAllRanges, document.createRange *)
    rewrite (bind_call _ _ _ tt (with_selected w4 None)) by reflexivity.
    assert (Ids : range_ids w4 = range_ids (host st)).
    { rewrite Ids4, Ids3, Ids2. reflexivity. }
    assert (Hlen : List.length (ranges w4) = List.length (ranges (host st))).
    { unfold range_ids in Ids. rewrite <- (length_map fst (ranges w4)), Ids.
      apply length_map. }
    assert (Hwf4 : forall r, In r (ranges w4) ->
                             (fst r < List.length (ranges w4))%nat).
    { intros r Hin. rewrite Hlen.
      assert (Hi : In (fst r) (range_ids (host st))).
      { rewrite <- Ids. apply in_map. exact Hin. }
      apply in_map_iff in Hi. destruct Hi as (r' & <- & Hr'). auto. }
    destruct Sh4 as (Hd4 & Hdl4 & Hn4).
    set (r1 := List.length (ranges w4)).
    set (bd := {| b_node := nid (document w4); b_off := 0 |}).
    set (w5 := with_ranges (with_selected w4 None) (ranges w4 ++ [(r1, (bd, bd))])).
    rewrite (bind_call _ _ _ r1 w5) by reflexivity.
    assert (R5 : dom_range w5 r1 = Some (bd, bd)).
    { exact (dom_range_new (with_selected w4 None) (bd, bd) Hwf4). }
    (* range.selectNodeContents *)
    assert (Hf5 : dom_find w5 nx = Some Nw).
    { apply (dom_find_doc w5 C S1 Nw nx);
        [exact Hd4|apply nx_C, le_n|apply Nw_in_S1]. }
    set (sel := ({| b_node := nx; b_off := 0 |},
                 {| b_node := nx; b_off := List.length cs |})).
    rewrite (bind_call _ _ _ tt (set_range w5 r1 sel));
      [|cbn [selectNodeContents domHost with_host host];
        unfold dom_selectNodeContents; rewrite Hf5; reflexivity].
    assert (R6 : dom_range (set_range w5 r1 sel) r1 = Some sel).
    { exact (dom_range_set w5 r1 sel (bd, bd) R5). }
    (* selection.addRange *)
    assert (Hin : in_document (set_range w5 r1 sel) nx = true).
    { unfold in_document. change (document (set_range w5 r1 sel)) with (document w4).
      rewrite Hd4.
      rewrite (path_plug nx C S1) by apply nx_C, le_n.
      rewrite (proj2 Nw_in_S1). reflexivity. }
    exists (with_selected (set_range w5 r1 sel) (Some r1)), r1.
    split.
    { unfold call. cbn [addRange domHost with_host host]. unfold dom_addRange.
      rewrite R6. cbn [selected set_range with_ranges w5 with_selected].
      unfold sel at 1. cbn [b_node fst]. rewrite Hin. reflexivity. }
    split; [repeat split; assumption|].
    split; [reflexivity|exact R6]. }
  destruct Hbody as (w1 & r1 & Eb & Sh & Sel & Rg).
  rewrite (bind_Val _ _ st (with_host st w1) tt Eb).
  destruct (handleChange_host (with_host st w1) editor He) as (st2 & E2 & H2 & He2).
  rewrite (bind_Val _ _ _ st2 tt E2).
  destruct (updateFormattingState_host st2) as (st3 & E3 & H3 & He3).
  exists st3, r1. rewrite H3, He3, H2, He2. auto.
Qed.



(** *** The second run: the outer span is taken away *)

(** The frame of [P] once the inner span has moved before the outer one. *)
Let fr7 : frame :=
  {| f_id := P; f_tag := f_tag fr; f_attrs := f_attrs fr;
     f_left := f_left fr ++ [Nw]; f_right := f_right fr |}.
Let C7 : list frame := fr7 :: C'.

Lemma s_C7 : ~ In s (context_ids C7).
Proof.
  change (context_ids C7) with (frame_ids fr7 ++ context_ids C').
  unfold frame_ids, fr7. cbn [f_id f_left f_right].
  intros Hin. rewrite flat_map_app in Hin. revert Hin. notin.
Qed.

Lemma P_detached : ~ In P (flat_map ids (ds ++ [F0])).
Proof. notin. Qed.

Lemma nx_above (D : list nat) :
  (forall n, In n D -> In n (List.map f_id C)) ->
  existsb (Nat.eqb nx) D = false.
Proof.
  intros HD. apply existsb_eqb_notin. intros Hin.
  exact (nx_frames nx (le_n nx) (HD nx Hin)).
Qed.

(** [parent.insertBefore(inner, outer)] *)
Lemma step_move (w : Dom) :
  shaped w (plug C S1) (ds ++ [F0]) (S (S nx)) ->
  exists w',
    dom_insertBefore P nx (Some s) w = Val tt w' /\
    shaped w' (plug C7 S0) (ds ++ [F0]) (S (S nx)).
Proof.
  intros (Hd & Hdl & Hn).
  pose proof lt_s as Hs. pose proof P_lt as HP.
  assert (HfP : dom_find w P = Some (fill fr S1)) by (apply find_P; exact Hd).
  assert (HfN : dom_find w nx = Some Nw).
  { apply (dom_find_doc w C S1 Nw nx);
      [exact Hd|apply nx_C, le_n|apply Nw_in_S1]. }
  assert (Hfs : dom_find w s = Some S1).
  { apply (dom_find_doc w C S1 S1 s);
      [exact Hd|apply s_C|apply subtree_at; reflexivity]. }
  assert (HaN : dom_ancestors w nx = s :: List.map f_id C).
  { apply (dom_ancestors_doc w C S1 nx [s]);
      [exact Hd|apply nx_C, le_n|apply Nw_in_S1]. }
  assert (HaS : dom_ancestors w s = P :: List.map f_id C').
  { apply (dom_ancestors_doc w C S1 s []);
      [exact Hd|apply s_C|apply path_at; reflexivity]. }
  assert (Hcont : dom_contains w nx P = false).
  { unfold dom_contains. rewrite (ancestors_P w S1 Hd).
    rewrite nx_above by (intros n Hin; right; exact Hin).
    destruct (Nat.eqb_spec nx P); [lia|reflexivity]. }
  (* the inner span leaves the outer one *)
  assert (Hu : dom_update w s (set_kids (firstn 0 (kids S1) ++ skipn 1 (kids S1)))
               = with_trees w (plug C S0) (ds ++ [F0])).
  { rewrite (dom_update_doc _ C S1); [|exact Hd|apply s_C|rewrite Hdl; notin].
    rewrite at_node_at, Hdl by reflexivity. reflexivity. }
  destruct (take_children_effect w _ s 0 1 S1 Hfs Hu)
    as (wt & Ht & T1 & T2 & T3 & _).
  cbn [document detached with_trees] in T1, T2.
  set (wd := with_trees wt (document wt) (detached wt ++ [Nw])).
  assert (Hdet : dom_detach w nx = Some wd).
  { unfold dom_detach, dom_parent. rewrite HaN. cbn [hd_error]. rewrite Hfs.
    change (kids S1) with ([] ++ Nw :: []).
    rewrite (index_of_sibling nx [] [] Nw) by (auto; reflexivity).
    cbn [List.length]. change ([] ++ Nw :: []) with (kids S1) in Ht.
    rewrite Ht. reflexivity. }
  assert (HfP' : dom_find wd P = Some (fill fr S0)).
  { apply (dom_find_doc wd C' (fill fr S0));
      [exact T1|apply P_siblings|apply subtree_at; reflexivity]. }
  assert (Hix : index_of s (kids (fill fr S0)) = Some (List.length (f_left fr))).
  { apply index_of_sibling; [|reflexivity].
    apply notin_nids, s_siblings. }
  assert (Hroot : first_some (fun x => if Nat.eqb (nid x) nx then Some x else None)
                    (detached wd) = Some Nw).
  { unfold wd. cbn [detached with_trees]. rewrite T2.
    apply root_sibling; [|reflexivity]. apply notin_nids. notin. }
  (* and becomes a child of [P], before the outer span *)
  assert (Hdrop : detached (drop_root nx wd) = ds ++ [F0]).
  { unfold drop_root, wd. cbn [with_trees detached]. rewrite T2.
    rewrite remove_kid_sibling; [apply app_nil_r| |reflexivity].
    apply notin_nids. notin. }
  assert (Hu2 : dom_update (drop_root nx wd) P
                  (fun x => set_kids
                     (insert_at (List.length (f_left fr)) [Nw] (kids x)) x)
                = with_trees wd (plug C7 S0) (ds ++ [F0])).
  { rewrite (dom_update_doc _ C' (fill fr S0));
      [|exact T1|apply P_siblings|rewrite Hdrop; apply P_detached].
    rewrite at_node_at, Hdrop by reflexivity.
    unfold fill at 1 2. cbn [kids set_kids]. rewrite insert_at_length.
    unfold C7, fr7. cbn [plug]. unfold fill.
    cbn [f_id f_tag f_attrs f_left f_right].
    rewrite <- app_assoc. reflexivity. }
  destruct (put_children_effect _ _ P (List.length (f_left fr)) [Nw] Hu2)
    as (Q1 & Q2 & Q3 & _).
  unfold dom_insertBefore. rewrite HfP, HfN.
  change (is_container (fill fr S1)) with true. rewrite Hcont.
  cbn [negb orb]. unfold Nw at 1.
  unfold dom_parent. rewrite HaS. cbn [hd_error]. rewrite Nat.eqb_refl.
  cbn [negb]. destruct (Nat.eqb_spec s nx); [lia|].
  rewrite Hdet, HfP', Hix. unfold dom_attach. rewrite Hroot.
  eexists. split; [reflexivity|].
  unfold shaped. rewrite Q1, Q2, Q3. cbn. rewrite T3, Hn. auto.
Qed.

(** [parent.removeChild(outer)] *)
Lemma step_remove (w : Dom) :
  shaped w (plug C7 S0) (ds ++ [F0]) (S (S nx)) ->
  exists w',
    dom_removeChild P s w = Val tt w' /\
    shaped w' (plug C Nw) (ds ++ [F0; S0]) (S (S nx)).
Proof.
  intros (Hd & Hdl & Hn).
  set (l7 := f_left fr ++ [Nw]).
  assert (HaS : dom_ancestors w s = P :: List.map f_id C').
  { apply (dom_ancestors_doc w C7 S0 s []);
      [exact Hd|apply s_C7|apply path_at; reflexivity]. }
  assert (HfP : dom_find w P = Some (fill fr7 S0)).
  { apply (dom_find_doc w C' (fill fr7 S0));
      [exact Hd|apply P_siblings|apply subtree_at; reflexivity]. }
  assert (Hk : kids (fill fr7 S0) = l7 ++ S0 :: f_right fr) by reflexivity.
  assert (Hix : index_of s (kids (fill fr7 S0)) = Some (List.length l7)).
  { rewrite Hk. apply index_of_sibling; [|reflexivity].
    apply notin_nids. unfold l7. notin. }
  destruct (take_one l7 (f_right fr) S0) as (G1 & G2).
  assert (Hu : dom_update w P
                 (set_kids (firstn (List.length l7) (kids (fill fr7 S0)) ++
                            skipn (S (List.length l7)) (kids (fill fr7 S0))))
               = with_trees w (plug C Nw) (ds ++ [F0])).
  { rewrite (dom_update_doc _ C' (fill fr7 S0));
      [|exact Hd|apply P_siblings|rewrite Hdl; apply P_detached].
    rewrite at_node_at, Hdl, Hk, G2 by reflexivity.
    unfold l7, C. cbn [plug]. unfold fill. cbn [set_kids f_id f_tag f_attrs fr7].
    rewrite <- app_assoc. reflexivity. }
  pose proof (take_children_effect w _ P (List.length l7) (S (List.length l7))
                (fill fr7 S0) HfP Hu) as Ht.
  cbv zeta in Ht. rewrite Hk, G1 in Ht.
  destruct Ht as (wt & Ht & T1 & T2 & T3 & _).
  cbn [document detached with_trees] in T1, T2.
  unfold dom_removeChild, dom_detach, dom_parent. rewrite HaS. cbn [hd_error].
  rewrite Nat.eqb_refl, HfP, Hix, Ht.
  eexists. split; [reflexivity|].
  unfold shaped. cbn [document detached next_id with_trees].
  rewrite T1, T2, T3, Hn, <- app_assoc. auto.
Qed.

Lemma unwrap_run (st : Editor nat Dom) (editor r1 : nat) :
  editorRef st = Some editor -> In editor (List.map f_id C) ->
  shaped (host st) (plug C S1) (ds ++ [F0]) (S (S nx)) ->
  selected (host st) = Some r1 ->
  dom_range (host st) r1 =
    Some ({| b_node := nx; b_off := 0 |},
          {| b_node := nx; b_off := List.length cs |}) ->
  exists st2,
    wrapSelectionWithTag t st = Val tt st2 /\
    editorRef st2 = Some editor /\
    shaped (host st2) (plug C Nw) (ds ++ [F0; S0]) (S (S nx)).
Proof.
  intros He Hed Hsh Hsel Hr.
  pose proof Hsh as (Hd & Hdl & Hn).
  assert (Hfs : dom_find (host st) s = Some S1).
  { apply (dom_find_doc _ C S1 S1 s);
      [exact Hd|apply s_C|apply subtree_at; reflexivity]. }
  assert (HaN : dom_ancestors (host st) nx = s :: List.map f_id C).
  { apply (dom_ancestors_doc _ C S1 nx [s]);
      [exact Hd|apply nx_C, le_n|apply Nw_in_S1]. }
  assert (Hpe : parentElement (host st) nx = Some s).
  { unfold parentElement, parentNode. cbn [ancestors isElement domHost].
    rewrite HaN. cbn [hd_error]. rewrite Hfs. reflexivity. }
  assert (Htag : tagName (host st) s = List.map upper_ascii t).
  { cbn [tagName domHost]. rewrite Hfs. reflexivity. }
  destruct (below_P _ S1 s Hd eq_refl s_C) as (Hpn & _ & _).
  unfold wrapSelectionWithTag. rewrite bind_get, He, bind_read.
  cbn [getSelection domHost]. rewrite Hsel. rewrite bind_read.
  cbn [commonAncestorContainer domHost]. rewrite Hr.
  cbn [b_node]. rewrite dom_commonAncestor_same, bind_read.
  cbn [contains domHost].
  rewrite (editor_above _ S1 [s] editor nx Hd (nx_C nx (le_n nx))
             (proj2 Nw_in_S1) Hed).
  rewrite bind_read, Hpe, bind_read, Htag, toggle_tag_matches.
  cbv iota beta.
  match goal with
  | |- exists _, bind ?m _ _ = _ /\ _ =>
      assert (Hbody : exists w2,
        m st = Val tt (with_host st w2) /\
        shaped w2 (plug C Nw) (ds ++ [F0; S0]) (S (S nx)))
  end.
  { rewrite bind_read, Hpn, bind_read.
    cbn [childNodes domHost]. rewrite Hfs.
    change (List.length (List.map nid (kids S1))) with 1%nat.
    destruct (step_move (host st) Hsh) as (w1 & E1 & Sh1).
    destruct (step_remove w1 Sh1) as (w2 & E2 & Sh2).
    assert (Hfs1 : dom_find w1 s = Some S0).
    { apply (dom_find_doc _ C7 S0 S0 s);
        [apply Sh1|apply s_C7|apply subtree_at; reflexivity]. }
    assert (Hmove : move_children 1 s P st = Val tt (with_host st w1)).
    { cbn [move_children]. rewrite bind_read.
      unfold firstChild at 1. cbn [childNodes domHost]. rewrite Hfs.
      change (hd_error (List.map nid (kids S1))) with (Some nx).
      cbv iota beta. rewrite (bind_call _ _ st tt w1) by exact E1.
      rewrite bind_read. unfold firstChild. cbn [childNodes domHost host with_host].
      rewrite Hfs1. reflexivity. }
    rewrite (bind_Val _ _ st _ tt Hmove).
    exists w2. split; [|exact Sh2].
    unfold call. cbn [removeChild domHost host with_host]. rewrite E2.
    reflexivity. }
  destruct Hbody as (w2 & Eb & Sh).
  rewrite (bind_Val _ _ st (with_host st w2) tt Eb).
  destruct (handleChange_host (with_host st w2) editor He) as (st2 & E2 & H2 & He2).
  rewrite (bind_Val _ _ _ st2 tt E2).
  destruct (updateFormattingState_host st2) as (st3 & E3 & H3 & He3).
  exists st3. rewrite H3, He3, H2, He2. auto.
Qed.

(** *** The two runs together *)

Lemma twice_run (st : Editor nat Dom) (editor r0 : nat) :
  editorRef st = Some editor -> In editor (List.map f_id C) ->
  shaped (host st) (plug C Sp) ds nx ->
  (forall r, In r (ranges (host st)) ->
             (fst r < List.length (ranges (host st)))%nat) ->
  selected (host st) = Some r0 ->
  dom_range (host st) r0 = Some (b0, bn) -> cs <> [] ->
  jsstring_eqb (toLowerCase (tagName (host st) P)) (toLowerCase t) = false ->
  exists st1 st2,
    wrapSelectionWithTag t st = Val tt st1 /\
    wrapSelectionWithTag t st1 = Val tt st2 /\
    innerHTML (host st2) editor = innerHTML (host st) editor.
Proof.
  intros He Hed Hsh Hwf Hsel Hr Hcs Htag.
  pose proof Hsh as (Hd & _ & _).
  destruct (below_P _ Sp s Hd eq_refl s_C) as (_ & _ & HtagP).
  rewrite HtagP in Htag.
  destruct (wrap_run st editor r0 He Hed Hsh Hwf Hsel Hr Hcs Htag)
    as (st1 & r1 & E1 & He1 & Sh1 & Sel1 & R1).
  destruct (unwrap_run st1 editor r1 He1 Hed Sh1 Sel1 R1)
    as (st2 & E2 & _ & Sh2).
  exists st1, st2. split; [exact E1|]. split; [exact E2|].
  apply (innerHTML_plug (host st) (host st2) C Sp Nw editor NoDup_C Hed);
    [intros raw; reflexivity|exact Hd|apply Sh2].
Qed.

End ToggleTwice.

(** ** Toggling a format twice *)

Lemma toggle_command_tag {R : Runtime} {node range world exn : Type}
  {H : Host node range world exn} (k : toggle) :
  toggle_command k = (wrapSelectionWithTag (toggle_tag k) : M node world exn unit).
Proof. destruct k; reflexivity. Qed.

(** C4, as amended: the selection is the content of an element [s] of the
    command's format, from its first child to its last, and [s] lies in the
    editable element, has no attributes, has a child, and has a parent of
    another tag.  The command wraps the content once more and selects the
    content of the new element; run again on that selection, it takes the
    outer element away.  The inner markup of the editable element, and of
    every element above [s], is then what it was before the first run. *)
Theorem toggle_twice_restores {R : Runtime} (k : toggle) (st : Editor nat Dom)
  (editor r0 s : nat) (fr : frame) (C' : list frame) (cs : list tree) :
  editorRef st = Some editor ->
  In editor (List.map f_id (fr :: C')) ->
  sits (host st) (fr :: C') (Elem s (toggle_tag k) [] cs) ->
  cs <> [] ->
  jsstring_eqb (toLowerCase (tagName (host st) (f_id fr)))
               (toLowerCase (toggle_tag k)) = false ->
  selected (host st) = Some r0 ->
  dom_range (host st) r0 =
    Some ({| b_node := s; b_off := 0 |},
          {| b_node := s; b_off := List.length cs |}) ->
  exists st1 st2,
    toggle_command k st = Val tt st1 /\
    toggle_command k st1 = Val tt st2 /\
    innerHTML (host st2) editor = innerHTML (host st) editor.
Proof.
  intros He Hed (Hd & Hnd & Hlt & Hwf) Hcs Htag Hsel Hr.
  rewrite toggle_command_tag.
  apply (twice_run k fr C' s (next_id (host st)) cs (detached (host st))
           Hnd Hlt st editor r0); try assumption.
  repeat split. exact Hd.
Qed.

Lemma toggle_twice_restores_witness :
  exists st1 st2,
    toggle_command (R := refRuntime) Bold ex_span_selected = Val tt st1 /\
    toggle_command (R := refRuntime) Bold st1 = Val tt st2 /\
    innerHTML (host st2) 1%nat = innerHTML (host ex_span_selected) 1%nat.
Proof.
  refine (toggle_twice_restores (R := refRuntime) Bold ex_span_selected
            1%nat 0%nat 2%nat
            {| f_id := 1; f_tag := js "div"; f_attrs := [];
               f_left := []; f_right := [] |}
            [{| f_id := 0; f_tag := js "div"; f_attrs := [];
                f_left := []; f_right := [] |}]
            [Text 3 (js "abc")] eq_refl (or_introl eq_refl) _ _ eq_refl
            eq_refl eq_refl).
  - split; [reflexivity|]. split; [|split].
    + repeat (constructor; [cbn; intuition discriminate|]). constructor.
    + intros n Hin. cbn in Hin. cbn. intuition lia.
    + intros r [<-|[]]. cbn. lia.
  - discriminate.
Defined.

(** C4, as stated, fails when the selection runs through the text of the
    span, from its first character to its last: the first run takes the
    span away and leaves the selection collapsed behind the text, and the
    second run puts an empty span of the format there. *)
Lemma toggle_twice_text_counterexample :
  exists st1 st2,
    toggleBold (R := refRuntime) ex_text_selected = Val tt st1 /\
    toggleBold (R := refRuntime) st1 = Val tt st2 /\
    innerHTML (host ex_text_selected) 1%nat = js "<strong>abc</strong>" /\
    innerHTML (host st1) 1%nat = js "abc" /\
    innerHTML (host st2) 1%nat = js "abc<strong>" ++ [8203%N] ++ js "</strong>" /\
    innerHTML (host st2) 1%nat <> innerHTML (host ex_text_selected) 1%nat.
Proof.
  eexists. eexists.
  split; [vm_compute; reflexivity|].
  split; [vm_compute; reflexivity|].
  repeat split; try (vm_compute; reflexivity).
  vm_compute. discriminate.
Qed.

(** * Further properties of the schedule grid *)

(** ** Overlap lists *)

(** X1. The comparisons of [findOverlappingEvents] are made on the time
    strings.  Among events that each start before they end in that order,
    the three-way test keeps exactly the events with another id that start
    before the current one ends and end after it starts. *)
Theorem findOverlappingEvents_intersect (E : Schedule) (evs : list Schedule) :
  str_ltb (startTime E) (endTime E) = true ->
  (forall O, In O evs -> str_ltb (startTime O) (endTime O) = true) ->
  findOverlappingEvents E evs =
  List.filter (fun O => negb (Z.eqb (id O) (id E)) &&
                        str_ltb (startTime O) (endTime E) &&
                        str_ltb (startTime E) (endTime O)) evs.
Proof.
  intros HE Hall. unfold findOverlappingEvents. apply filter_ext_in.
  intros O HO. apply eq_true_iff_eq.
  rewrite overlaps_intersect by (apply StrOrder.lt_iff; auto).
  rewrite !andb_true_iff, negb_true_iff, Z.eqb_neq, !StrOrder.lt_iff. tauto.
Qed.

Lemma findOverlappingEvents_intersect_witness :
  findOverlappingEvents ex_e1 [ex_e1; ex_e2] =
  List.filter (fun O => negb (Z.eqb (id O) (id ex_e1)) &&
                        str_ltb (startTime O) (endTime ex_e1) &&
                        str_ltb (startTime ex_e1) (endTime O)) [ex_e1; ex_e2].
Proof.
  apply (findOverlappingEvents_intersect ex_e1 [ex_e1; ex_e2]);
    [reflexivity|].
  intros O [<-|[<-|[]]]; reflexivity.
Defined.

(** X2. The overlap list of a rendered event holds only events that are
    rendered in the same day column, and none with the id of the event
    itself: an event outside the window, an event of another day and an
    event that shares the id are never reported. *)
Theorem overlaps_among_rendered {R : Runtime}
  (p : TimeTableProps) (d : DayDef) (b : EventBox) (O : Schedule) :
  In b (renderDay p d) -> In O (box_overlaps b) ->
  In O (List.map box_event (renderDay p d)) /\ id O <> id (box_event b).
Proof.
  intros Hb HO. apply renderDay_In in Hb. destruct Hb as (ev & -> & _ & _).
  cbn [renderEvent box_overlaps box_event] in *.
  apply findOverlappingEvents_In in HO. destruct HO as [Hin Hov].
  apply filter_In in Hin. split.
  - apply renderDay_events. exact Hin.
  - apply overlaps_iff in Hov. tauto.
Qed.

Lemma overlaps_among_rendered_witness :
  In ex_e2 (List.map box_event (renderDay (R := refRuntime) ex_props ex_sat)) /\
  id ex_e2 <> id (box_event ex_box1).
Proof.
  apply (overlaps_among_rendered (R := refRuntime) ex_props ex_sat ex_box1 ex_e2).
  - left. reflexivity.
  - left. reflexivity.
Defined.

(** ** Times that do not parse, and windows of no length *)

Lemma split_go_no_sep (sep : N) (cur s : jsstring) :
  ~ In sep s -> split_go sep cur s = [rev cur ++ s].
Proof.
  revert cur. induction s as [|c s IH]; intros cur Hn; simpl.
  - rewrite app_nil_r. reflexivity.
  - destruct (N.eqb_spec c sep) as [E|E]; [exfalso; apply Hn; left; exact E|].
    rewrite IH by (intros Hin; apply Hn; right; exact Hin).
    simpl. rewrite <- app_assoc. reflexivity.
Qed.

(** Without a colon there is no second field: the minutes are
    [undefined], and the sum is NaN. *)
Lemma no_colon_minutes {R : Runtime} (s : jsstring) :
  ~ In colon s ->
  nadd (nmul (item (List.map Number (split colon s)) 0) (of_Z 60))
       (item (List.map Number (split colon s)) 1) = NaN.
Proof.
  intros Hn. unfold split. rewrite split_go_no_sep by exact Hn.
  cbn [List.map item nth]. destruct (nmul _ _); reflexivity.
Qed.

Lemma nleb_NaN_r (a : num) : nleb a NaN = false.
Proof. destruct a; reflexivity. Qed.

Lemma isTimeInRange_no_colon {R : Runtime} (t s e : jsstring) :
  ~ In colon t \/ ~ In colon s \/ ~ In colon e -> isTimeInRange t s e = false.
Proof.
  intros H. unfold isTimeInRange. cbv zeta. unfold ngeb.
  destruct H as [H|[H|H]]; rewrite (no_colon_minutes _ H).
  - rewrite nleb_NaN_r. reflexivity.
  - reflexivity.
  - rewrite nleb_NaN_r. apply andb_false_r.
Qed.

(** X3. A time without a colon gives NaN minutes, and every comparison
    with NaN fails: an event whose start or end has no colon is not
    rendered, and a window bound without a colon hides every event. *)
Theorem unparsed_time_hidden {R : Runtime} (p : TimeTableProps) (ev : Schedule) :
  ~ In colon (startTime ev) \/ ~ In colon (endTime ev) \/
  ~ In colon (window_start p) \/ ~ In colon (window_end p) ->
  isEventVisible p ev = false /\
  forall d, ~ In ev (List.map box_event (renderDay p d)).
Proof.
  intros H.
  assert (Hv : isEventVisible p ev = false).
  { unfold isEventVisible.
    destruct H as [H|[H|[H|H]]].
    - rewrite (isTimeInRange_no_colon (startTime ev)) by auto. reflexivity.
    - rewrite (isTimeInRange_no_colon (endTime ev)) by auto.
      apply andb_false_r.
    - rewrite (isTimeInRange_no_colon (startTime ev)) by auto. reflexivity.
    - rewrite (isTimeInRange_no_colon (startTime ev)) by auto. reflexivity. }
  split; [exact Hv|]. intros d Hin. apply renderDay_events in Hin.
  destruct Hin as [_ Hin]. congruence.
Qed.

Lemma unparsed_time_hidden_witness :
  isEventVisible (R := refRuntime) ex_props (mkEvent 3 "Sat" "0800" "09:00")
    = false /\
  forall d, ~ In (mkEvent 3 "Sat" "0800" "09:00")
                 (List.map box_event (renderDay (R := refRuntime) ex_props d)).
Proof.
  apply (unparsed_time_hidden (R := refRuntime) ex_props
           (mkEvent 3 "Sat" "0800" "09:00")).
  left. cbn. unfold colon. intuition discriminate.
Defined.

Lemma nleb_trans_Fin (a : num) (x y : Q) :
  nleb (Fin x) a = true -> nleb a (Fin y) = true -> (x <= y)%Q.
Proof.
  destruct a as [| |q|]; simpl; try discriminate.
  intros H1 H2. apply Qle_bool_iff in H1, H2. eapply Qle_trans; eauto.
Qed.

Lemma isTimeInRange_reversed {R : Runtime} (t s e : jsstring) :
  wf_time s = true -> wf_time e = true -> minutes_of e < minutes_of s ->
  isTimeInRange t s e = false.
Proof.
  intros Hs He Hlt. unfold isTimeInRange. cbv zeta.
  rewrite (minutes_parse s Hs), (minutes_parse e He). unfold ngeb.
  apply not_true_is_false. intros H. apply andb_true_iff in H.
  destruct H as [H1 H2].
  pose proof (nleb_trans_Fin _ _ _ H1 H2) as Hq.
  rewrite <- Zle_Qle in Hq. lia.
Qed.

Lemma filter_none {A : Type} (f : A -> bool) (l : list A) :
  (forall x, f x = false) -> List.filter f l = [].
Proof.
  intros Hf. induction l as [|x l IH]; simpl; [reflexivity|].
  rewrite Hf. exact IH.
Qed.

(** X4. A window whose end is before its start shows nothing: no time,
    well formed or not, is in range, and every day column is empty. *)
Theorem reversed_window_empty {R : Runtime} (p : TimeTableProps) :
  wf_time (window_start p) = true -> wf_time (window_end p) = true ->
  minutes_of (window_end p) < minutes_of (window_start p) ->
  (forall ev, isEventVisible p ev = false) /\
  (forall d, renderDay p d = []).
Proof.
  intros Hs He Hlt.
  assert (Hv : forall ev, isEventVisible p ev = false).
  { intros ev. unfold isEventVisible.
    rewrite (isTimeInRange_reversed _ _ _ Hs He Hlt). reflexivity. }
  split; [exact Hv|]. intros d. unfold renderDay. cbv zeta.
  rewrite (filter_none _ _ Hv). reflexivity.
Qed.

Lemma reversed_window_empty_witness :
  (forall ev, isEventVisible (R := refRuntime)
                (mkProps [ex_e1; ex_e2] "16:00" "07:00" false) ev = false) /\
  (forall d, renderDay (R := refRuntime)
               (mkProps [ex_e1; ex_e2] "16:00" "07:00" false) d = []).
Proof.
  apply (reversed_window_empty (R := refRuntime)
           (mkProps [ex_e1; ex_e2] "16:00" "07:00" false));
    [reflexivity|reflexivity|].
  vm_compute. reflexivity.
Defined.

(** X5. In a window that starts and ends at the same minute the only
    events shown start and end at that minute, and the division by the
    length of the window, zero, makes both the [top] and the height of
    each of them NaN: the floor of the height does not apply. *)
Theorem zero_window_NaN {R : Runtime}
  (p : TimeTableProps) (d : DayDef) (b : EventBox) :
  In b (renderDay p d) ->
  wf_time (startTime (box_event b)) = true ->
  wf_time (endTime (box_event b)) = true ->
  wf_time (window_start p) = true -> wf_time (window_end p) = true ->
  minutes_of (window_start p) = minutes_of (window_end p) ->
  minutes_of (startTime (box_event b)) = minutes_of (window_start p) /\
  minutes_of (endTime (box_event b)) = minutes_of (window_start p) /\
  box_top b = NaN /\ box_height b = NaN.
Proof.
  intros Hin. apply renderDay_In in Hin. destruct Hin as (ev & -> & _ & Hv).
  cbn [box_event renderEvent box_top box_height].
  intros Hs He Hws Hwe Hz.
  apply (isEventVisible_minutes p ev Hs He Hws Hwe) in Hv.
  assert (E1 : minutes_of (startTime ev) = minutes_of (window_start p)) by lia.
  assert (E2 : minutes_of (endTime ev) = minutes_of (window_start p)) by lia.
  split; [exact E1|]. split; [exact E2|].
  rewrite timeToPosition_minutes, calculateHeight_minutes by assumption.
  rewrite E1, E2, <- Hz, Z.sub_diag. split; reflexivity.
Qed.

Lemma zero_window_NaN_witness :
  minutes_of (startTime (box_event ex_box_zero))
    = minutes_of (window_start ex_props_zero) /\
  minutes_of (endTime (box_event ex_box_zero))
    = minutes_of (window_start ex_props_zero) /\
  box_top ex_box_zero = NaN /\ box_height ex_box_zero = NaN.
Proof.
  apply (zero_window_NaN (R := refRuntime) ex_props_zero ex_sat ex_box_zero);
    try reflexivity.
  left. reflexivity.
Defined.

(** ** Day columns *)

Lemma startsWith_same_length (u p q : jsstring) :
  startsWith u p = true -> startsWith u q = true ->
  List.length p = List.length q -> p = q.
Proof.
  revert p q. induction u as [|c u IH]; intros [|a p] [|b q]; simpl;
    try discriminate; auto.
  intros H1 H2 Hl. apply andb_true_iff in H1, H2.
  destruct H1 as [E1 H1], H2 as [E2 H2].
  apply N.eqb_eq in E1, E2. subst a b. f_equal. apply IH; auto.
Qed.

Lemma startsWith_trans (u p q : jsstring) :
  startsWith u p = true -> startsWith p q = true -> startsWith u q = true.
Proof.
  revert p q. induction u as [|c u IH]; intros [|a p] [|b q]; simpl;
    try discriminate; auto.
  intros H1 H2. apply andb_true_iff in H1, H2.
  destruct H1 as [E1 H1], H2 as [E2 H2].
  apply N.eqb_eq in E1, E2. subst a b. rewrite N.eqb_refl. simpl. eauto.
Qed.

Lemma startsWith_map (f : N -> N) (p q : jsstring) :
  startsWith p q = true -> startsWith (List.map f p) (List.map f q) = true.
Proof.
  revert q. induction p as [|a p IH]; intros [|b q]; simpl;
    try discriminate; auto.
  intros H. apply andb_true_iff in H. destruct H as [E H].
  apply N.eqb_eq in E. subst b. rewrite N.eqb_refl. simpl. auto.
Qed.

Lemma dayEvents_In {R : Runtime} (p : TimeTableProps) (d : DayDef) (ev : Schedule) :
  In ev (dayEvents p d) <->
  In ev (scheduleData p) /\
  startsWith (toUpperCase (day ev)) (toUpperCase (name d)) = true.
Proof. unfold dayEvents. apply filter_In. Qed.

(** X6. With the default days, whose names are seven different strings of
    three letters, an event is shown in at most one day column, whatever
    its [day] string is. *)
Theorem default_days_one_column {R : Runtime}
  (p : TimeTableProps) (ev : Schedule) (d1 d2 : DayDef) :
  customDays p = None ->
  In d1 (days p) -> In d2 (days p) ->
  In ev (dayEvents p d1) -> In ev (dayEvents p d2) -> d1 = d2.
Proof.
  intros Hc H1 H2 E1 E2. unfold days in H1, H2. rewrite Hc in H1, H2.
  apply dayEvents_In in E1, E2. destruct E1 as [_ E1], E2 as [_ E2].
  assert (Hu : forall d, In d defaultDays ->
             toUpperCase (name d) = List.map upper_ascii (name d) /\
             List.length (name d) = 3%nat).
  { intros d Hd. split.
    - apply toUpperCase_ascii.
      repeat (destruct Hd as [<-|Hd]; [reflexivity|]). destruct Hd.
    - repeat (destruct Hd as [<-|Hd]; [reflexivity|]). destruct Hd. }
  destruct (Hu d1 H1) as [U1 L1]. destruct (Hu d2 H2) as [U2 L2].
  rewrite U1 in E1. rewrite U2 in E2.
  assert (Hn : List.map upper_ascii (name d1) = List.map upper_ascii (name d2)).
  { apply (startsWith_same_length _ _ _ E1 E2). rewrite !length_map. congruence. }
  clear - H1 H2 Hn.
  repeat (destruct H1 as [<-|H1];
          [repeat (destruct H2 as [<-|H2];
                   [first [reflexivity | discriminate Hn]|]);
           destruct H2|]).
  destruct H1.
Qed.

Lemma default_days_one_column_witness :
  In ex_sat (days ex_props) /\
  In ex_e1 (dayEvents (R := refRuntime) ex_props ex_sat) /\ ex_sat = ex_sat.
Proof.
  assert (Hd : In ex_sat (days ex_props)) by (left; reflexivity).
  assert (He : In ex_e1 (dayEvents (R := refRuntime) ex_props ex_sat))
    by (left; reflexivity).
  split; [exact Hd|]. split; [exact He|].
  exact (default_days_one_column (R := refRuntime) ex_props ex_e1 ex_sat ex_sat
           eq_refl Hd Hd He He).
Defined.

(** X7. The day of an event is matched by prefix: when the name of one
    day is a prefix of the name of another (both ASCII), the column of the
    first repeats every event of the column of the second. *)
Theorem prefix_day_repeats {R : Runtime}
  (p : TimeTableProps) (d1 d2 : DayDef) (ev : Schedule) :
  forallb is_ascii (name d1) = true -> forallb is_ascii (name d2) = true ->
  startsWith (name d2) (name d1) = true ->
  In ev (dayEvents p d2) -> In ev (dayEvents p d1).
Proof.
  intros A1 A2 Hp Hin. apply dayEvents_In in Hin. apply dayEvents_In.
  destruct Hin as [Hs Hu]. split; [exact Hs|].
  rewrite (toUpperCase_ascii _ A1). rewrite (toUpperCase_ascii _ A2) in Hu.
  apply (startsWith_trans _ _ _ Hu). apply startsWith_map. exact Hp.
Qed.

Lemma prefix_day_repeats_witness :
  In ex_e1 (dayEvents (R := refRuntime) ex_props ex_s_day).
Proof.
  apply (prefix_day_repeats (R := refRuntime) ex_props ex_s_day ex_sat ex_e1);
    try reflexivity.
  left. reflexivity.
Defined.

(** ** The box of an event inside the grid *)

Lemma Qdiv_bounds (a dq : Z) :
  0 <= a <= dq -> 0 < dq ->
  (0 <= inject_Z a / inject_Z dq * inject_Z 100)%Q /\
  (inject_Z a / inject_Z dq * inject_Z 100 <= inject_Z 100)%Q.
Proof.
  intros Ha Hd.
  assert (Hdq : (0 < inject_Z dq)%Q).
  { change 0%Q with (inject_Z 0). rewrite <- Zlt_Qlt. exact Hd. }
  assert (Hinv : (0 < / inject_Z dq)%Q) by (apply Qinv_lt_0_compat; exact Hdq).
  assert (Haq : (0 <= inject_Z a)%Q).
  { change 0%Q with (inject_Z 0). rewrite <- Zle_Qle. lia. }
  assert (Hle : (inject_Z a <= inject_Z dq)%Q) by (rewrite <- Zle_Qle; lia).
  assert (H0 : (0 <= inject_Z a / inject_Z dq)%Q).
  { unfold Qdiv. apply Qmult_le_0_compat; [exact Haq|].
    apply Qlt_le_weak. exact Hinv. }
  assert (H1 : (inject_Z a / inject_Z dq <= 1)%Q).
  { apply Qle_shift_div_r; [exact Hdq|]. rewrite Qmult_1_l. exact Hle. }
  split.
  - apply Qmult_le_0_compat; [exact H0|discriminate].
  - setoid_replace (inject_Z 100) with (1 * inject_Z 100)%Q at 2 by ring.
    apply Qmult_le_compat_r; [exact H1|discriminate].
Qed.

Lemma Qdiv_upper (a dq : Z) :
  a <= dq -> 0 < dq ->
  (inject_Z a / inject_Z dq * inject_Z 100 <= inject_Z 100)%Q.
Proof.
  intros Ha Hd.
  assert (Hdq : (0 < inject_Z dq)%Q).
  { change 0%Q with (inject_Z 0). rewrite <- Zlt_Qlt. exact Hd. }
  assert (Hle : (inject_Z a <= inject_Z dq)%Q) by (rewrite <- Zle_Qle; lia).
  assert (H1 : (inject_Z a / inject_Z dq <= 1)%Q).
  { apply Qle_shift_div_r; [exact Hdq|]. rewrite Qmult_1_l. exact Hle. }
  setoid_replace (inject_Z 100) with (1 * inject_Z 100)%Q at 2 by ring.
  apply Qmult_le_compat_r; [exact H1|discriminate].
Qed.

Lemma Math_max_bounds (x q u : Q) :
  (x <= u)%Q -> (q <= u)%Q ->
  nleb (Fin q) (Math_max (Fin x) (Fin q)) = true /\
  nleb (Math_max (Fin x) (Fin q)) (Fin u) = true.
Proof.
  intros Hx Hq. split; [apply Math_max_floor|].
  simpl. destruct (Qle_bool x q); simpl; apply Qle_bool_iff; assumption.
Qed.

(** X8. In a window of positive length and with well-formed times, the
    [top] of a rendered event lies between 0 and 100; the computed height
    is at most 100, and is not negative unless the event ends before it
    starts; the height applied lies between its floor and 100. *)
Theorem rendered_box_bounds {R : Runtime}
  (p : TimeTableProps) (d : DayDef) (b : EventBox) :
  In b (renderDay p d) ->
  wf_time (startTime (box_event b)) = true ->
  wf_time (endTime (box_event b)) = true ->
  wf_time (window_start p) = true -> wf_time (window_end p) = true ->
  minutes_of (window_start p) < minutes_of (window_end p) ->
  let ev := box_event b in
  let computed :=
    calculateHeight (startTime ev) (endTime ev) (window_start p) (window_end p) in
  let floor := if compact p then of_Z 8 else of_Z 10 in
  nleb (of_Z 0) (box_top b) = true /\
  nleb (box_top b) (of_Z 100) = true /\
  nleb computed (of_Z 100) = true /\
  (minutes_of (startTime ev) <= minutes_of (endTime ev) ->
   nleb (of_Z 0) computed = true) /\
  nleb floor (box_height b) = true /\
  nleb (box_height b) (of_Z 100) = true.
Proof.
  intros Hin. apply renderDay_In in Hin. destruct Hin as (ev & -> & _ & Hv).
  cbn [box_event renderEvent box_top box_height]. intros Hs He Hws Hwe Hlt.
  cbv zeta. unfold min_height.
  apply (isEventVisible_minutes p ev Hs He Hws Hwe) in Hv.
  rewrite !timeToPosition_minutes, calculateHeight_minutes by assumption.
  set (ws := minutes_of (window_start p)) in *.
  set (we := minutes_of (window_end p)) in *.
  set (s := minutes_of (startTime ev)) in *.
  set (e := minutes_of (endTime ev)) in *.
  assert (Hd : we - ws <> 0) by lia.
  rewrite !(ndiv_of_Z _ _ Hd). cbn [nmul of_Z].
  destruct (Qdiv_bounds (s - ws) (we - ws)) as [A1 A2]; [lia|lia|].
  assert (B2 := Qdiv_upper (e - s) (we - ws) ltac:(lia) ltac:(lia)).
  split; [apply Qle_bool_iff; exact A1|].
  split; [apply Qle_bool_iff; exact A2|].
  split; [apply Qle_bool_iff; exact B2|].
  split.
  { intros Hse. apply Qle_bool_iff.
    apply (Qdiv_bounds (e - s) (we - ws)); lia. }
  destruct (compact p); apply Math_max_bounds; try exact B2; discriminate.
Qed.

Lemma rendered_box_bounds_witness :
  nleb (of_Z 0) (box_top ex_box1) = true /\
  nleb (box_top ex_box1) (of_Z 100) = true /\
  nleb (of_Z 10) (box_height ex_box1) = true /\
  nleb (box_height ex_box1) (of_Z 100) = true.
Proof.
  destruct (rendered_box_bounds (R := refRuntime) ex_props ex_sat ex_box1
              ex_box1_rendered eq_refl eq_refl eq_refl eq_refl eq_refl)
    as (H1 & H2 & _ & _ & H3 & H4).
  repeat split; assumption.
Defined.

(** ** Grid lines *)

Lemma gridLineTop_Fin (ts : list jsstring) (idx : nat) :
  (2 <= List.length ts)%nat ->
  gridLineTop ts idx =
  Fin (inject_Z (Z.of_nat idx * 100) / inject_Z (Z.of_nat (List.length ts) - 1)).
Proof.
  intros Hn. unfold gridLineTop. rewrite nsub_of_Z.
  change (nmul (of_Z (Z.of_nat idx)) (of_Z 100)) with (of_Z (Z.of_nat idx * 100)).
  apply ndiv_of_Z. lia.
Qed.

(** X9. The grid lines divide the height by the number of slots less one.
    With a single slot that is a division of zero by zero and the one line
    is at NaN; with two slots or more the first line is at 0, the last at
    100, and the lines go down the grid strictly. *)
Theorem gridLines_span (ts : list jsstring) :
  (List.length ts = 1%nat -> gridLines ts = [NaN]) /\
  ((2 <= List.length ts)%nat ->
   num_eq (gridLineTop ts 0) (of_Z 0) /\
   num_eq (gridLineTop ts (List.length ts - 1)) (of_Z 100) /\
   forall i j, (i < j)%nat ->
     nltb (gridLineTop ts i) (gridLineTop ts j) = true).
Proof.
  split.
  - intros Hn. unfold gridLines. rewrite Hn. cbn [seq List.map].
    unfold gridLineTop. rewrite Hn. reflexivity.
  - intros Hn.
    assert (Hd : (0 < inject_Z (Z.of_nat (List.length ts) - 1))%Q).
    { change 0%Q with (inject_Z 0). rewrite <- Zlt_Qlt. lia. }
    split; [|split].
    + rewrite (gridLineTop_Fin ts 0 Hn). cbn [num_eq of_Z Z.of_nat Z.mul].
      unfold Qdiv. ring.
    + rewrite (gridLineTop_Fin ts _ Hn). cbn [num_eq of_Z].
      replace (Z.of_nat (List.length ts - 1)) with (Z.of_nat (List.length ts) - 1)
        by lia.
      rewrite inject_Z_mult. field. intros E. rewrite E in Hd.
      discriminate.
    + intros i j Hij. rewrite !(gridLineTop_Fin ts _ Hn). cbn [nltb].
      apply negb_true_iff.
      destruct (Qle_bool _ _) eqn:E; [|reflexivity].
      exfalso. apply Qle_bool_iff in E. revert E. apply Qlt_not_le.
      unfold Qdiv. apply Qmult_lt_compat_r.
      * apply Qinv_lt_0_compat. exact Hd.
      * rewrite <- Zlt_Qlt. lia.
Qed.

Lemma gridLines_span_witness :
  gridLines [js "07:00"] = [NaN] /\
  num_eq (gridLineTop defaultTimeSlots 0) (of_Z 0) /\
  num_eq (gridLineTop defaultTimeSlots 9) (of_Z 100) /\
  nltb (gridLineTop defaultTimeSlots 3) (gridLineTop defaultTimeSlots 4) = true.
Proof.
  split.
  - apply (proj1 (gridLines_span [js "07:00"])). reflexivity.
  - destruct (proj2 (gridLines_span defaultTimeSlots)) as (H0 & H1 & H2).
    + cbn. lia.
    + split; [exact H0|]. split; [exact H1|]. apply H2. lia.
Defined.

(** * Further properties of the editor *)

Section EditorMore.

Context {R : Runtime}.
Context {node range world exn : Type} {H : Host node range world exn}.

Local Open Scope cmd_scope.

(** ** What [handleChange] reports *)

Lemma jsstring_eqb_refl (a : jsstring) : jsstring_eqb a a = true.
Proof. unfold jsstring_eqb. destruct (list_eq_dec N.eq_dec a a); congruence. Qed.

Lemma jsstring_eqb_eq (a b : jsstring) : jsstring_eqb a b = true <-> a = b.
Proof.
  unfold jsstring_eqb. destruct (list_eq_dec N.eq_dec a b); split; congruence.
Qed.

Lemma drop_space_nil (s : jsstring) :
  drop_space s = [] <-> forallb is_js_space s = true.
Proof.
  induction s as [|c s IH]; simpl; [tauto|].
  destruct (is_js_space c); simpl; [exact IH|]. split; discriminate.
Qed.

Lemma drop_space_spaces (s : jsstring) :
  forallb is_js_space (drop_space s) = true -> drop_space s = [].
Proof.
  induction s as [|c s IH]; simpl; [reflexivity|].
  destruct (is_js_space c) eqn:E; [exact IH|].
  simpl. rewrite E. discriminate.
Qed.

Lemma forallb_rev {A : Type} (f : A -> bool) (l : list A) :
  forallb f (rev l) = forallb f l.
Proof.
  induction l as [|a l IH]; simpl; [reflexivity|].
  rewrite forallb_app, IH. simpl. rewrite andb_true_r. apply andb_comm.
Qed.

(** [s.trim() === ""] holds of the strings of white space only. *)
Lemma trim_empty (s : jsstring) :
  jsstring_eqb (trim s) [] = forallb is_js_space s.
Proof.
  apply eq_true_iff_eq. rewrite jsstring_eqb_eq. unfold trim. split.
  - intros E. apply drop_space_nil. apply drop_space_spaces.
    rewrite <- forallb_rev. apply drop_space_nil.
    rewrite <- (rev_involutive (drop_space _)), E. reflexivity.
  - intros E. apply drop_space_nil in E. rewrite E. reflexivity.
Qed.

(** X11. [handleChange] leaves the document alone, passes the markup of the
    editable element to [onChange] once, and marks the editor empty exactly
    when its text content is made of white space only. *)
Theorem handleChange_emits (s : state node world) (editor : node) :
  editorRef s = Some editor ->
  exists s',
    handleChange s = Val tt s' /\
    host s' = host s /\
    emitted s' = emitted s ++ [innerHTML (host s) editor] /\
    editorIsEmpty s' = forallb is_js_space (textContent (host s) editor).
Proof.
  intros He. rewrite (handleChange_run s editor He). cbv zeta.
  eexists. split; [reflexivity|].
  rewrite <- trim_empty.
  destruct (arabicRegex_test _); repeat split.
Qed.

(** X12. The value that [handleChange] has passed to [onChange] is the
    markup of the document: when the parent hands it back as the [value]
    property, the effect on [value] finds nothing to do and leaves the
    document and the state as they are. *)
Theorem sync_after_change (s : state node world) (editor : node) :
  editorRef s = Some editor ->
  exists s' content,
    handleChange s = Val tt s' /\
    emitted s' = emitted s ++ [content] /\
    syncValue content s' = Val tt s'.
Proof.
  intros He. rewrite (handleChange_run s editor He). cbv zeta.
  eexists. exists (innerHTML (host s) editor). split; [reflexivity|].
  split; [destruct (arabicRegex_test _); reflexivity|].
  unfold syncValue, bind, get, read.
  destruct (arabicRegex_test _); cbn [editorRef with_change with_direction host];
    rewrite He, jsstring_eqb_refl; reflexivity.
Qed.

(** ** The link and the image form *)

(** X13. A run of [insertLink] that returns leaves a state in which a
    second run does nothing: either the first did nothing (no URL, no
    text or no editable element), or it has closed the form and emptied
    its two fields. *)
Theorem insertLink_once (p : TextEditorProps) (s s' : state node world) :
  insertLink p s = Val tt s' ->
  insertLink p s' = Val tt s' /\
  (linkUrl s <> [] -> linkText s <> [] -> editorRef s <> None ->
   showLinkDropdown s' = false /\ linkUrl s' = [] /\ linkText s' = []).
Proof.
  intros E.
  destruct (linkUrl s) as [|c u] eqn:Hu.
  { unfold insertLink, bind at 1, get in E. rewrite Hu in E.
    injection E as <-. split; [|congruence].
    unfold insertLink, bind at 1, get. rewrite Hu. reflexivity. }
  destruct (linkText s) as [|c' t] eqn:Ht.
  { unfold insertLink, bind at 1, get in E. rewrite Hu, Ht in E.
    injection E as <-. split; [|congruence].
    unfold insertLink, bind at 1, get. rewrite Hu, Ht. reflexivity. }
  destruct (editorRef s) as [editor|] eqn:He.
  2:{ unfold insertLink, bind at 1, get in E. rewrite Hu, Ht, He in E.
      injection E as <-. split; [|congruence].
      unfold insertLink, bind at 1, get. rewrite Hu, Ht, He. reflexivity. }
  unfold insertLink, bind at 1, get in E. rewrite Hu, Ht, He in E.
  apply bind_Val_inv in E. destruct E as (a1 & s1 & _ & E).
  apply bind_Val_inv in E. destruct E as (a2 & s2 & _ & E).
  apply bind_Val_inv in E. destruct E as (a3 & s3 & E3 & E).
  unfold update in E3. injection E3 as _ <-.
  apply handleChange_form in E. destruct E as (F1 & F2 & F3 & _).
  cbn [close_link_form showLinkDropdown linkUrl linkText] in F1, F2, F3.
  split; [|auto].
  unfold insertLink, bind at 1, get. rewrite F2. reflexivity.
Qed.

(** X14. The same for [insertImage], which asks for a URL only. *)
Theorem insertImage_once (p : TextEditorProps) (s s' : state node world) :
  insertImage p s = Val tt s' ->
  insertImage p s' = Val tt s' /\
  (imageUrl s <> [] -> editorRef s <> None ->
   showImageDropdown s' = false /\ imageUrl s' = [] /\ imageAlt s' = []).
Proof.
  intros E.
  destruct (imageUrl s) as [|c u] eqn:Hu.
  { unfold insertImage, bind at 1, get in E. rewrite Hu in E.
    injection E as <-. split; [|congruence].
    unfold insertImage, bind at 1, get. rewrite Hu. reflexivity. }
  destruct (editorRef s) as [editor|] eqn:He.
  2:{ unfold insertImage, bind at 1, get in E. rewrite Hu, He in E.
      injection E as <-. split; [|congruence].
      unfold insertImage, bind at 1, get. rewrite Hu, He. reflexivity. }
  unfold insertImage, bind at 1, get in E. rewrite Hu, He in E.
  apply bind_Val_inv in E. destruct E as (a1 & s1 & _ & E).
  apply bind_Val_inv in E. destruct E as (a2 & s2 & _ & E).
  apply bind_Val_inv in E. destruct E as (a3 & s3 & E3 & E).
  unfold update in E3. injection E3 as _ <-.
  apply handleChange_form in E. destruct E as (_ & _ & _ & F1 & F2 & F3 & _).
  cbn [close_image_form showImageDropdown imageUrl imageAlt] in F1, F2, F3.
  split; [|auto].
  unfold insertImage, bind at 1, get. rewrite F2. reflexivity.
Qed.

(** ** The formatting shown in the toolbar *)

Lemma mark_flags (w : world) (n : node) (f : FormattingState) :
  mark w n f = flags_or f (flags_of w [n]).
Proof.
  unfold mark, flags_or, flags_of, has_tag, has_align.
  cbn [existsb bold italic underline strikeThrough alignLeft alignCenter
       alignRight orderedList unorderedList].
  destruct (isElement w n); cbn [andb orb];
    rewrite ?orb_false_r, ?orb_assoc; [reflexivity|].
  destruct f; reflexivity.
Qed.

Lemma flags_or_assoc (f g h : FormattingState) :
  flags_or (flags_or f g) h = flags_or f (flags_or g h).
Proof.
  unfold flags_or.
  cbn [bold italic underline strikeThrough alignLeft alignCenter alignRight
       orderedList unorderedList].
  rewrite <- !orb_assoc. reflexivity.
Qed.

Lemma flags_of_cons (w : world) (n : node) (l : list node) :
  flags_of w (n :: l) = flags_or (flags_of w [n]) (flags_of w l).
Proof.
  unfold flags_of, flags_or, has_tag, has_align.
  cbn [existsb bold italic underline strikeThrough alignLeft alignCenter
       alignRight orderedList unorderedList].
  rewrite !orb_false_r. reflexivity.
Qed.

Lemma flags_or_none (w : world) (f : FormattingState) :
  f = flags_or f (flags_of w []).
Proof.
  unfold flags_or, flags_of, has_tag, has_align.
  cbn [existsb bold italic underline strikeThrough alignLeft alignCenter
       alignRight orderedList unorderedList].
  rewrite !orb_false_r. destruct f; reflexivity.
Qed.

Lemma walk_flags (w : world) (editor : node) (chain : list node)
  (f : FormattingState) :
  walk w editor chain f = flags_or f (flags_of w (below editor chain)).
Proof.
  revert f. induction chain as [|n rest IH]; intros f; cbn [walk below].
  - apply flags_or_none.
  - destruct (node_eqb n editor).
    + apply flags_or_none.
    + rewrite IH, mark_flags, flags_or_assoc, <- flags_of_cons. reflexivity.
Qed.

(** X15. With a selection that has an anchor node, [updateFormattingState]
    sets each flag from scratch: a flag is on exactly when an element on
    the way from the anchor node up to the editable element, the latter
    and what is above it left out, has one of the tags of the format (or,
    for the alignment, that inline [text-align]).  What the flags were
    before does not count, and neither the document nor the values passed
    to [onChange] change. *)
Theorem updateFormattingState_flags
  (s : state node world) (editor a : node) (r : range) (rs : list range) :
  editorRef s = Some editor ->
  getSelection (host s) = Some (r :: rs) ->
  anchorNode (host s) = Some a ->
  exists s',
    updateFormattingState s = Val tt s' /\
    host s' = host s /\ emitted s' = emitted s /\
    formattingState s' =
      flags_of (host s) (below editor (a :: ancestors (host s) a)).
Proof.
  intros He Hsel Ha.
  unfold updateFormattingState, bind, get, read, update.
  rewrite He, Hsel, Ha. eexists. split; [reflexivity|].
  cbn [host emitted formattingState with_formatting].
  repeat split. rewrite walk_flags.
  unfold flags_or, noFormatting.
  cbn [bold italic underline strikeThrough alignLeft alignCenter alignRight
       orderedList unorderedList orb].
  destruct (flags_of _ _); reflexivity.
Qed.

(** ** What [updateFormattingState] leaves untouched *)

Lemma updateFormattingState_frame (s s' : state node world) :
  updateFormattingState s = Val tt s' ->
  host s' = host s /\ emitted s' = emitted s /\ editorRef s' = editorRef s.
Proof.
  unfold updateFormattingState, bind, get, read, update, ret.
  destruct (editorRef s) as [editor|] eqn:He;
    [|intros E; injection E as <-; auto].
  destruct (getSelection (host s)) as [[|r rs]|];
    intros E; injection E as <-; repeat split; exact He.
Qed.

End EditorMore.

(** ** Instances on the two hosts *)

Lemma handleChange_emits_witness :
  exists s',
    handleChange ex_broken = Val tt s' /\
    host s' = host ex_broken /\
    emitted s' = emitted ex_broken ++ [innerHTML (host ex_broken) 0%nat] /\
    editorIsEmpty s' =
      forallb is_js_space (textContent (host ex_broken) 0%nat).
Proof. exact (handleChange_emits ex_broken 0%nat eq_refl). Defined.

Lemma sync_after_change_witness :
  exists s' content,
    handleChange ex_broken = Val tt s' /\
    emitted s' = emitted ex_broken ++ [content] /\
    syncValue content s' = Val tt s'.
Proof. exact (sync_after_change ex_broken 0%nat eq_refl). Defined.

(** The selection is outside the editable element: the link is appended. *)
Lemma insertLink_once_witness :
  exists s',
    insertLink stub_props ex_outside = Val tt s' /\
    insertLink stub_props s' = Val tt s' /\
    (linkUrl ex_outside <> [] -> linkText ex_outside <> [] ->
     editorRef ex_outside <> None ->
     showLinkDropdown s' = false /\ linkUrl s' = [] /\ linkText s' = []).
Proof.
  assert (E : {s' | insertLink stub_props ex_outside = Val tt s'})
    by (eexists; vm_compute; reflexivity).
  destruct E as [s' E]. exists s'. split; [exact E|].
  exact (insertLink_once stub_props ex_outside s' E).
Defined.

Lemma insertImage_once_witness :
  exists s',
    insertImage stub_props ex_image = Val tt s' /\
    insertImage stub_props s' = Val tt s' /\
    (imageUrl ex_image <> [] -> editorRef ex_image <> None ->
     showImageDropdown s' = false /\ imageUrl s' = [] /\ imageAlt s' = []).
Proof.
  assert (E : {s' | insertImage stub_props ex_image = Val tt s'})
    by (eexists; vm_compute; reflexivity).
  destruct E as [s' E]. exists s'. split; [exact E|].
  exact (insertImage_once stub_props ex_image s' E).
Defined.

(** The anchor node is the text of the bold span. *)
Lemma updateFormattingState_flags_witness :
  exists s',
    updateFormattingState (R := refRuntime) ex_text_selected = Val tt s' /\
    host s' = host ex_text_selected /\
    emitted s' = emitted ex_text_selected /\
    formattingState s' =
      flags_of (R := refRuntime) (host ex_text_selected)
        (below 1%nat (3%nat :: ancestors (host ex_text_selected) 3%nat)).
Proof.
  exact (updateFormattingState_flags (R := refRuntime) ex_text_selected
           1%nat 3%nat 0%nat [] eq_refl eq_refl eq_refl).
Defined.

(** ** Toggling a format off: the element is replaced by its children *)

(** The ids stay pairwise different when the first child of the element
    moves to the left of it. *)
Section MoveIds.

Variables (fr : frame) (C' : list frame).
Variables (s : nat) (t : jsstring) (sa : list (jsstring * jsstring)).
Variables (c : tree) (rest ds : list tree).

Let P : nat := f_id fr.
Let cid : nat := nid c.
Let C : list frame := fr :: C'.
Let Sj : tree := Elem s t sa (c :: rest).
Let S0 : tree := Elem s t sa rest.
Let fr1 : frame := grown fr [c].

Hypothesis U : NoDup (ids Sj ++ context_ids C ++ flat_map ids ds).
Hypothesis Hc : is_fragment c = false.

Lemma move_NoDup :
  NoDup (ids S0 ++ context_ids (fr1 :: C') ++ flat_map ids ds).
Proof.
  revert U. apply Permutation_NoDup.
  change (context_ids C) with (frame_ids fr ++ context_ids C').
  change (context_ids (fr1 :: C')) with (frame_ids fr1 ++ context_ids C').
  unfold Sj, S0, frame_ids, fr1, grown. cbn [ids flat_map f_id f_left f_right].
  rewrite flat_map_app. cbn [flat_map]. rewrite app_nil_r.
  cbn [app]. apply perm_skip.
  rewrite <- !app_assoc.
  etransitivity; [apply Permutation_app_swap_app|].
  apply Permutation_app_head.
  cbn [app]. 
  change (ids c ++ f_id fr :: flat_map ids (f_left fr) ++
            flat_map ids (f_right fr) ++ context_ids C' ++ flat_map ids ds)
    with (ids c ++ (f_id fr :: flat_map ids (f_left fr)) ++
            flat_map ids (f_right fr) ++ context_ids C' ++ flat_map ids ds).
  etransitivity; [apply Permutation_app_swap_app|].
  cbn [app]. apply perm_skip. reflexivity.
Qed.

End MoveIds.

Lemma not_fragment_match {A : Type} (c : tree) (x y : A) :
  is_fragment c = false ->
  match c with Frag _ _ => x | _ => y end = y.
Proof. destruct c; [reflexivity|reflexivity|discriminate]. Qed.

(** What the uniqueness of the ids says of a node [x] under [fr :: C']. *)
Lemma config_facts (x : tree) (fr : frame) (C' : list frame) (ds : list tree) :
  NoDup (ids x ++ context_ids (fr :: C') ++ flat_map ids ds) ->
  NoDup (ids x) /\
  (forall n, In n (ids x) ->
     ~ In n (context_ids (fr :: C')) /\ ~ In n (flat_map ids ds) /\
     n <> f_id fr) /\
  ~ In (f_id fr) (flat_map ids (f_left fr)) /\
  ~ In (f_id fr) (flat_map ids (f_right fr)) /\
  ~ In (f_id fr) (context_ids C') /\
  ~ In (f_id fr) (flat_map ids ds).
Proof.
  intros U. apply NoDup_app_inv in U. destruct U as (N1 & N2 & D).
  apply NoDup_app_inv in N2. destruct N2 as (N3 & _ & D2).
  assert (HP : In (f_id fr) (context_ids (fr :: C'))) by (left; reflexivity).
  split; [exact N1|]. split.
  - intros n Hn. specialize (D n Hn). rewrite in_app_iff in D.
    repeat split; try tauto. intros ->. tauto.
  - change (context_ids (fr :: C')) with (frame_ids fr ++ context_ids C') in N3.
    apply NoDup_app_inv in N3. destruct N3 as (N4 & _ & D3).
    unfold frame_ids in N4. inversion N4 as [|? ? Hna _]; subst.
    rewrite in_app_iff in Hna. repeat split; try tauto.
    + apply D3. left. reflexivity.
    + apply D2. exact HP.
Qed.

Section MoveChild.

Variables (fr : frame) (C' : list frame).
Variables (s : nat) (t : jsstring) (sa : list (jsstring * jsstring)).
Variables (c : tree) (rest ds : list tree).

Let P : nat := f_id fr.
Let cid : nat := nid c.
Let C : list frame := fr :: C'.
Let Sj : tree := Elem s t sa (c :: rest).
Let S0 : tree := Elem s t sa rest.
Let fr1 : frame := grown fr [c].

Hypothesis U : NoDup (ids Sj ++ context_ids C ++ flat_map ids ds).
Hypothesis Hc : is_fragment c = false.

Lemma move_step (w : Dom) (nx : nat) :
  shaped w (plug C Sj) ds nx ->
  exists w',
    dom_insertBefore P cid (Some s) w = Val tt w' /\
    shaped w' (plug (fr1 :: C') S0) ds nx.
Proof.
  intros (Hd & Hdl & Hn).
  destruct (config_facts Sj fr C' ds U) as (N1 & F & PL & PR & PC & PD).
  assert (Hs : In s (ids Sj)) by (left; reflexivity).
  assert (Hcid : In cid (ids Sj)).
  { right. cbn [flat_map]. apply in_or_app. left. apply nid_in_ids. }
  destruct (F s Hs) as (sC & sD & sP). destruct (F cid Hcid) as (cC & cD & cP).
  assert (Hsc : s <> cid).
  { unfold Sj in N1. cbn [ids flat_map] in N1.
    inversion N1 as [|? ? Hna _]; subst. intros E. apply Hna.
    apply in_or_app. left. rewrite E. apply nid_in_ids. }
  pose proof (context_ids_cons fr C' s sC) as (_ & sL & sR & sC').
  pose proof (context_ids_cons fr C' cid cC) as (_ & cL & cR & cC').
  assert (HfP : dom_find w P = Some (fill fr Sj)).
  { apply (dom_find_doc w C' (fill fr Sj));
      [exact Hd|exact PC|apply subtree_at; reflexivity]. }
  assert (HfN : dom_find w cid = Some c).
  { apply (dom_find_doc w C Sj c cid); [exact Hd|exact cC|].
    unfold Sj. cbn [subtree first_some].
    destruct (Nat.eqb_spec s cid); [contradiction|].
    unfold cid. rewrite subtree_root. reflexivity. }
  assert (Hfs : dom_find w s = Some Sj).
  { apply (dom_find_doc w C Sj Sj s);
      [exact Hd|exact sC|apply subtree_at; reflexivity]. }
  assert (HaN : dom_ancestors w cid = s :: List.map f_id C).
  { apply (dom_ancestors_doc w C Sj cid [s]); [exact Hd|exact cC|].
    unfold Sj. cbn [path first_some].
    destruct (Nat.eqb_spec s cid); [contradiction|].
    unfold cid. rewrite path_root. reflexivity. }
  assert (HaS : dom_ancestors w s = P :: List.map f_id C').
  { apply (dom_ancestors_doc w C Sj s []);
      [exact Hd|exact sC|apply path_at; reflexivity]. }
  assert (Hcont : dom_contains w cid P = false).
  { unfold dom_contains.
    rewrite (dom_ancestors_doc w C' (fill fr Sj) P []);
      [|exact Hd|exact PC|apply path_at; reflexivity].
    cbn [app]. rewrite existsb_eqb_notin
      by (intros Hin; apply cC'; apply f_id_in_context; exact Hin).
    destruct (Nat.eqb_spec cid P); [contradiction|reflexivity]. }
  assert (Hu : dom_update w s (set_kids (firstn 0 (kids Sj) ++ skipn 1 (kids Sj)))
               = with_trees w (plug C S0) ds).
  { rewrite (dom_update_doc _ C Sj); [|exact Hd|exact sC|rewrite Hdl; exact sD].
    rewrite at_node_at, Hdl by reflexivity. reflexivity. }
  destruct (take_children_effect w _ s 0 1 Sj Hfs Hu)
    as (wt & Ht & T1 & T2 & T3 & _).
  cbn [document detached with_trees] in T1, T2.
  set (wd := with_trees wt (document wt) (detached wt ++ [c])).
  assert (Hdet : dom_detach w cid = Some wd).
  { unfold dom_detach, dom_parent. rewrite HaN. cbn [hd_error]. rewrite Hfs.
    unfold Sj at 1. cbn [kids index_of]. fold cid. rewrite Nat.eqb_refl.
    change (c :: rest) with (kids Sj) in Ht. rewrite Ht. reflexivity. }
  assert (HfP' : dom_find wd P = Some (fill fr S0)).
  { apply (dom_find_doc wd C' (fill fr S0));
      [exact T1|exact PC|apply subtree_at; reflexivity]. }
  assert (Hix : index_of s (kids (fill fr S0)) = Some (List.length (f_left fr))).
  { apply index_of_sibling; [|reflexivity]. apply notin_nids. exact sL. }
  assert (Hroot : first_some (fun x => if Nat.eqb (nid x) cid then Some x else None)
                    (detached wd) = Some c).
  { unfold wd. cbn [detached with_trees]. rewrite T2.
    apply root_sibling; [|reflexivity]. apply notin_nids. exact cD. }
  assert (Hdrop : detached (drop_root cid wd) = ds).
  { unfold drop_root, wd. cbn [with_trees detached]. rewrite T2.
    rewrite remove_kid_sibling; [apply app_nil_r| |reflexivity].
    apply notin_nids. exact cD. }
  assert (Hu2 : dom_update (drop_root cid wd) P
                  (fun x => set_kids
                     (insert_at (List.length (f_left fr)) [c] (kids x)) x)
                = with_trees wd (plug (fr1 :: C') S0) ds).
  { rewrite (dom_update_doc _ C' (fill fr S0));
      [|exact T1|exact PC|rewrite Hdrop; exact PD].
    rewrite at_node_at, Hdrop by reflexivity.
    unfold fill at 1 2. cbn [kids set_kids]. rewrite insert_at_length.
    unfold fr1, grown. cbn [plug]. unfold fill.
    cbn [f_id f_tag f_attrs f_left f_right].
    rewrite <- app_assoc. reflexivity. }
  destruct (put_children_effect _ _ P (List.length (f_left fr)) [c] Hu2)
    as (Q1 & Q2 & Q3 & _).
  unfold dom_insertBefore. rewrite HfP, HfN.
  change (is_container (fill fr Sj)) with true. rewrite Hcont.
  cbn [negb orb]. rewrite (not_fragment_match c _ _ Hc).
  unfold dom_parent. rewrite HaS. cbn [hd_error]. rewrite Nat.eqb_refl.
  cbn [negb]. destruct (Nat.eqb_spec s cid); [contradiction|].
  rewrite Hdet, HfP', Hix. unfold dom_attach. rewrite Hroot.
  eexists. split; [reflexivity|].
  unfold shaped. rewrite Q1, Q2, Q3. cbn. rewrite T3, Hn. auto.
Qed.

End MoveChild.

Lemma grown_nil (fr : frame) : grown fr [] = fr.
Proof. destruct fr. unfold grown. cbn. rewrite app_nil_r. reflexivity. Qed.

Lemma grown_grown (fr : frame) (a b : list tree) :
  grown (grown fr a) b = grown fr (a ++ b).
Proof. unfold grown. cbn. rewrite app_assoc. reflexivity. Qed.

(** [parent.removeChild(x)] for a child [x] of [fr0]. *)
Lemma remove_step (fr0 : frame) (C' : list frame) (x : tree) (ds : list tree)
  (w : Dom) (nx : nat) :
  NoDup (ids x ++ context_ids (fr0 :: C') ++ flat_map ids ds) ->
  shaped w (plug (fr0 :: C') x) ds nx ->
  exists w',
    dom_removeChild (f_id fr0) (nid x) w = Val tt w' /\
    shaped w' (plug C' (Elem (f_id fr0) (f_tag fr0) (f_attrs fr0)
                          (f_left fr0 ++ f_right fr0)))
           (ds ++ [x]) nx.
Proof.
  intros U (Hd & Hdl & Hn).
  destruct (config_facts x fr0 C' ds U) as (N1 & F & PL & PR & PC & PD).
  destruct (F (nid x) (nid_in_ids x)) as (sC & sD & sP).
  pose proof (context_ids_cons fr0 C' _ sC) as (_ & sL & sR & sC').
  assert (HaS : dom_ancestors w (nid x) = f_id fr0 :: List.map f_id C').
  { apply (dom_ancestors_doc w (fr0 :: C') x (nid x) []);
      [exact Hd|exact sC|apply path_root]. }
  assert (HfP : dom_find w (f_id fr0) = Some (fill fr0 x)).
  { apply (dom_find_doc w C' (fill fr0 x));
      [exact Hd|exact PC|apply subtree_at; reflexivity]. }
  assert (Hk : kids (fill fr0 x) = f_left fr0 ++ x :: f_right fr0) by reflexivity.
  assert (Hix : index_of (nid x) (kids (fill fr0 x))
                = Some (List.length (f_left fr0))).
  { rewrite Hk. apply index_of_sibling; [|reflexivity].
    apply notin_nids. exact sL. }
  destruct (take_one (f_left fr0) (f_right fr0) x) as (G1 & G2).
  assert (Hu : dom_update w (f_id fr0)
                 (set_kids (firstn (List.length (f_left fr0)) (kids (fill fr0 x)) ++
                            skipn (S (List.length (f_left fr0))) (kids (fill fr0 x))))
               = with_trees w
                   (plug C' (Elem (f_id fr0) (f_tag fr0) (f_attrs fr0)
                               (f_left fr0 ++ f_right fr0))) ds).
  { rewrite (dom_update_doc _ C' (fill fr0 x));
      [|exact Hd|exact PC|rewrite Hdl; exact PD].
    rewrite at_node_at, Hdl, Hk, G2 by reflexivity. reflexivity. }
  pose proof (take_children_effect w _ (f_id fr0) (List.length (f_left fr0))
                (S (List.length (f_left fr0))) (fill fr0 x) HfP Hu) as Ht.
  cbv zeta in Ht. rewrite Hk, G1 in Ht.
  destruct Ht as (wt & Ht & T1 & T2 & T3 & _).
  cbn [document detached with_trees] in T1, T2.
  unfold dom_removeChild, dom_detach, dom_parent. rewrite HaS. cbn [hd_error].
  rewrite Nat.eqb_refl, HfP, Hix, Ht.
  eexists. split; [reflexivity|].
  unfold shaped. cbn [document detached next_id with_trees].
  rewrite T1, T2, T3, Hn. auto.
Qed.

Lemma move_all (C' : list frame) (s : nat) (t : jsstring)
  (sa : list (jsstring * jsstring)) (ds : list tree) (nx : nat) :
  forall (rest : list tree) (fr : frame) (st : Editor nat Dom),
    NoDup (ids (Elem s t sa rest) ++ context_ids (fr :: C') ++ flat_map ids ds) ->
    forallb (fun c => negb (is_fragment c)) rest = true ->
    shaped (host st) (plug (fr :: C') (Elem s t sa rest)) ds nx ->
    exists w',
      move_children (List.length rest) s (f_id fr) st = Val tt (with_host st w') /\
      shaped w' (plug (grown fr rest :: C') (Elem s t sa [])) ds nx /\
      NoDup (ids (Elem s t sa []) ++ context_ids (grown fr rest :: C') ++
             flat_map ids ds).
Proof.
  induction rest as [|c rest IH]; intros fr st U Hf Hsh.
  - rewrite grown_nil. exists (host st). split; [|auto].
    destruct Hsh as (Hd & _ & _).
    destruct (config_facts _ fr C' ds U) as (_ & F & _).
    destruct (F s (or_introl eq_refl)) as (sC & _ & _).
    cbn [List.length move_children]. rewrite bind_read.
    unfold firstChild. cbn [childNodes domHost].
    rewrite (dom_find_doc (host st) (fr :: C') _ _ s Hd sC
               (subtree_at s (Elem s t sa []) eq_refl)).
    cbn [kids List.map hd_error]. unfold ret. rewrite with_host_host.
    reflexivity.
  - cbn [forallb] in Hf. apply andb_true_iff in Hf. destruct Hf as [Hc Hf].
    apply negb_true_iff in Hc.
    destruct (move_step fr C' s t sa c rest ds U Hc (host st) nx Hsh)
      as (w1 & E1 & Sh1).
    pose proof (move_NoDup fr C' s t sa c rest ds U) as U1.
    destruct (IH (grown fr [c]) (with_host st w1) U1 Hf Sh1)
      as (w' & E' & Sh' & U').
    rewrite grown_grown in Sh', U'. cbn [app] in Sh', U'.
    exists w'. split; [|auto].
    destruct Hsh as (Hd & _ & _).
    destruct (config_facts _ fr C' ds U) as (_ & F & _).
    destruct (F s (or_introl eq_refl)) as (sC & _ & _).
    cbn [List.length move_children]. rewrite bind_read.
    unfold firstChild at 1. cbn [childNodes domHost].
    rewrite (dom_find_doc (host st) (fr :: C') _ _ s Hd sC
               (subtree_at s (Elem s t sa (c :: rest)) eq_refl)).
    cbn [kids List.map hd_error].
    rewrite (bind_call _ _ st tt w1) by exact E1.
    exact E'.
Qed.

Lemma toggle_tag_upper {R : Runtime} (k : toggle) :
  jsstring_eqb (toLowerCase (List.map upper_ascii (toggle_tag k)))
               (toLowerCase (toggle_tag k)) = true.
Proof. destruct k; rewrite !toLowerCase_ascii by reflexivity; reflexivity. Qed.

(** X18. Toggling off.  When the common ancestor of the selection is a
    child of an element [s] that lies in the editable element and has the
    tag of the command, the command moves the children of [s], in their
    order, to the place of [s] in its parent and removes [s], which ends
    empty outside the document; the attributes of [s] and the tag of its
    parent do not matter.  The markup of the editable element after that
    is passed to [onChange]. *)
Theorem toggle_unwraps {R : Runtime} (k : toggle) (st : Editor nat Dom)
  (editor r0 s : nat) (sa : list (jsstring * jsstring))
  (fr : frame) (C' : list frame) (cs : list tree) (c0 : tree) :
  editorRef st = Some editor ->
  In editor (List.map f_id (fr :: C')) ->
  sits (host st) (fr :: C') (Elem s (toggle_tag k) sa cs) ->
  forallb (fun c => negb (is_fragment c)) cs = true ->
  selected (host st) = Some r0 ->
  In c0 cs -> commonAncestorContainer (host st) r0 = nid c0 ->
  exists st',
    toggle_command k st = Val tt st' /\
    document (host st') =
      plug C' (Elem (f_id fr) (f_tag fr) (f_attrs fr)
                 (f_left fr ++ cs ++ f_right fr)) /\
    detached (host st') =
      detached (host st) ++ [Elem s (toggle_tag k) sa []] /\
    emitted st' = emitted st ++ [innerHTML (host st') editor].
Proof.
  intros He Hed (Hd & U & _ & _) Hf Hsel Hc0 Hcac.
  set (t := toggle_tag k) in *. set (ds := detached (host st)) in *.
  set (Sp := Elem s t sa cs) in *.
  destruct (config_facts Sp fr C' ds U) as (N1 & F & PL & PR & PC & PD).
  destruct (F s (or_introl eq_refl)) as (sC & sD & sP).
  assert (Hc0i : In (nid c0) (ids Sp)).
  { right. apply in_flat_map. exists c0. split; [exact Hc0|apply nid_in_ids]. }
  destruct (F _ Hc0i) as (cC & cD & cP).
  assert (Hsc : s <> nid c0).
  { unfold Sp in N1. cbn [ids] in N1. inversion N1 as [|? ? Hna _]; subst.
    intros E. apply Hna. rewrite E. apply in_flat_map. exists c0.
    split; [exact Hc0|apply nid_in_ids]. }
  (* the way from the common ancestor up *)
  assert (Hp0 : path (nid c0) Sp = Some [s]).
  { apply in_split in Hc0. destruct Hc0 as (l1 & l2 & E).
    unfold Sp. cbn [path]. destruct (Nat.eqb_spec s (nid c0)); [contradiction|].
    rewrite E.
    rewrite (first_some_sibling path (nid c0) l1 l2 c0 []);
      [reflexivity|apply path_notin| |apply path_root].
    unfold Sp in N1. cbn [ids] in N1. rewrite E in N1.
    inversion N1 as [|? ? _ N2]; subst. rewrite flat_map_app in N2.
    apply NoDup_app_inv in N2. destruct N2 as (_ & _ & D).
    intros Hin. apply (D _ Hin). cbn [flat_map]. apply in_or_app. left.
    apply nid_in_ids. }
  assert (Ha0 : dom_ancestors (host st) (nid c0) = s :: List.map f_id (fr :: C')).
  { apply (dom_ancestors_doc _ (fr :: C') Sp _ [s]); assumption. }
  assert (Hfs : dom_find (host st) s = Some Sp).
  { apply (dom_find_doc _ (fr :: C') Sp Sp s);
      [exact Hd|exact sC|apply subtree_at; reflexivity]. }
  assert (HaS : dom_ancestors (host st) s = f_id fr :: List.map f_id C').
  { apply (dom_ancestors_doc _ (fr :: C') Sp s []);
      [exact Hd|exact sC|apply path_at; reflexivity]. }
  assert (Hin : dom_contains (host st) editor (nid c0) = true).
  { unfold dom_contains. rewrite Ha0.
    rewrite (existsb_eqb_In editor); [apply orb_true_r|].
    right. exact Hed. }
  assert (Hpe : parentElement (host st) (nid c0) = Some s).
  { unfold parentElement, parentNode. cbn [ancestors isElement domHost].
    rewrite Ha0. cbn [hd_error]. rewrite Hfs. reflexivity. }
  assert (Htag : tagName (host st) s = List.map upper_ascii t).
  { cbn [tagName domHost]. rewrite Hfs. reflexivity. }
  assert (Hpn : parentNode (host st) s = Some (f_id fr)).
  { unfold parentNode. cbn [ancestors domHost]. rewrite HaS. reflexivity. }
  rewrite toggle_command_tag. fold t.
  unfold wrapSelectionWithTag. rewrite bind_get, He, bind_read.
  cbn [getSelection domHost]. rewrite Hsel. rewrite bind_read, Hcac, bind_read.
  cbn [contains domHost]. rewrite Hin.
  rewrite bind_read, Hpe, bind_read, Htag. unfold t at 1 2.
  rewrite toggle_tag_upper. fold t. cbv iota beta.
  match goal with
  | |- exists _, bind ?m _ _ = _ /\ _ =>
      assert (Hbody : exists w2,
        m st = Val tt (with_host st w2) /\
        shaped w2 (plug C' (Elem (f_id fr) (f_tag fr) (f_attrs fr)
                              (f_left fr ++ cs ++ f_right fr)))
               (ds ++ [Elem s t sa []]) (next_id (host st)))
  end.
  { rewrite bind_read, Hpn, bind_read.
    cbn [childNodes domHost]. rewrite Hfs.
    unfold Sp at 1. cbn [kids]. rewrite length_map.
    destruct (move_all C' s t sa ds (next_id (host st)) cs fr st U Hf)
      as (w1 & E1 & Sh1 & U1); [repeat split; assumption|].
    rewrite (bind_Val _ _ st _ tt E1).
    destruct (remove_step (grown fr cs) C' (Elem s t sa []) ds w1 _ U1 Sh1)
      as (w2 & E2 & Sh2).
    exists w2. split.
    - unfold call. cbn [removeChild domHost host with_host].
      cbn [nid grown f_id] in E2. rewrite E2. reflexivity.
    - cbn [grown f_id f_tag f_attrs f_left f_right] in Sh2.
      rewrite <- app_assoc in Sh2. exact Sh2. }
  destruct Hbody as (w2 & Eb & Sd & Sdl & _).
  rewrite (bind_Val _ _ st (with_host st w2) tt Eb).
  rewrite (bind_Val _ _ _ _ tt
             (handleChange_run (with_host st w2) editor He)).
  cbv zeta.
  match goal with
  | |- exists _, updateFormattingState ?x = _ /\ _ =>
      destruct (updateFormattingState_host x) as (st3 & E3 & H3 & _);
      pose proof (updateFormattingState_frame _ _ E3) as (_ & Hem & _)
  end.
  exists st3. split; [exact E3|].
  rewrite Hem, H3.
  destruct (arabicRegex_test _);
    cbn [host emitted with_change with_direction with_host];
    rewrite Sd, Sdl; repeat split; rewrite <- Sd; reflexivity.
Qed.

Lemma toggle_unwraps_witness :
  exists st',
    toggle_command (R := refRuntime) Bold ex_text_selected = Val tt st' /\
    document (host st') =
      plug [{| f_id := 0; f_tag := js "div"; f_attrs := [];
               f_left := []; f_right := [] |}]
           (Elem 1 (js "div") [] ([] ++ [Text 3 (js "abc")] ++ [])) /\
    detached (host st') =
      detached (host ex_text_selected) ++ [Elem 2 (toggle_tag Bold) [] []] /\
    emitted st' = emitted ex_text_selected ++ [innerHTML (host st') 1%nat].
Proof.
  refine (toggle_unwraps (R := refRuntime) Bold ex_text_selected
            1%nat 0%nat 2%nat []
            {| f_id := 1; f_tag := js "div"; f_attrs := [];
               f_left := []; f_right := [] |}
            [{| f_id := 0; f_tag := js "div"; f_attrs := [];
                f_left := []; f_right := [] |}]
            [Text 3 (js "abc")] (Text 3 (js "abc"))
            eq_refl (or_introl eq_refl) _ eq_refl eq_refl
            (or_introl eq_refl) eq_refl).
  split; [reflexivity|]. split; [|split].
  - repeat (constructor; [cbn; intuition discriminate|]). constructor.
  - intros n Hin. cbn in Hin. cbn. intuition lia.
  - intros r [<-|[]]. cbn. lia.
Defined.

(** ** Toggling a format at a caret *)

Lemma ranges_wf_ids (w : Dom) :
  (forall r, In r (ranges w) -> (fst r < List.length (ranges w))%nat) <->
  (forall n, In n (range_ids w) -> (n < List.length (range_ids w))%nat).
Proof.
  unfold range_ids. rewrite length_map. split.
  - intros H n Hn. apply in_map_iff in Hn. destruct Hn as (r & <- & Hr). auto.
  - intros H r Hr. apply H, in_map, Hr.
Qed.

Section Caret.

Context {R : Runtime}.
Variables (k : toggle) (fr : frame) (C' : list frame).
Variables (e : nat) (g : jsstring) (a : list (jsstring * jsstring)).
Variables (ks ds : list tree) (i nx : nat).

Let t : jsstring := toggle_tag k.
Let C : list frame := fr :: C'.
Let P : nat := f_id fr.
Let X : tree := Elem e g a ks.
Let N0 : tree := Elem nx t [] [].
Let Zw : tree := Text (S nx) [8203%N].
Let Nz : tree := Elem nx t [] [Zw].
Let X1 : tree := Elem e g a (firstn i ks ++ Nz :: skipn i ks).
Let b : boundary := {| b_node := e; b_off := i |}.

Hypothesis U : NoDup (ids X ++ context_ids C ++ flat_map ids ds).
Hypothesis B : forall n, In n (ids X ++ context_ids C ++ flat_map ids ds) ->
                         (n < nx)%nat.
Hypothesis Hi : (i <= List.length ks)%nat.

Lemma caret_facts :
  (e < nx)%nat /\ ~ In e (context_ids C) /\ ~ In e (flat_map ids ds) /\
  (forall m, (nx <= m)%nat ->
     ~ In m (ids X) /\ ~ In m (context_ids C) /\ ~ In m (flat_map ids ds)).
Proof.
  destruct (config_facts X fr C' ds U) as (_ & F & _).
  destruct (F e (or_introl eq_refl)) as (eC & eD & _).
  split; [apply B; left; reflexivity|]. split; [exact eC|].
  split; [exact eD|]. intros m Hm.
  repeat split; intros Hin; apply (Nat.lt_irrefl m);
    apply (Nat.lt_le_trans _ nx); try exact Hm; apply B;
    rewrite !in_app_iff; auto.
Qed.

Lemma caret_document (w : Dom) (m : nat) :
  document w = plug C X -> (nx <= m)%nat -> ~ In m (ids (document w)).
Proof.
  intros Hd Hm. rewrite Hd. destruct caret_facts as (_ & _ & _ & F).
  destruct (F m Hm) as (F1 & F2 & _). apply notin_plug; assumption.
Qed.

(** [newNode.innerHTML = '&#8203;'] *)
Lemma caret_zwsp (w : Dom) (r0 : nat) :
  shaped w (plug C X) (ds ++ [N0]) (S nx) ->
  dom_range w r0 = Some (b, b) ->
  exists w',
    dom_set_innerHTML nx zwsp w = Val tt w' /\
    shaped w' (plug C X) (ds ++ [Nz]) (S (S nx)) /\
    selected w' = selected w /\ range_ids w' = range_ids w /\
    dom_range w' r0 = Some (b, b).
Proof.
  intros (Hd & Hdl & Hn) Hr.
  destruct caret_facts as (elt & eC & eD & F).
  destruct (F nx (le_n nx)) as (nX & nC & nD).
  pose proof (caret_document w nx Hd (le_n nx)) as Dnx.
  assert (Hne : e <> nx) by lia.
  assert (HfN : dom_find w nx = Some N0).
  { apply (dom_find_detached w ds [] N0); [exact Hdl|exact Dnx|exact nD|].
    apply subtree_at. reflexivity. }
  assert (Hu : dom_update w nx
                 (set_kids (firstn 0 (kids N0) ++ skipn 0 (kids N0)))
               = with_trees w (plug C X) (ds ++ [N0])).
  { rewrite (dom_update_detached w ds [] N0);
      [|exact Hdl|exact Dnx|exact nD|intros []].
    rewrite at_node_at, Hd by reflexivity. reflexivity. }
  destruct (take_children_effect w _ nx 0 0 N0 HfN Hu)
    as (wt & Ht & T1 & T2 & T3 & T4 & T5 & T6).
  cbn [document detached with_trees] in T1, T2.
  assert (Hr1 : dom_range wt r0 = Some (b, b)).
  { apply T6; [exact Hr| |]; split; cbn; auto. }
  set (w2 := with_trees wt (document wt) (detached wt ++ [])).
  assert (Hd2 : detached w2 = ds ++ N0 :: []).
  { unfold w2. cbn [detached with_trees]. rewrite T2, app_nil_r. reflexivity. }
  assert (Hu2 : dom_update w2 nx
                  (fun x => set_kids (insert_at 0 [Zw] (kids x)) x)
                = with_trees w2 (plug C X) (ds ++ [Nz])).
  { rewrite (dom_update_detached w2 ds [] N0);
      [|exact Hd2| |exact nD|intros []].
    - rewrite at_node_at by reflexivity.
      change (document w2) with (document wt). rewrite T1. reflexivity.
    - change (document w2) with (document wt). rewrite T1.
      apply notin_plug; assumption. }
  destruct (put_children_effect _ _ nx 0 [Zw] Hu2)
    as (Q1 & Q2 & Q3 & Q4 & Q5 & Q6).
  unfold dom_set_innerHTML. rewrite HfN, Hn.
  change (parse_known zwsp (S nx)) with (Some [Zw]).
  change (List.length (kids N0)) with 0%nat. rewrite Ht.
  change (with_trees wt (document wt)
            (detached wt ++ firstn (0 - 0) (skipn 0 (kids N0)))) with w2.
  eexists. split; [reflexivity|].
  cbn [selected]. unfold shaped, range_ids. cbn [document detached next_id ranges].
  rewrite Q1, Q2, Q3, Q4. cbn [document detached with_trees next_id w2].
  rewrite T3, Hn.
  split; [repeat split; cbn; lia|].
  split; [change (selected w2) with (selected wt); exact T4|]. split.
  - change (List.map fst (ranges (put_children w2 nx 0 [Zw])))
      with (range_ids (put_children w2 nx 0 [Zw])).
    rewrite Q5. exact T5.
  - change (dom_range (put_children w2 nx 0 [Zw]) r0 = Some (b, b)).
    apply Q6; [exact Hr1| |]; left; exact Hne.
Qed.

(** [range.insertNode(newNode)] at the caret *)
Lemma caret_insert (w : Dom) (r0 : nat) :
  shaped w (plug C X) (ds ++ [Nz]) (S (S nx)) ->
  dom_range w r0 = Some (b, b) ->
  exists w',
    dom_insertNode r0 (Some nx) w = Val tt w' /\
    shaped w' (plug C X1) ds (S (S nx)) /\
    selected w' = selected w /\ range_ids w' = range_ids w.
Proof.
  intros (Hd & Hdl & Hn) Hr.
  destruct caret_facts as (elt & eC & eD & F).
  destruct (F nx (le_n nx)) as (nX & nC & nD).
  pose proof (caret_document w nx Hd (le_n nx)) as Dnx.
  assert (Hne : e <> nx) by lia.
  assert (Hfe : dom_find w e = Some X).
  { apply (dom_find_doc _ C X); [exact Hd|exact eC|].
    apply subtree_at. reflexivity. }
  assert (HfN : dom_find w nx = Some Nz).
  { apply (dom_find_detached w ds [] Nz); [exact Hdl|exact Dnx|exact nD|].
    apply subtree_at. reflexivity. }
  assert (Hpar : dom_parent w nx = None).
  { unfold dom_parent.
    rewrite (dom_ancestors_detached w ds [] Nz nx []);
      [reflexivity|exact Hdl|exact Dnx|exact nD|].
    apply path_at. reflexivity. }
  assert (Hcont : dom_contains w nx e = false).
  { unfold dom_contains.
    rewrite (dom_ancestors_doc w C X e []);
      [|exact Hd|exact eC|apply path_at; reflexivity].
    cbn [app]. rewrite existsb_eqb_notin
      by (intros Hin; apply nC; apply f_id_in_context; exact Hin).
    destruct (Nat.eqb_spec nx e); [lia|reflexivity]. }
  assert (Hroot : first_some (fun x => if Nat.eqb (nid x) nx then Some x else None)
                    (detached w) = Some Nz).
  { rewrite Hdl. apply root_sibling; [|reflexivity].
    apply notin_nids. exact nD. }
  assert (Hu : dom_update (drop_root nx w) e
                 (fun x => set_kids (insert_at i [Nz] (kids x)) x)
               = with_trees w (plug C X1) ds).
  { assert (Hdrop : detached (drop_root nx w) = ds).
    { unfold drop_root. cbn [with_trees detached]. rewrite Hdl.
      rewrite remove_kid_sibling; [apply app_nil_r| |reflexivity].
      apply notin_nids. exact nD. }
    rewrite (dom_update_doc _ C X); [|exact Hd|exact eC|rewrite Hdrop; exact eD].
    rewrite at_node_at, Hdrop by reflexivity. reflexivity. }
  destruct (put_children_effect _ _ e i [Nz] Hu) as (Q1 & Q2 & Q3 & Q4 & Q5 & Q6).
  unfold dom_insertNode. rewrite Hr. cbn [b_node b_off b].
  rewrite Hfe, HfN, Hpar.
  destruct (Nat.eqb_spec e nx); [contradiction|].
  unfold Nz at 1, X at 1. rewrite Hcont. cbv zeta. cbn [kids].
  change (kids X) with ks. rewrite (Nat.min_l _ _ Hi).
  unfold dom_attach. rewrite Hroot. rewrite boundary_eqb_refl.
  eexists. split; [reflexivity|]. split; [|split].
  - unfold shaped, set_range, with_ranges. cbn [document detached next_id].
    rewrite Q1, Q2, Q3. auto.
  - unfold set_range, with_ranges. cbn [selected]. rewrite Q4. reflexivity.
  - rewrite range_ids_set, Q5. reflexivity.
Qed.

Lemma Nz_in_X1 : subtree nx X1 = Some Nz /\ path nx X1 = Some [e].
Proof.
  destruct caret_facts as (elt & _ & _ & F).
  destruct (F nx (le_n nx)) as (nX & _ & _).
  assert (Hl : ~ In nx (flat_map ids (firstn i ks))).
  { intros Hin. apply nX. right. rewrite <- (firstn_skipn i ks), flat_map_app.
    apply in_or_app. left. exact Hin. }
  unfold X1. cbn [subtree path].
  destruct (Nat.eqb_spec e nx); [lia|]. split.
  - apply first_some_sibling;
      [apply subtree_notin|exact Hl|apply subtree_at; reflexivity].
  - rewrite (first_some_sibling path nx _ _ Nz []);
      [reflexivity|apply path_notin|exact Hl|apply path_at; reflexivity].
Qed.

Lemma caret_tag : List.map lower_ascii t = t.
Proof. unfold t. destruct k; reflexivity. Qed.

(** The command at the caret [(e, i)]. *)
Lemma caret_run (st : Editor nat Dom) (editor r0 : nat) :
  editorRef st = Some editor -> In editor (e :: List.map f_id C) ->
  shaped (host st) (plug C X) ds nx ->
  (forall r, In r (ranges (host st)) ->
             (fst r < List.length (ranges (host st)))%nat) ->
  selected (host st) = Some r0 ->
  dom_range (host st) r0 = Some (b, b) ->
  jsstring_eqb (toLowerCase (tagName (host st) P)) (toLowerCase t) = false ->
  exists st1 r1,
    wrapSelectionWithTag t st = Val tt st1 /\ editorRef st1 = Some editor /\
    shaped (host st1) (plug C X1) ds (S (S nx)) /\
    selected (host st1) = Some r1 /\
    dom_range (host st1) r1 =
      Some ({| b_node := nx; b_off := 0 |}, {| b_node := nx; b_off := 0 |}) /\
    (forall r, In r (ranges (host st1)) ->
               (fst r < List.length (ranges (host st1)))%nat) /\
    emitted st1 = emitted st ++ [innerHTML (host st1) editor].
Proof.
  intros He Hed Hsh Hwf Hsel Hr Htag.
  pose proof Hsh as (Hd & Hdl & Hn).
  destruct caret_facts as (elt & eC & eD & F).
  destruct (F nx (le_n nx)) as (nX & nC & nD).
  assert (Hae : dom_ancestors (host st) e = List.map f_id C).
  { apply (dom_ancestors_doc _ C X e []);
      [exact Hd|exact eC|apply path_at; reflexivity]. }
  assert (Hin : dom_contains (host st) editor e = true).
  { unfold dom_contains. rewrite Hae. destruct Hed as [<-|Hed].
    - rewrite Nat.eqb_refl. reflexivity.
    - rewrite (existsb_eqb_In editor) by exact Hed. apply orb_true_r. }
  destruct (config_facts X fr C' ds U) as (_ & _ & _ & _ & PC & _).
  assert (HfP : dom_find (host st) P = Some (fill fr X)).
  { apply (dom_find_doc _ C' (fill fr X));
      [exact Hd|exact PC|apply subtree_at; reflexivity]. }
  assert (Hpe : parentElement (host st) e = Some P).
  { unfold parentElement, parentNode. cbn [ancestors isElement domHost].
    rewrite Hae. cbn [C List.map hd_error]. fold P. rewrite HfP. reflexivity. }
  unfold wrapSelectionWithTag. rewrite bind_get, He, bind_read.
  cbn [getSelection domHost]. rewrite Hsel. rewrite bind_read.
  cbn [commonAncestorContainer domHost]. rewrite Hr.
  cbn [b_node b]. rewrite dom_commonAncestor_same, bind_read.
  cbn [contains domHost]. rewrite Hin.
  rewrite bind_read, Hpe, bind_read, Htag. cbv iota beta.
  match goal with
  | |- exists _ _, bind ?m _ _ = _ /\ _ =>
      assert (Hbody : exists w1 r1,
        m st = Val tt (with_host st w1) /\
        shaped w1 (plug C X1) ds (S (S nx)) /\
        selected w1 = Some r1 /\
        dom_range w1 r1 =
          Some ({| b_node := nx; b_off := 0 |}, {| b_node := nx; b_off := 0 |}) /\
        (forall r, In r (ranges w1) -> (fst r < List.length (ranges w1))%nat))
  end.
  { rewrite bind_read. cbn [collapsed domHost]. rewrite Hr, boundary_eqb_refl.
    cbn [negb].
    (* document.createElement *)
    set (w1 := add_root N0 (fresh (host st))).
    rewrite (bind_call _ _ st nx w1);
      [|cbn [createElement domHost]; rewrite Hn, caret_tag; reflexivity].
    assert (Sh1 : shaped w1 (plug C X) (ds ++ [N0]) (S nx)).
    { unfold shaped, w1. cbn. rewrite Hd, Hdl, Hn. auto. }
    (* newNode.innerHTML *)
    destruct (caret_zwsp w1 r0 Sh1 Hr) as (w2 & E2 & Sh2 & Sel2 & Ids2 & R2).
    rewrite (bind_call _ _ _ tt w2) by exact E2.
    (* range.insertNode *)
    destruct (caret_insert w2 r0 Sh2 R2) as (w3 & E3 & Sh3 & Sel3 & Ids3).
    rewrite (bind_call _ _ _ tt w3) by exact E3.
    (* document.createRange *)
    assert (Ids : range_ids w3 = range_ids (host st)).
    { rewrite Ids3, Ids2. reflexivity. }
    assert (Hlen : List.length (ranges w3) = List.length (ranges (host st))).
    { unfold range_ids in Ids. rewrite <- (length_map fst (ranges w3)), Ids.
      apply length_map. }
    assert (Hwf3 : forall r, In r (ranges w3) ->
                             (fst r < List.length (ranges w3))%nat).
    { intros r Hinr. rewrite Hlen.
      assert (Hi' : In (fst r) (range_ids (host st))).
      { rewrite <- Ids. apply in_map. exact Hinr. }
      apply in_map_iff in Hi'. destruct Hi' as (r' & <- & Hr'). auto. }
    destruct Sh3 as (Hd3 & Hdl3 & Hn3).
    set (r1 := List.length (ranges w3)).
    set (bd := {| b_node := nid (document w3); b_off := 0 |}).
    set (w4 := with_ranges w3 (ranges w3 ++ [(r1, (bd, bd))])).
    rewrite (bind_call _ _ _ r1 w4) by reflexivity.
    assert (R4 : dom_range w4 r1 = Some (bd, bd)).
    { exact (dom_range_new w3 (bd, bd) Hwf3). }
    (* range.selectNodeContents, range.collapse *)
    assert (Hf4 : dom_find w4 nx = Some Nz).
    { apply (dom_find_doc w4 C X1 Nz nx); [exact Hd3|exact nC|apply Nz_in_X1]. }
    set (sel := ({| b_node := nx; b_off := 0 |},
                 {| b_node := nx; b_off := 1 |})).
    rewrite (bind_call _ _ _ tt (set_range w4 r1 sel));
      [|cbn [selectNodeContents domHost with_host host];
        unfold dom_selectNodeContents; rewrite Hf4; reflexivity].
    assert (R5 : dom_range (set_range w4 r1 sel) r1 = Some sel).
    { exact (dom_range_set w4 r1 sel (bd, bd) R4). }
    set (w5 := set_range w4 r1 sel) in *.
    set (sel0 := ({| b_node := nx; b_off := 0 |},
                  {| b_node := nx; b_off := 0 |})).
    rewrite (bind_call _ _ _ tt (set_range w5 r1 sel0));
      [|cbn [collapse domHost with_host host];
        unfold dom_collapse; rewrite R5; reflexivity].
    assert (R6 : dom_range (set_range w5 r1 sel0) r1 = Some sel0).
    { exact (dom_range_set w5 r1 sel0 sel R5). }
    set (w6 := set_range w5 r1 sel0) in *.
    (* selection.removeAllRanges, selection.addRange *)
    rewrite (bind_call _ _ _ tt (with_selected w6 None)) by reflexivity.
    assert (Hdoc : in_document (with_selected w6 None) nx = true).
    { unfold in_document.
      change (document (with_selected w6 None)) with (document w3).
      rewrite Hd3. rewrite (path_plug nx C X1) by exact nC.
      rewrite (proj2 Nz_in_X1). reflexivity. }
    exists (with_selected w6 (Some r1)), r1.
    split.
    { unfold call. cbn [addRange domHost with_host host]. unfold dom_addRange.
      change (dom_range (with_selected w6 None) r1) with (dom_range w6 r1).
      rewrite R6. cbn [selected with_selected].
      unfold sel0 at 1. cbn [b_node fst]. rewrite Hdoc. reflexivity. }
    split; [repeat split; assumption|].
    split; [reflexivity|]. split; [exact R6|].
    apply ranges_wf_ids.
    change (range_ids (with_selected w6 (Some r1))) with (range_ids w6).
    unfold w6, w5. rewrite !range_ids_set.
    unfold w4, range_ids. cbn [ranges with_ranges].
    rewrite map_app, length_app, length_map. cbn [List.map fst List.length].
    intros m Hm. apply in_app_or in Hm. destruct Hm as [Hm|[<-|[]]].
    - apply in_map_iff in Hm. destruct Hm as (r & <- & Hin').
      pose proof (Hwf3 r Hin'). lia.
    - unfold r1. lia. }
  destruct Hbody as (w1 & r1 & Eb & Sh & Sel & Rg & Wf).
  rewrite (bind_Val _ _ st (with_host st w1) tt Eb).
  rewrite (bind_Val _ _ _ _ tt (handleChange_run (with_host st w1) editor He)).
  cbv zeta.
  match goal with
  | |- exists _ _, updateFormattingState ?x = _ /\ _ =>
      destruct (updateFormattingState_host x) as (st3 & E3 & H3 & He3);
      pose proof (updateFormattingState_frame _ _ E3) as (_ & Hem & _)
  end.
  exists st3, r1. rewrite H3, He3, Hem.
  destruct (arabicRegex_test _);
    cbn [host emitted editorRef with_change with_direction with_host];
    auto 10.
Qed.

End Caret.

(** X19. Toggling at a caret.  When the selection is collapsed at the
    offset [i] of an element [e] that is the editable element or lies in
    it, and the parent of [e] has another tag than the command's, the
    command puts a new element of its format, holding one zero-width
    space, among the children of [e] at index [i], and sets the caret to
    the start of the new element.  The nodes outside the document stay as
    they are, and the markup of the editable element after that is passed
    to [onChange]. *)
Theorem toggle_at_caret {R : Runtime} (k : toggle) (st : Editor nat Dom)
  (editor r0 e i : nat) (g : jsstring) (a : list (jsstring * jsstring))
  (fr : frame) (C' : list frame) (ks : list tree) :
  editorRef st = Some editor ->
  In editor (e :: List.map f_id (fr :: C')) ->
  sits (host st) (fr :: C') (Elem e g a ks) ->
  (i <= List.length ks)%nat ->
  jsstring_eqb (toLowerCase (tagName (host st) (f_id fr)))
               (toLowerCase (toggle_tag k)) = false ->
  selected (host st) = Some r0 ->
  dom_range (host st) r0 =
    Some ({| b_node := e; b_off := i |}, {| b_node := e; b_off := i |}) ->
  let nx := next_id (host st) in
  exists st' r1,
    toggle_command k st = Val tt st' /\
    document (host st') =
      plug (fr :: C')
        (Elem e g a
           (firstn i ks ++
            Elem nx (toggle_tag k) [] [Text (S nx) [8203%N]] :: skipn i ks)) /\
    detached (host st') = detached (host st) /\
    selected (host st') = Some r1 /\
    dom_range (host st') r1 =
      Some ({| b_node := nx; b_off := 0 |}, {| b_node := nx; b_off := 0 |}) /\
    emitted st' = emitted st ++ [innerHTML (host st') editor].
Proof.
  intros He Hed (Hd & U & B & Hwf) Hi Htag Hsel Hr nx.
  rewrite toggle_command_tag.
  destruct (caret_run k fr C' e g a ks (detached (host st)) i nx U B Hi
              st editor r0 He Hed (conj Hd (conj eq_refl eq_refl))
              Hwf Hsel Hr Htag)
    as (st1 & r1 & E & _ & (D1 & D2 & _) & S1 & R1 & _ & Em).
  exists st1, r1. auto 10.
Qed.

(** X20. Toggling at a caret does not switch the format off again.  After
    the first run the caret is in the new element [nx], whose parent is
    [e]; the command compares the tag of that parent, not of [nx], so when
    [e] has another tag the second run puts a second element of the format
    into the first, before its zero-width space. *)
Theorem toggle_at_caret_nests {R : Runtime} (k : toggle) (st : Editor nat Dom)
  (editor r0 e i : nat) (g : jsstring) (a : list (jsstring * jsstring))
  (fr : frame) (C' : list frame) (ks : list tree) :
  editorRef st = Some editor ->
  In editor (e :: List.map f_id (fr :: C')) ->
  sits (host st) (fr :: C') (Elem e g a ks) ->
  (i <= List.length ks)%nat ->
  jsstring_eqb (toLowerCase (tagName (host st) (f_id fr)))
               (toLowerCase (toggle_tag k)) = false ->
  jsstring_eqb (toLowerCase (tagName (host st) e))
               (toLowerCase (toggle_tag k)) = false ->
  selected (host st) = Some r0 ->
  dom_range (host st) r0 =
    Some ({| b_node := e; b_off := i |}, {| b_node := e; b_off := i |}) ->
  let nx := next_id (host st) in
  exists st1 st2,
    toggle_command k st = Val tt st1 /\
    toggle_command k st1 = Val tt st2 /\
    document (host st2) =
      plug (fr :: C')
        (Elem e g a
           (firstn i ks ++
            Elem nx (toggle_tag k) []
              [Elem (S (S nx)) (toggle_tag k) []
                 [Text (S (S (S nx))) [8203%N]];
               Text (S nx) [8203%N]] :: skipn i ks)).
Proof.
  intros He Hed (Hd & U & B & Hwf) Hi Htag Htag' Hsel Hr nx.
  rewrite !toggle_command_tag.
  set (t := toggle_tag k) in *.
  set (ds := detached (host st)) in *.
  destruct (caret_run k fr C' e g a ks ds i nx U B Hi
              st editor r0 He Hed (conj Hd (conj eq_refl eq_refl))
              Hwf Hsel Hr Htag)
    as (st1 & r1 & E1 & He1 & Sh1 & S1 & R1 & Wf1 & _).
  set (fr1 := {| f_id := e; f_tag := g; f_attrs := a;
                 f_left := firstn i ks; f_right := skipn i ks |}).
  assert (Hks : flat_map ids ks =
                flat_map ids (firstn i ks) ++ flat_map ids (skipn i ks)).
  { rewrite <- flat_map_app, firstn_skipn. reflexivity. }
  assert (Eids : forall n,
            In n ((e :: flat_map ids (firstn i ks) ++ flat_map ids (skipn i ks))
                  ++ context_ids (fr :: C') ++ flat_map ids ds) -> (n < nx)%nat).
  { intros n Hn. apply B. cbn [ids]. rewrite Hks. exact Hn. }
  assert (U2 : NoDup (ids (Elem nx t [] [Text (S nx) [8203%N]]) ++
                      context_ids (fr1 :: fr :: C') ++ flat_map ids ds)).
  { cbn [ids flat_map app]. unfold context_ids. cbn [flat_map].
    fold (context_ids (fr :: C')). unfold frame_ids at 1.
    cbn [fr1 f_id f_left f_right]. rewrite <- app_assoc.
    cbn [ids] in U. rewrite Hks in U.
    constructor.
    { intros [Hn|Hn]; [lia|]. apply Eids in Hn. lia. }
    constructor; [|exact U].
    intros Hn. apply Eids in Hn. lia. }
  assert (B2 : forall n,
            In n (ids (Elem nx t [] [Text (S nx) [8203%N]]) ++
                  context_ids (fr1 :: fr :: C') ++ flat_map ids ds) ->
            (n < S (S nx))%nat).
  { cbn [ids flat_map app]. unfold context_ids. cbn [flat_map].
    fold (context_ids (fr :: C')). unfold frame_ids at 1.
    cbn [fr1 f_id f_left f_right]. rewrite <- app_assoc.
    intros n [<-|[<-|Hn]]; [lia|lia|]. apply Eids in Hn. lia. }
  destruct (config_facts _ fr C' ds U) as (_ & F & _).
  destruct (F e (or_introl eq_refl)) as (eC & _ & _).
  assert (Hfe : dom_find (host st) e = Some (Elem e g a ks)).
  { apply (dom_find_doc _ (fr :: C') (Elem e g a ks)); [exact Hd|exact eC|].
    apply subtree_at. reflexivity. }
  pose proof Sh1 as (Hd1 & _ & _).
  assert (Hfe1 : dom_find (host st1) e =
                 Some (fill fr1 (Elem nx t [] [Text (S nx) [8203%N]]))).
  { apply (dom_find_doc _ (fr :: C')
             (fill fr1 (Elem nx t [] [Text (S nx) [8203%N]])));
      [exact Hd1|exact eC|].
    apply subtree_at. reflexivity. }
  assert (Htag1 : jsstring_eqb (toLowerCase (tagName (host st1) (f_id fr1)))
                               (toLowerCase t) = false).
  { cbn [tagName domHost fr1 f_id] in *. rewrite Hfe1. rewrite Hfe in Htag'.
    exact Htag'. }
  destruct (caret_run k fr1 (fr :: C') nx t [] [Text (S nx) [8203%N]] ds 0
              (S (S nx)) U2 B2 (Nat.le_0_l _)
              st1 editor r1 He1 (or_intror Hed) Sh1 Wf1 S1 R1 Htag1)
    as (st2 & r2 & E2 & _ & (D2 & _) & _).
  exists st1, st2. split; [exact E1|]. split; [exact E2|]. exact D2.
Qed.

Lemma toggle_at_caret_witness :
  exists st' r1,
    toggle_command (R := refRuntime) Italic ex_caret = Val tt st' /\
    document (host st') =
      plug [{| f_id := 0; f_tag := js "div"; f_attrs := [];
               f_left := []; f_right := [] |}]
        (Elem 1 (js "div") []
           (firstn 1 [Elem 2 (js "strong") [] [Text 3 (js "abc")]] ++
            Elem 4 (toggle_tag Italic) [] [Text 5 [8203%N]] ::
            skipn 1 [Elem 2 (js "strong") [] [Text 3 (js "abc")]])) /\
    detached (host st') = detached (host ex_caret) /\
    selected (host st') = Some r1 /\
    dom_range (host st') r1 =
      Some ({| b_node := 4; b_off := 0 |}, {| b_node := 4; b_off := 0 |}) /\
    emitted st' = emitted ex_caret ++ [innerHTML (host st') 1%nat].
Proof.
  refine (toggle_at_caret (R := refRuntime) Italic ex_caret
            1%nat 0%nat 1%nat 1%nat (js "div") []
            {| f_id := 0; f_tag := js "div"; f_attrs := [];
               f_left := []; f_right := [] |} []
            [Elem 2 (js "strong") [] [Text 3 (js "abc")]]
            eq_refl (or_introl eq_refl) _ (le_n 1) eq_refl eq_refl eq_refl).
  split; [reflexivity|]. split; [|split].
  - repeat (constructor; [cbn; intuition discriminate|]). constructor.
  - intros n Hin. cbn in Hin. cbn. intuition lia.
  - intros r [<-|[]]. cbn. lia.
Defined.

Lemma toggle_at_caret_nests_witness :
  exists st1 st2,
    toggle_command (R := refRuntime) Italic ex_caret = Val tt st1 /\
    toggle_command (R := refRuntime) Italic st1 = Val tt st2 /\
    document (host st2) =
      plug [{| f_id := 0; f_tag := js "div"; f_attrs := [];
               f_left := []; f_right := [] |}]
        (Elem 1 (js "div") []
           (firstn 1 [Elem 2 (js "strong") [] [Text 3 (js "abc")]] ++
            Elem 4 (toggle_tag Italic) []
              [Elem 6 (toggle_tag Italic) [] [Text 7 [8203%N]];
               Text 5 [8203%N]] ::
            skipn 1 [Elem 2 (js "strong") [] [Text 3 (js "abc")]])).
Proof.
  refine (toggle_at_caret_nests (R := refRuntime) Italic ex_caret
            1%nat 0%nat 1%nat 1%nat (js "div") []
            {| f_id := 0; f_tag := js "div"; f_attrs := [];
               f_left := []; f_right := [] |} []
            [Elem 2 (js "strong") [] [Text 3 (js "abc")]]
            eq_refl (or_introl eq_refl) _ (le_n 1) eq_refl eq_refl eq_refl
            eq_refl).
  split; [reflexivity|]. split; [|split].
  - repeat (constructor; [cbn; intuition discriminate|]). constructor.
  - intros n Hin. cbn in Hin. cbn. intuition lia.
  - intros r [<-|[]]. cbn. lia.
Defined.
